(** * Gesture-controlled table tennis: match state machine, physics, gestures

    Shallow embedding of the two game variants of the repository:

    - [ForestPong]: [Forest_Pong/components/GameEngine.tsx] with its
      [constants.ts] and [types.ts];
    - [PongMotion]: the [GameCanvas] component, the gesture classifier of
      [Pong_Motion/services/visionService.ts] and the phase logic of
      [Pong_Motion/App.tsx];
    - [Vision]: [detect] of [Forest Pong Motion/services/visionService.ts]
      and [gameLoop] of the engine;
    - [PongVision]: [processVideo] and [analyzeHand] of
      [Pong_Motion/services/visionService.ts] with the hand state of [App].

    Numbers.  JavaScript numbers that only ever hold counts (scores, the
    serve counter, the missing-frame counter) are modelled as [Z].
    Coordinates, velocities, distances and clock readings are modelled as
    real numbers: exact arithmetic stands for the IEEE doubles of the
    source.  Every [Math.random()] call and every [performance.now()]
    reading is an input of the tick that performs it.

    Mutable cells ([useRef] values) become the fields of one record that is
    passed through the tick; calls of React state setters are appended to a
    log kept in that record. *)

From Stdlib Require Import Reals Lra ZArith Lia List String Bool Relations.
Import ListNotations.

Open Scope R_scope.

(** ** Shared helpers *)

(** [a < b] and [a > b] on numbers, as booleans. *)
Definition Rltb (a b : R) : bool := if Rlt_dec a b then true else false.
Definition Rgtb (a b : R) : bool := Rltb b a.

(** [Math.max(lo, Math.min(hi, v))]. *)
Definition clamp (lo hi v : R) : R := Rmax lo (Rmin hi v).

(** A property access on [undefined] raises a [TypeError]; a computation
    that raises is [None]. *)
Definition bind {A B : Type} (m : option A) (f : A -> option B) : option B :=
  match m with
  | Some a => f a
  | None => None
  end.

Notation "x <- m ;; k" := (bind m (fun x => k))
  (at level 61, m at next level, right associativity).

(** ** Notions of the specification *)

(** [max(p,o) >= W] and [|p - o| >= 2]. *)
Definition winBy2 (W p o : Z) : Prop :=
  (Z.max p o >= W)%Z /\ (Z.abs (p - o) >= 2)%Z.

(** Both scores at or above the deuce threshold. *)
Definition deuce (p o : Z) : Prop := (p >= 10)%Z /\ (o >= 10)%Z.

(** ** Forest Pong: [GameEngine.tsx] *)

Module ForestPong.

(** *** [constants.ts] *)

Definition CANVAS_WIDTH : R := 1280.
Definition CANVAS_HEIGHT : R := 720.
Definition PADDLE_WIDTH : R := 120.
Definition PADDLE_HEIGHT : R := 20.
Definition BALL_RADIUS : R := 10.
Definition WALL_OFFSET : R := 20.
Definition PADDLE_SPEED_AI : R := 7.5.
Definition WINNING_SCORE : Z := 11.
Definition FIST_THRESHOLD : R := 0.08.
Definition BEND_THRESHOLD : R := 0.06.

(** *** [types.ts] *)

Inductive GameState : Type :=
| INITIALIZING
| WAITING_FOR_HAND
| MENU
| SERVING
| PLAYING
| GAME_OVER.

Inductive ServeTurn : Type :=
| PLAYER
| AI.

Record Point : Type := mkPoint { p_x : R; p_y : R }.

Record Scores : Type := mkScores { player : Z; ai : Z }.

Definition GameState_eqb (a b : GameState) : bool :=
  match a, b with
  | INITIALIZING, INITIALIZING | WAITING_FOR_HAND, WAITING_FOR_HAND
  | MENU, MENU | SERVING, SERVING | PLAYING, PLAYING
  | GAME_OVER, GAME_OVER => true
  | _, _ => false
  end.

(** *** Engine state *)

(** The object returned by [resetBall] and mutated by the loop. *)
Record Ball : Type := mkBall {
  b_x : R;
  b_y : R;
  b_dx : R;
  b_dy : R;
  baseSpeed : R;
  launchDirY : R;
  launchDx : R
}.

(** Calls of the React setters, most recent first. *)
Inductive UiCall : Type :=
| SetGameState (g : GameState)
| SetScores (sc : Scores)
| SetServeInfo (turn : ServeTurn) (countdown : option Z)
| SetCountdown (countdown : option Z)
| SetHandStatus (msg : string).

Record Engine : Type := mkEngine {
  paddlePlayerX : R;
  paddleAIX : R;
  ball : Ball;
  aiErrorOffset : R;
  gameStateRef : GameState;
  scoresRef : Scores;
  serveTurnRef : ServeTurn;
  servesCountRef : Z;
  handDetectedRef : bool;
  missingHandFramesRef : Z;
  ui : list UiCall
}.

(** The values drawn by [Math.random()] during one tick, one per call
    site; every call site runs at most once in a tick. *)
Record Draws : Type := mkDraws {
  rLaunch : R;     (* resetBall: launch angle *)
  rServeErr : R;   (* startServePhase: opponent error for the serve *)
  rHitErr : R;     (* update: opponent error after a player hit *)
  rAutoServe : R   (* update: opponent serve lottery *)
}.

Definition set_paddlePlayerX (v : R) (s : Engine) : Engine :=
  mkEngine v (paddleAIX s) (ball s) (aiErrorOffset s) (gameStateRef s)
    (scoresRef s) (serveTurnRef s) (servesCountRef s) (handDetectedRef s)
    (missingHandFramesRef s) (ui s).

Definition set_paddleAIX (v : R) (s : Engine) : Engine :=
  mkEngine (paddlePlayerX s) v (ball s) (aiErrorOffset s) (gameStateRef s)
    (scoresRef s) (serveTurnRef s) (servesCountRef s) (handDetectedRef s)
    (missingHandFramesRef s) (ui s).

Definition set_ball (v : Ball) (s : Engine) : Engine :=
  mkEngine (paddlePlayerX s) (paddleAIX s) v (aiErrorOffset s)
    (gameStateRef s) (scoresRef s) (serveTurnRef s) (servesCountRef s)
    (handDetectedRef s) (missingHandFramesRef s) (ui s).

Definition set_aiErrorOffset (v : R) (s : Engine) : Engine :=
  mkEngine (paddlePlayerX s) (paddleAIX s) (ball s) v (gameStateRef s)
    (scoresRef s) (serveTurnRef s) (servesCountRef s) (handDetectedRef s)
    (missingHandFramesRef s) (ui s).

Definition set_gameStateRef (v : GameState) (s : Engine) : Engine :=
  mkEngine (paddlePlayerX s) (paddleAIX s) (ball s) (aiErrorOffset s) v
    (scoresRef s) (serveTurnRef s) (servesCountRef s) (handDetectedRef s)
    (missingHandFramesRef s) (ui s).

Definition set_scoresRef (v : Scores) (s : Engine) : Engine :=
  mkEngine (paddlePlayerX s) (paddleAIX s) (ball s) (aiErrorOffset s)
    (gameStateRef s) v (serveTurnRef s) (servesCountRef s)
    (handDetectedRef s) (missingHandFramesRef s) (ui s).

Definition set_serveTurnRef (v : ServeTurn) (s : Engine) : Engine :=
  mkEngine (paddlePlayerX s) (paddleAIX s) (ball s) (aiErrorOffset s)
    (gameStateRef s) (scoresRef s) v (servesCountRef s) (handDetectedRef s)
    (missingHandFramesRef s) (ui s).

Definition set_servesCountRef (v : Z) (s : Engine) : Engine :=
  mkEngine (paddlePlayerX s) (paddleAIX s) (ball s) (aiErrorOffset s)
    (gameStateRef s) (scoresRef s) (serveTurnRef s) v (handDetectedRef s)
    (missingHandFramesRef s) (ui s).

Definition set_handDetectedRef (v : bool) (s : Engine) : Engine :=
  mkEngine (paddlePlayerX s) (paddleAIX s) (ball s) (aiErrorOffset s)
    (gameStateRef s) (scoresRef s) (serveTurnRef s) (servesCountRef s) v
    (missingHandFramesRef s) (ui s).

Definition set_missingHandFramesRef (v : Z) (s : Engine) : Engine :=
  mkEngine (paddlePlayerX s) (paddleAIX s) (ball s) (aiErrorOffset s)
    (gameStateRef s) (scoresRef s) (serveTurnRef s) (servesCountRef s)
    (handDetectedRef s) v (ui s).

Definition call (c : UiCall) (s : Engine) : Engine :=
  mkEngine (paddlePlayerX s) (paddleAIX s) (ball s) (aiErrorOffset s)
    (gameStateRef s) (scoresRef s) (serveTurnRef s) (servesCountRef s)
    (handDetectedRef s) (missingHandFramesRef s) (c :: ui s).

(** [setGameState] is always called next to the write of the ref. *)
Definition enter (g : GameState) (s : Engine) : Engine :=
  call (SetGameState g) (set_gameStateRef g s).

(** *** Physics helper: [resetBall] *)

Definition resetBall (turn : ServeTurn) (r : R) : Ball :=
  let speed := 7 in
  let dirY := match turn with PLAYER => -1 | AI => 1 end in
  let randomX := (r * 2 - 1) * 3 in
  {| b_x := CANVAS_WIDTH / 2;
     b_y := match turn with
            | PLAYER =>
                CANVAS_HEIGHT - WALL_OFFSET - PADDLE_HEIGHT - BALL_RADIUS - 10
            | AI => WALL_OFFSET + PADDLE_HEIGHT + BALL_RADIUS + 10
            end;
     b_dx := 0;
     b_dy := 0;
     baseSpeed := speed;
     launchDirY := dirY;
     launchDx := randomX |}.

(** The state of the refs when the component is mounted. *)
Definition initial (r : R) : Engine :=
  {| paddlePlayerX := CANVAS_WIDTH / 2;
     paddleAIX := CANVAS_WIDTH / 2;
     ball := resetBall PLAYER r;
     aiErrorOffset := 0;
     gameStateRef := INITIALIZING;
     scoresRef := mkScores 0 0;
     serveTurnRef := PLAYER;
     servesCountRef := 0%Z;
     handDetectedRef := false;
     missingHandFramesRef := 0%Z;
     ui := [] |}.

(** [videoRef.current.onloadeddata]: the camera is ready, the loop starts. *)
Definition onloadeddata (s : Engine) : Engine := enter WAITING_FOR_HAND s.

(** *** Gestures *)

Definition dist (a b : Point) : R :=
  sqrt ((p_x a - p_x b) ^ 2 + (p_y a - p_y b) ^ 2).

Definition isFist (landmarks : list Point) : option bool :=
  wrist <- nth_error landmarks 0 ;;
  t8 <- nth_error landmarks 8 ;;
  t12 <- nth_error landmarks 12 ;;
  t16 <- nth_error landmarks 16 ;;
  t20 <- nth_error landmarks 20 ;;
  let tips := [t8; t12; t16; t20] in
  let avgDist := fold_left (fun acc tip => acc + dist tip wrist) tips 0 / 4 in
  Some (Rltb avgDist FIST_THRESHOLD).

Definition isIndexBent (landmarks : list Point) : option bool :=
  tip <- nth_error landmarks 8 ;;
  mcp <- nth_error landmarks 5 ;;
  Some (Rltb (dist tip mcp) BEND_THRESHOLD).

(** Map hand x to paddle x: mirror, scale, smooth, clamp. *)
Definition updatePlayerPaddle (landmarks : list Point) (s : Engine)
  : option Engine :=
  tip <- nth_error landmarks 8 ;;
  let x := 1 - p_x tip in
  let targetX := x * CANVAS_WIDTH in
  let lerped := paddlePlayerX s + (targetX - paddlePlayerX s) * 0.2 in
  Some (set_paddlePlayerX
          (clamp (PADDLE_WIDTH / 2) (CANVAS_WIDTH - PADDLE_WIDTH / 2) lerped)
          s).

(** *** Logic control *)

(** The opponent's error drawn for a serve, [(Math.random() - 0.5) * 50],
    and after a hit of the player, [(Math.random() - 0.5) * 80]. *)
Definition serveError (r : R) : R := (r - 0.5) * 50.
Definition hitError (r : R) : R := (r - 0.5) * 80.

(** The [setInterval] countdown started here only writes the displayed
    countdown and is left out. *)
Definition startServePhase (d : Draws) (s : Engine) : Engine :=
  let s1 := enter SERVING s in
  let s2 := call (SetServeInfo (serveTurnRef s1) (Some 3%Z)) s1 in
  let s3 := set_ball (resetBall (serveTurnRef s2) (rLaunch d)) s2 in
  set_aiErrorOffset (serveError (rServeErr d)) s3.

Definition startGame (d : Draws) (s : Engine) : Engine :=
  let s1 := set_scoresRef (mkScores 0 0) s in
  let s2 := call (SetScores (mkScores 0 0)) s1 in
  let s3 := set_servesCountRef 0%Z s2 in
  let s4 := set_serveTurnRef PLAYER s3 in
  startServePhase d s4.

Definition triggerServe (s : Engine) : Engine :=
  match gameStateRef s with
  | SERVING =>
      let b := ball s in
      let b1 := mkBall (b_x b) (b_y b) (b_dx b) (baseSpeed b * launchDirY b)
                  (baseSpeed b) (launchDirY b) (launchDx b) in
      let b2 := mkBall (b_x b1) (b_y b1) (launchDx b1) (b_dy b1)
                  (baseSpeed b1) (launchDirY b1) (launchDx b1) in
      call (SetCountdown None) (enter PLAYING (set_ball b2 s))
  | _ => s
  end.

Definition otherTurn (t : ServeTurn) : ServeTurn :=
  match t with PLAYER => AI | AI => PLAYER end.

Definition scorePoint (winner : ServeTurn) (d : Draws) (s : Engine) : Engine :=
  let newScores :=
    match winner with
    | PLAYER => mkScores (player (scoresRef s) + 1) (ai (scoresRef s))
    | AI => mkScores (player (scoresRef s)) (ai (scoresRef s) + 1)
    end in
  let s1 := call (SetScores newScores) (set_scoresRef newScores s) in
  let p := player newScores in
  let a := ai newScores in
  if ((p >=? WINNING_SCORE) || (a >=? WINNING_SCORE))%Z
     && (Z.abs (p - a) >=? 2)%Z
  then enter GAME_OVER s1
  else
    let isDeuce := ((p >=? 10) && (a >=? 10))%Z in
    let s2 := set_servesCountRef (servesCountRef s1 + 1)%Z s1 in
    let '(switchServe, s3) :=
      if isDeuce then (true, s2)
      else if (servesCountRef s2 >=? 2)%Z
           then (true, set_servesCountRef 0%Z s2)
           else (false, s2) in
    let s4 :=
      if switchServe
      then set_serveTurnRef (otherTurn (serveTurnRef s3)) s3
      else s3 in
    startServePhase d s4.

(** *** The game loop: [update] *)

(** 1. Process input. *)

(** A hand is seen: reset the debounce counter, and announce the hand if it
    was not detected before. *)
Definition handSeen (s : Engine) : Engine :=
  let s1 := set_missingHandFramesRef 0%Z s in
  if negb (handDetectedRef s1)
  then
    let t := call (SetHandStatus "Hand Detected")
               (set_handDetectedRef true s1) in
    match gameStateRef t with
    | WAITING_FOR_HAND => enter MENU t
    | _ => t
    end
  else s1.

(** No hand in this frame: debounce, then declare the hand lost. *)
Definition handMissing (s : Engine) : Engine :=
  let s1 := set_missingHandFramesRef (missingHandFramesRef s + 1)%Z s in
  if (missingHandFramesRef s1 >? 30)%Z
  then
    if handDetectedRef s1
    then call (SetHandStatus "Lost Tracking - Raise Hand")
           (set_handDetectedRef false s1)
    else s1
  else s1.

(** The gestures the current phase reacts to. *)
Definition gestures (l : list Point) (d : Draws) (s : Engine)
  : option Engine :=
  match gameStateRef s with
  | MENU | GAME_OVER =>
      fist <- isFist l ;;
      Some (if fist then startGame d s else s)
  | SERVING =>
      match serveTurnRef s with
      | PLAYER =>
          bent <- isIndexBent l ;;
          Some (if bent then triggerServe s else s)
      | AI => Some s
      end
  | _ => Some s
  end.

Definition processInput (landmarks : option (list Point)) (d : Draws)
  (s : Engine) : option Engine :=
  match landmarks with
  | Some l =>
      s3 <- updatePlayerPaddle l (handSeen s) ;;
      gestures l d s3
  | None => Some (handMissing s)
  end.

(** 2. Opponent paddle. *)
Definition aiTarget (s : Engine) : R :=
  if Rgtb (b_dy (ball s)) 0 && GameState_eqb (gameStateRef s) PLAYING
  then CANVAS_WIDTH / 2
  else b_x (ball s) + aiErrorOffset s.

Definition aiLogic (s : Engine) : Engine :=
  match gameStateRef s with
  | PLAYING | SERVING =>
      let targetX := aiTarget s in
      let diff := targetX - paddleAIX s in
      let moved :=
        if Rgtb (Rabs diff) PADDLE_SPEED_AI
        then paddleAIX s
             + (if Rgtb diff 0 then PADDLE_SPEED_AI else - PADDLE_SPEED_AI)
        else targetX in
      set_paddleAIX
        (clamp (PADDLE_WIDTH / 2) (CANVAS_WIDTH - PADDLE_WIDTH / 2) moved) s
  | _ => s
  end.

(** 3. Ball physics. *)
Definition moveBall (b : Ball) : Ball :=
  mkBall (b_x b + b_dx b) (b_y b + b_dy b) (b_dx b) (b_dy b)
    (baseSpeed b) (launchDirY b) (launchDx b).

Definition sideWalls (b : Ball) : Ball :=
  if Rltb (b_x b - BALL_RADIUS) 0 || Rgtb (b_x b + BALL_RADIUS) CANVAS_WIDTH
  then mkBall (b_x b) (b_y b) (- b_dx b) (b_dy b)
         (baseSpeed b) (launchDirY b) (launchDx b)
  else b.

Definition hitsAIPaddle (b : Ball) (paddle : R) : bool :=
  (Rltb (b_dy b) 0
   && Rltb (b_y b - BALL_RADIUS) (WALL_OFFSET + PADDLE_HEIGHT)
   && Rgtb (b_y b - BALL_RADIUS) (WALL_OFFSET - 5))
  && Rltb (Rabs (b_x b - paddle)) (PADDLE_WIDTH / 2 + BALL_RADIUS).

Definition hitsPlayerPaddle (b : Ball) (paddle : R) : bool :=
  (Rgtb (b_dy b) 0
   && Rgtb (b_y b + BALL_RADIUS) (CANVAS_HEIGHT - WALL_OFFSET - PADDLE_HEIGHT)
   && Rltb (b_y b + BALL_RADIUS) (CANVAS_HEIGHT - WALL_OFFSET + 5))
  && Rltb (Rabs (b_x b - paddle)) (PADDLE_WIDTH / 2 + BALL_RADIUS).

(** The body of a paddle hit: speed up, spin, unstick at height [y']. *)
Definition bounce (b : Ball) (paddle y' : R) : Ball :=
  let dy' := - b_dy b * 1.05 in
  let impact := (b_x b - paddle) / (PADDLE_WIDTH / 2) in
  mkBall (b_x b) y' (impact * 10) dy'
    (baseSpeed b) (launchDirY b) (launchDx b).

Definition aiPaddleCollision (s : Engine) : Engine :=
  if hitsAIPaddle (ball s) (paddleAIX s)
  then set_ball
         (bounce (ball s) (paddleAIX s)
            (WALL_OFFSET + PADDLE_HEIGHT + BALL_RADIUS + 1)) s
  else s.

Definition playerPaddleCollision (d : Draws) (s : Engine) : Engine :=
  if hitsPlayerPaddle (ball s) (paddlePlayerX s)
  then
    let s1 := set_ball
                (bounce (ball s) (paddlePlayerX s)
                   (CANVAS_HEIGHT - WALL_OFFSET - PADDLE_HEIGHT
                    - BALL_RADIUS - 1)) s in
    set_aiErrorOffset (hitError (rHitErr d)) s1
  else s.

Definition scoring (d : Draws) (s : Engine) : Engine :=
  if Rltb (b_y (ball s)) 0 then scorePoint PLAYER d s
  else if Rgtb (b_y (ball s)) CANVAS_HEIGHT then scorePoint AI d s
  else s.

Definition stickBall (bx by_ : R) (s : Engine) : Engine :=
  let b := ball s in
  set_ball (mkBall bx by_ (b_dx b) (b_dy b)
              (baseSpeed b) (launchDirY b) (launchDx b)) s.

Definition ballPhysics (d : Draws) (s : Engine) : Engine :=
  match gameStateRef s with
  | PLAYING =>
      let s1 := set_ball (sideWalls (moveBall (ball s))) s in
      scoring d (playerPaddleCollision d (aiPaddleCollision s1))
  | SERVING =>
      match serveTurnRef s with
      | PLAYER =>
          stickBall (paddlePlayerX s)
            (CANVAS_HEIGHT - WALL_OFFSET - PADDLE_HEIGHT - BALL_RADIUS - 5) s
      | AI =>
          let s1 := stickBall (paddleAIX s)
                      (WALL_OFFSET + PADDLE_HEIGHT + BALL_RADIUS + 5) s in
          if Rltb (rAutoServe d) 0.02 then triggerServe s1 else s1
      end
  | _ => s
  end.

Definition update (landmarks : option (list Point)) (d : Draws) (s : Engine)
  : option Engine :=
  s1 <- processInput landmarks d s ;;
  Some (ballPhysics d (aiLogic s1)).

(** One animation frame delivers the detected hand, if any, and the draws. *)
Definition Frame : Type := (option (list Point) * Draws)%type.

(** [gameLoop] over a sequence of animation frames; a frame that raises
    ends the loop. *)
Fixpoint run (frames : list Frame) (s : Engine) : option Engine :=
  match frames with
  | [] => Some s
  | (landmarks, d) :: rest =>
      s' <- update landmarks d s ;;
      run rest s'
  end.

(** The points of a match played out by direct calls of [scorePoint]:
    who serves each point, in order. *)
Fixpoint servers (winners : list ServeTurn) (d : Draws) (s : Engine)
  : list ServeTurn :=
  match winners with
  | [] => []
  | w :: rest => serveTurnRef s :: servers rest d (scorePoint w d s)
  end.

(** *** Notions used to state and prove the properties *)

(** The part of the engine the scoring rules read and write. *)
Definition matchOf (s : Engine) : GameState * Scores * ServeTurn * Z :=
  (gameStateRef s, scoresRef s, serveTurnRef s, servesCountRef s).

(** The scores after the point. *)
Definition scored (winner : ServeTurn) (sc : Scores) : Scores :=
  match winner with
  | PLAYER => mkScores (player sc + 1) (ai sc)
  | AI => mkScores (player sc) (ai sc + 1)
  end.

(** The win check of [scorePoint] on given scores. *)
Definition wins (sc : Scores) : bool :=
  ((player sc >=? WINNING_SCORE) || (ai sc >=? WINNING_SCORE))%Z
  && (Z.abs (player sc - ai sc) >=? 2)%Z.

(** The deuce check of [scorePoint] on given scores. *)
Definition isDeuce (sc : Scores) : bool :=
  ((player sc >=? 10) && (ai sc >=? 10))%Z.

(** Phase, scores, server and consecutive-serve counter. *)
Definition Match : Type := (GameState * Scores * ServeTurn * Z)%type.

(** [scorePoint] as a function on the fields of the match. *)
Definition pointMatch (w : ServeTurn) (m : Match) : Match :=
  let '(_, sc0, t, n) := m in
  let sc := scored w sc0 in
  if wins sc then (GAME_OVER, sc, t, n)
  else if isDeuce sc then (SERVING, sc, otherTurn t, (n + 1)%Z)
  else if (n + 1 >=? 2)%Z then (SERVING, sc, otherTurn t, 0%Z)
  else (SERVING, sc, t, (n + 1)%Z).

(** The moves of the match: a first hand opens the menu, a fist starts a
    game, a serve is launched, a point is scored. *)
Inductive MatchMove : Match -> Match -> Prop :=
| MoveMenu sc t n :
    MatchMove (WAITING_FOR_HAND, sc, t, n) (MENU, sc, t, n)
| MoveStart g sc t n :
    g = MENU \/ g = GAME_OVER ->
    MatchMove (g, sc, t, n) (SERVING, mkScores 0 0, PLAYER, 0%Z)
| MoveLaunch sc t n :
    MatchMove (SERVING, sc, t, n) (PLAYING, sc, t, n)
| MovePoint w sc t n :
    MatchMove (PLAYING, sc, t, n) (pointMatch w (PLAYING, sc, t, n)).

(** Any number of moves. *)
Definition MatchMoves : Match -> Match -> Prop := clos_refl_trans _ MatchMove.

(** The match after step 1 of [update]; [detected] is [handDetectedRef]
    before the tick. *)
Definition inputMatch (lm : option (list Point)) (detected : bool)
  (m : Match) : Match :=
  match lm with
  | None => m
  | Some l =>
      let '(g, sc, t, n) := m in
      let g1 := if negb detected
                then match g with WAITING_FOR_HAND => MENU | _ => g end
                else g in
      match g1 with
      | MENU | GAME_OVER =>
          match isFist l with
          | Some true => (SERVING, mkScores 0 0, PLAYER, 0%Z)
          | _ => (g1, sc, t, n)
          end
      | SERVING =>
          match t, isIndexBent l with
          | PLAYER, Some true => (PLAYING, sc, t, n)
          | _, _ => (g1, sc, t, n)
          end
      | _ => (g1, sc, t, n)
      end
  end.

(** Scores are not negative, the counter is 0 or 1 below deuce, and the
    match is over only at a winning score. *)
Definition MatchInv (m : Match) : Prop :=
  let '(g, sc, t, n) := m in
  (0 <= player sc)%Z /\ (0 <= ai sc)%Z /\ (0 <= n)%Z
  /\ (~ deuce (player sc) (ai sc) -> (n <= 1)%Z)
  /\ (g = GAME_OVER -> winBy2 WINNING_SCORE (player sc) (ai sc)).

(** The paddles and the hand-tracking cells. *)
Definition outerOf (s : Engine) : R * R * bool * Z :=
  (paddlePlayerX s, paddleAIX s, handDetectedRef s, missingHandFramesRef s).

(** [s'] has the setter calls of [s] and possibly later ones. *)
Definition extends (s s' : Engine) : Prop := exists l, ui s' = l ++ ui s.

(** The setter call [c] was made between [s] and [s']. *)
Definition emitted (c : UiCall) (s s' : Engine) : Prop :=
  exists l, ui s' = l ++ ui s /\ In c l.

(** Both paddles lie inside the walls. *)
Definition PaddleInv (s : Engine) : Prop :=
  PADDLE_WIDTH / 2 <= paddlePlayerX s <= CANVAS_WIDTH - PADDLE_WIDTH / 2
  /\ PADDLE_WIDTH / 2 <= paddleAIX s <= CANVAS_WIDTH - PADDLE_WIDTH / 2.

(** The engine at the check of the player's paddle, in a tick of active
    play that starts step 3 in [s]. *)
Definition atPlayerCheck (s : Engine) : Engine :=
  aiPaddleCollision (set_ball (sideWalls (moveBall (ball s))) s).

(** The player's paddle contacts the ball in the tick whose step 3 starts
    in [s]. *)
Definition playerContact (s : Engine) : Prop :=
  gameStateRef s = PLAYING
  /\ hitsPlayerPaddle (ball (atPlayerCheck s))
       (paddlePlayerX (atPlayerCheck s)) = true.

(** The match after step 3 of [update] outside active play. *)
Definition idleMatch (d : Draws) (m : Match) : Match :=
  let '(g, sc, t, n) := m in
  match g, t with
  | SERVING, AI => if Rltb (rAutoServe d) 0.02 then (PLAYING, sc, t, n) else m
  | _, _ => m
  end.

(** The phase of a match. *)
Definition phaseOf (m : Match) : GameState := fst (fst (fst m)).

(** A hand frame has 21 landmarks. *)
Definition wellFormed (l : list Point) : Prop := List.length l = 21%nat.

(** The hand frame of a tick, if any, is well formed. *)
Definition wellFormedFrame (f : Frame) : Prop :=
  match fst f with
  | Some l => wellFormed l
  | None => True
  end.

End ForestPong.

(** ** Pong Motion: [GameCanvas], [visionService.ts], [App.tsx] *)

Module PongMotion.

(** *** Constants of [GameCanvas] *)

Definition GAME_WIDTH : R := 800.
Definition GAME_HEIGHT : R := 1200.
Definition PADDLE_WIDTH : R := 120.
Definition PADDLE_HEIGHT : R := 20.
Definition BALL_RADIUS : R := 12.
Definition WINNING_SCORE : Z := 11.

(** *** [types.ts] *)

Inductive GameState : Type :=
| LOADING
| MENU
| HAND_DETECTED
| COUNTDOWN
| PLAYING
| GAME_OVER.

Inductive HandGesture : Type :=
| UNKNOWN
| OPEN_PALM
| FIST
| INDEX_BENT.

Record HandLandmark : Type := mkLandmark { l_x : R; l_y : R; l_z : R }.

(** ['player' | 'ai'] *)
Inductive Side : Type :=
| Player
| Ai.

Record Scores : Type := mkScores { player : Z; ai : Z }.

Record BallState : Type := mkBall {
  b_x : R;
  b_y : R;
  b_dx : R;
  b_dy : R;
  speed : R
}.

Record GamePhysicsState : Type := mkPhysics {
  paddleX : R;      (* left edge of the player's paddle *)
  aiPaddleX : R;    (* left edge of the opponent's paddle *)
  ball : BallState
}.

(** The refs of [GameCanvas], and the [App] state its callbacks write:
    [gameState] (the prop, written by [onGameStateChange]), [appScores]
    ([onScoreUpdate]) and [isPlayerTurn] ([onServeChange]).  A state set by
    a callback is the prop seen by the next animation frame. *)
Record Canvas : Type := mkCanvas {
  physics : GamePhysicsState;
  scores : Scores;
  server : Side;
  servesCount : Z;
  isServing : bool;
  serveTimer : R;
  gameState : GameState;
  appScores : Scores;
  isPlayerTurn : bool
}.

Definition set_physics (v : GamePhysicsState) (c : Canvas) : Canvas :=
  mkCanvas v (scores c) (server c) (servesCount c) (isServing c)
    (serveTimer c) (gameState c) (appScores c) (isPlayerTurn c).

Definition set_ball (v : BallState) (c : Canvas) : Canvas :=
  set_physics (mkPhysics (paddleX (physics c)) (aiPaddleX (physics c)) v) c.

Definition set_paddleX (v : R) (c : Canvas) : Canvas :=
  set_physics (mkPhysics v (aiPaddleX (physics c)) (ball (physics c))) c.

Definition set_aiPaddleX (v : R) (c : Canvas) : Canvas :=
  set_physics (mkPhysics (paddleX (physics c)) v (ball (physics c))) c.

Definition set_scores (v : Scores) (c : Canvas) : Canvas :=
  mkCanvas (physics c) v (server c) (servesCount c) (isServing c)
    (serveTimer c) (gameState c) (appScores c) (isPlayerTurn c).

Definition set_server (v : Side) (c : Canvas) : Canvas :=
  mkCanvas (physics c) (scores c) v (servesCount c) (isServing c)
    (serveTimer c) (gameState c) (appScores c) (isPlayerTurn c).

Definition set_servesCount (v : Z) (c : Canvas) : Canvas :=
  mkCanvas (physics c) (scores c) (server c) v (isServing c)
    (serveTimer c) (gameState c) (appScores c) (isPlayerTurn c).

Definition set_isServing (v : bool) (c : Canvas) : Canvas :=
  mkCanvas (physics c) (scores c) (server c) (servesCount c) v
    (serveTimer c) (gameState c) (appScores c) (isPlayerTurn c).

Definition set_serveTimer (v : R) (c : Canvas) : Canvas :=
  mkCanvas (physics c) (scores c) (server c) (servesCount c) (isServing c)
    v (gameState c) (appScores c) (isPlayerTurn c).

Definition onGameStateChange (v : GameState) (c : Canvas) : Canvas :=
  mkCanvas (physics c) (scores c) (server c) (servesCount c) (isServing c)
    (serveTimer c) v (appScores c) (isPlayerTurn c).

Definition onScoreUpdate (p a : Z) (c : Canvas) : Canvas :=
  mkCanvas (physics c) (scores c) (server c) (servesCount c) (isServing c)
    (serveTimer c) (gameState c) (mkScores p a) (isPlayerTurn c).

Definition onServeChange (v : bool) (c : Canvas) : Canvas :=
  mkCanvas (physics c) (scores c) (server c) (servesCount c) (isServing c)
    (serveTimer c) (gameState c) (appScores c) v.

Definition Side_eqb (a b : Side) : bool :=
  match a, b with
  | Player, Player | Ai, Ai => true
  | _, _ => false
  end.

Definition otherSide (s : Side) : Side :=
  match s with Player => Ai | Ai => Player end.

(** *** [GameCanvas] *)

(** [now] is the reading of [performance.now()]. *)
Definition resetBall (whoServes : Side) (now : R) (c : Canvas) : Canvas :=
  let b1 := mkBall (GAME_WIDTH / 2)
              (match whoServes with
               | Player => GAME_HEIGHT - 150
               | Ai => 150
               end) 0 0 0 in
  let c1 := set_ball b1 c in
  let c2 := set_isServing true c1 in
  let c3 := set_server whoServes c2 in
  let c4 := onServeChange (Side_eqb whoServes Player) c3 in
  set_serveTimer now c4.

(** The refs and the [App] state when the components are mounted. *)
Definition mounted : Canvas :=
  {| physics := mkPhysics 0.5 0.5 (mkBall (GAME_WIDTH / 2) (GAME_HEIGHT / 2) 0 0 0);
     scores := mkScores 0 0;
     server := Player;
     servesCount := 0%Z;
     isServing := true;
     serveTimer := 0;
     gameState := LOADING;
     appScores := mkScores 0 0;
     isPlayerTurn := true |}.

(** The effect on [resetTrigger]: initialize or reset the game. *)
Definition resetEffect (now : R) (c : Canvas) : Canvas :=
  let c1 := set_scores (mkScores 0 0) c in
  let c2 := set_server Player c1 in
  let c3 := set_servesCount 0%Z c2 in
  let c4 := resetBall Player now c3 in
  let c5 := onScoreUpdate 0 0 c4 in
  onServeChange true c5.

Definition checkWinCondition (c : Canvas) : bool * Canvas :=
  let p := player (scores c) in
  let a := ai (scores c) in
  if ((p >=? WINNING_SCORE) || (a >=? WINNING_SCORE))%Z
     && (Z.abs (p - a) >=? 2)%Z
  then (true, onGameStateChange GAME_OVER c)
  else (false, c).

(** [totalPoints] and [shouldSwitch] are computed by the source and never
    read; they are left out. *)
Definition handleScoring (winner : Side) (now : R) (c : Canvas) : Canvas :=
  let c1 :=
    match winner with
    | Player =>
        set_scores (mkScores (player (scores c) + 1) (ai (scores c))) c
    | Ai =>
        set_scores (mkScores (player (scores c)) (ai (scores c) + 1)) c
    end in
  let c2 := onScoreUpdate (player (scores c1)) (ai (scores c1)) c1 in
  let '(won, c3) := checkWinCondition c2 in
  if won then c3
  else
    let isDeuce :=
      ((player (scores c3) >=? 10) && (ai (scores c3) >=? 10))%Z in
    let c4 := set_servesCount (servesCount c3 + 1)%Z c3 in
    let servesAllowed := if isDeuce then 1%Z else 2%Z in
    if (servesCount c4 >=? servesAllowed)%Z
    then resetBall (otherSide (server c4)) now (set_servesCount 0%Z c4)
    else resetBall (server c4) now c4.

(** [r] is the value drawn by [Math.random()]. *)
Definition launchBall (r : R) (c : Canvas) : Canvas :=
  let dirY := match server c with Player => -1 | Ai => 1 end in
  let dirX := (r - 0.5) * 1.5 in
  let b := ball (physics c) in
  set_isServing false
    (set_ball (mkBall (b_x b) (b_y b) (dirX * 8) (dirY * 12) 12) c).

Definition HandGesture_eqb (a b : HandGesture) : bool :=
  match a, b with
  | UNKNOWN, UNKNOWN | OPEN_PALM, OPEN_PALM | FIST, FIST
  | INDEX_BENT, INDEX_BENT => true
  | _, _ => false
  end.

(** The props and readings one animation frame works with. *)
Record FrameInput : Type := mkInput {
  gesture : HandGesture;
  paddleXProp : R;   (* the [paddleX] prop, 0 to 1 *)
  now : R;           (* performance.now() *)
  rLaunch : R        (* Math.random() in launchBall *)
}.

Definition with_x_y (bx by_ : R) (b : BallState) : BallState :=
  mkBall bx by_ (b_dx b) (b_dy b) (speed b).

(** 2. Serve logic: the branch taken while [isServing]. *)
Definition serveLogic (i : FrameInput) (c : Canvas) : Canvas :=
  match server c with
  | Player =>
      let b := ball (physics c) in
      let c1 := set_ball
                  (with_x_y (paddleX (physics c) + PADDLE_WIDTH / 2)
                     (GAME_HEIGHT - PADDLE_HEIGHT - BALL_RADIUS - 10) b) c in
      if HandGesture_eqb (gesture i) INDEX_BENT
      then launchBall (rLaunch i) c1 else c1
  | Ai =>
      let b := ball (physics c) in
      let c1 := set_aiPaddleX (b_x b - PADDLE_WIDTH / 2) c in
      let c2 := set_ball
                  (with_x_y (b_x b) (PADDLE_HEIGHT + BALL_RADIUS + 10) b) c1 in
      if Rgtb (now i - serveTimer c2) 1500
      then launchBall (rLaunch i) c2 else c2
  end.

(** The body of a paddle hit; [sgn] is the sign of the new vertical
    direction and [y'] the height the ball is put back to. *)
Definition paddleHit (paddle sgn y' : R) (b : BallState) : BallState :=
  let hitPoint := b_x b - (paddle + PADDLE_WIDTH / 2) in
  let normalizedHit := hitPoint / (PADDLE_WIDTH / 2) in
  let angle := normalizedHit * (PI / 4) in
  let speed' := Rmin (speed b + 1) 25 in
  mkBall (b_x b) y' (speed' * sin angle) (sgn * speed' * cos angle) speed'.

Definition overPaddle (b : BallState) (paddle : R) : bool :=
  Rgtb (b_x b) paddle && Rltb (b_x b) (paddle + PADDLE_WIDTH).

Definition inPlayerBand (b : BallState) : bool :=
  Rgtb (b_y b + BALL_RADIUS) (GAME_HEIGHT - PADDLE_HEIGHT - 10)
  && Rltb (b_y b - BALL_RADIUS) (GAME_HEIGHT - 10).

Definition inAiBand (b : BallState) : bool :=
  Rltb (b_y b - BALL_RADIUS) (PADDLE_HEIGHT + 10)
  && Rgtb (b_y b + BALL_RADIUS) 10.

(** 3. Ball physics: the rest of [update] once the ball is in play. *)
Definition moveBall (c : Canvas) : Canvas :=
  let b := ball (physics c) in
  set_ball (mkBall (b_x b + b_dx b) (b_y b + b_dy b) (b_dx b) (b_dy b)
              (speed b)) c.

Definition wallCollisions (c : Canvas) : Canvas :=
  let b := ball (physics c) in
  if Rltb (b_x b - BALL_RADIUS) 0 || Rgtb (b_x b + BALL_RADIUS) GAME_WIDTH
  then set_ball (mkBall (b_x b) (b_y b) (- b_dx b) (b_dy b) (speed b)) c
  else c.

(** Simple tracking with a speed limit, then the clamp. *)
Definition aiMovement (c : Canvas) : Canvas :=
  let aiTarget := b_x (ball (physics c)) - PADDLE_WIDTH / 2 in
  let aiSpeed := 8 in
  let c1 := if Rltb (aiPaddleX (physics c)) aiTarget
            then set_aiPaddleX (aiPaddleX (physics c) + aiSpeed) c
            else c in
  let c2 := if Rgtb (aiPaddleX (physics c1)) aiTarget
            then set_aiPaddleX (aiPaddleX (physics c1) - aiSpeed) c1
            else c1 in
  set_aiPaddleX
    (clamp 0 (GAME_WIDTH - PADDLE_WIDTH) (aiPaddleX (physics c2))) c2.

Definition playerPaddleCollision (c : Canvas) : Canvas :=
  if inPlayerBand (ball (physics c))
     && overPaddle (ball (physics c)) (paddleX (physics c))
  then set_ball
         (paddleHit (paddleX (physics c)) (-1)
            (GAME_HEIGHT - PADDLE_HEIGHT - BALL_RADIUS - 10)
            (ball (physics c))) c
  else c.

Definition aiPaddleCollision (c : Canvas) : Canvas :=
  if inAiBand (ball (physics c))
     && overPaddle (ball (physics c)) (aiPaddleX (physics c))
  then set_ball
         (paddleHit (aiPaddleX (physics c)) 1
            (PADDLE_HEIGHT + BALL_RADIUS + 10)
            (ball (physics c))) c
  else c.

Definition scoring (i : FrameInput) (c : Canvas) : Canvas :=
  if Rgtb (b_y (ball (physics c))) GAME_HEIGHT
  then handleScoring Ai (now i) c
  else if Rltb (b_y (ball (physics c))) 0
       then handleScoring Player (now i) c
       else c.

Definition ballPhysics (i : FrameInput) (c : Canvas) : Canvas :=
  scoring i
    (aiPaddleCollision
       (playerPaddleCollision
          (aiMovement (wallCollisions (moveBall c))))).

Definition update (i : FrameInput) (c : Canvas) : Canvas :=
  match gameState c with
  | PLAYING =>
      let maxX := GAME_WIDTH - PADDLE_WIDTH in
      let targetX := paddleXProp i * GAME_WIDTH - PADDLE_WIDTH / 2 in
      let c1 := set_paddleX
                  (paddleX (physics c)
                   + (clamp 0 maxX targetX - paddleX (physics c)) * 0.3) c in
      if isServing c1 then serveLogic i c1 else ballPhysics i c1
  | _ => c
  end.

(** *** [visionService.ts]: gesture classification *)

(** Distances and the comparison with 0.9 times the hand size are those of
    the real numbers.  The source rounds every operation to a double, so on
    a frame within rounding distance of that bound it may answer otherwise
    than this definition. *)

(** [Math.hypot(a.x - b.x, a.y - b.y)] *)
Definition dist (a b : HandLandmark) : R :=
  sqrt ((l_x a - l_x b) ^ 2 + (l_y a - l_y b) ^ 2).

Definition detectGesture (landmarks : list HandLandmark)
  : option HandGesture :=
  wrist <- nth_error landmarks 0 ;;
  indexMcp <- nth_error landmarks 5 ;;
  let handSize := dist wrist indexMcp in
  let isFingerCurled (tipIdx mcpIdx : nat) : option bool :=
    tip <- nth_error landmarks tipIdx ;;
    mcp <- nth_error landmarks mcpIdx ;;
    Some (Rltb (dist tip mcp) (handSize * 0.9)) in
  isIndexCurled <- isFingerCurled 8%nat 5%nat ;;
  isMiddleCurled <- isFingerCurled 12%nat 9%nat ;;
  isRingCurled <- isFingerCurled 16%nat 13%nat ;;
  isPinkyCurled <- isFingerCurled 20%nat 17%nat ;;
  if isIndexCurled && isMiddleCurled && isRingCurled && isPinkyCurled
  then Some FIST
  else if isIndexCurled then Some INDEX_BENT
  else Some OPEN_PALM.

(** *** [App.tsx]: phases outside the canvas *)

(** What reaches the game: animation frames of the canvas, and the events
    [App] reacts to. *)
Inductive Event : Type :=
| Animate (i : FrameInput)          (* one animation frame *)
| CameraReady                       (* handleCameraReady *)
| Gesture (h : HandGesture)         (* the effect on handGesture *)
| CountdownOver                     (* the countdown effect at 0 *)
| RestartGame (now : R).            (* the Play Again button *)

Definition step (e : Event) (c : Canvas) : Canvas :=
  match e with
  | Animate i => update i c
  | CameraReady =>
      match gameState c with
      | LOADING => onGameStateChange MENU c
      | _ => c
      end
  | Gesture h =>
      match gameState c with
      | MENU =>
          match h with
          | OPEN_PALM | INDEX_BENT => onGameStateChange HAND_DETECTED c
          | _ => c
          end
      | HAND_DETECTED =>
          match h with
          | FIST => onGameStateChange COUNTDOWN c
          | _ => c
          end
      | _ => c
      end
  | CountdownOver =>
      match gameState c with
      | COUNTDOWN => onGameStateChange PLAYING c
      | _ => c
      end
  | RestartGame t =>
      (* setScores, setResetCount (which runs the reset effect), and
         setGameState(MENU) *)
      onGameStateChange MENU (resetEffect t (onScoreUpdate 0 0 c))
  end.

Definition steps (es : list Event) (c : Canvas) : Canvas :=
  fold_left (fun acc e => step e acc) es c.

(** The canvas once mounted: the reset effect has run at time [t0]. *)
Definition started (t0 : R) : Canvas := resetEffect t0 mounted.

(** Who serves each point of a match played out by direct calls of
    [handleScoring]. *)
Fixpoint servers (winners : list Side) (t : R) (c : Canvas) : list Side :=
  match winners with
  | [] => []
  | w :: rest => server c :: servers rest t (handleScoring w t c)
  end.

(** *** Notions used to state and prove the properties *)

(** The scores after the point. *)
Definition scored (winner : Side) (sc : Scores) : Scores :=
  match winner with
  | Player => mkScores (player sc + 1) (ai sc)
  | Ai => mkScores (player sc) (ai sc + 1)
  end.

(** The check of [checkWinCondition] on given scores. *)
Definition wins (sc : Scores) : bool :=
  ((player sc >=? WINNING_SCORE) || (ai sc >=? WINNING_SCORE))%Z
  && (Z.abs (player sc - ai sc) >=? 2)%Z.

(** The deuce check of [handleScoring] on given scores. *)
Definition isDeuce (sc : Scores) : bool :=
  ((player sc >=? 10) && (ai sc >=? 10))%Z.

(** The fields of the match. *)
Definition Match : Type := (GameState * Scores * Side * Z)%type.

Definition matchOf (c : Canvas) : Match :=
  (gameState c, scores c, server c, servesCount c).

(** [handleScoring] as a function on the fields of the match. *)
Definition pointMatch (w : Side) (m : Match) : Match :=
  let '(g, sc0, sv, n) := m in
  let sc := scored w sc0 in
  if wins sc then (GAME_OVER, sc, sv, n)
  else if (n + 1 >=? (if isDeuce sc then 1 else 2))%Z
       then (g, sc, otherSide sv, 0%Z)
       else (g, sc, sv, (n + 1)%Z).

(** [f] writes nothing but the ball. *)
Definition onlyBall (f : Canvas -> Canvas) : Prop :=
  forall c, exists b, f c = set_ball b c.

(** The fields other than the ball and the opponent's paddle. *)
Definition restOf (c : Canvas)
  : R * Scores * Side * Z * bool * R * GameState * Scores * bool :=
  (paddleX (physics c), scores c, server c, servesCount c, isServing c,
   serveTimer c, gameState c, appScores c, isPlayerTurn c).

(** The canvas at the scoring check of a tick in active play. *)
Definition beforeScoring (c : Canvas) : Canvas :=
  aiPaddleCollision
    (playerPaddleCollision (aiMovement (wallCollisions (moveBall c)))).

(** Scores are not negative, the counter is 0 or 1, and the match is over
    only at a winning score. *)
Definition MatchInv (m : Match) : Prop :=
  let '(g, sc, sv, n) := m in
  (0 <= player sc)%Z /\ (0 <= ai sc)%Z /\ (0 <= n <= 1)%Z
  /\ (g = GAME_OVER -> winBy2 WINNING_SCORE (player sc) (ai sc)).

(** The paddles lie inside the field; while the opponent prepares a serve
    the ball rests at the middle of the field. *)
Definition BoundsInv (c : Canvas) : Prop :=
  0 <= paddleX (physics c) <= GAME_WIDTH - PADDLE_WIDTH
  /\ 0 <= aiPaddleX (physics c) <= GAME_WIDTH - PADDLE_WIDTH
  /\ (isServing c = true -> server c = Ai ->
      b_x (ball (physics c)) = GAME_WIDTH / 2).

(** The canvas at the start of the physics of a tick: the player's paddle
    has moved toward the clamped target. *)
Definition paddleMoved (i : FrameInput) (c : Canvas) : Canvas :=
  set_paddleX
    (paddleX (physics c)
     + (clamp 0 (GAME_WIDTH - PADDLE_WIDTH)
          (paddleXProp i * GAME_WIDTH - PADDLE_WIDTH / 2)
        - paddleX (physics c)) * 0.3) c.

(** The phases before a match is in play. *)
Definition preMatch (g : GameState) : bool :=
  match g with
  | LOADING | MENU | HAND_DETECTED | COUNTDOWN => true
  | PLAYING | GAME_OVER => false
  end.

(** Before a match is in play the score is 0-0, the counter 0 and the
    player the server. *)
Definition FreshInv (c : Canvas) : Prop :=
  preMatch (gameState c) = true ->
  scores c = mkScores 0 0 /\ servesCount c = 0%Z /\ server c = Player.

End PongMotion.

(** ** Sample inputs and notions of the statements *)

Module FP := ForestPong.
Module PM := PongMotion.

(** Forest Pong in a given phase, at a given score, server and serve
    count: hand detected, paddles centred, ball set up for the server. *)
Definition fpSample (g : FP.GameState) (p a : Z) (t : FP.ServeTurn) (n : Z)
  : FP.Engine :=
  FP.mkEngine 640 640 (FP.resetBall t 0.5) 0 g (FP.mkScores p a) t n
    true 0%Z [].

(** Every [Math.random()] of the tick returns 0.5. *)
Definition fpNoDraw : FP.Draws := FP.mkDraws 0.5 0.5 0.5 0.5.

(** Pong Motion in a given phase, at a given score, server and serve
    count, with the ball in play. *)
Definition pmSample (g : PM.GameState) (p a : Z) (sv : PM.Side) (n : Z)
  : PM.Canvas :=
  PM.mkCanvas
    (PM.mkPhysics 340 340 (PM.mkBall 400 600 0 12 12))
    (PM.mkScores p a) sv n false 0 g (PM.mkScores p a)
    (PM.Side_eqb sv PM.Player).

(** The engine after a sequence of points, by direct calls of
    [scorePoint]. *)
Definition fpPlay (winners : list FP.ServeTurn) (d : FP.Draws)
  (s : FP.Engine) : FP.Engine :=
  fold_left (fun acc w => FP.scorePoint w d acc) winners s.

(** The events that take Pong Motion from the mounted page into play. *)
Definition pmIntoPlay : list PM.Event :=
  [PM.CameraReady; PM.Gesture PM.OPEN_PALM; PM.Gesture PM.FIST;
   PM.CountdownOver].

(** Nineteen points from a new match: 9-9, then the player leads 10-9. *)
Definition toTenNine : list FP.ServeTurn :=
  [FP.PLAYER; FP.AI; FP.PLAYER; FP.AI; FP.PLAYER; FP.AI; FP.PLAYER; FP.AI;
   FP.PLAYER; FP.AI; FP.PLAYER; FP.AI; FP.PLAYER; FP.AI; FP.PLAYER; FP.AI;
   FP.PLAYER; FP.AI; FP.PLAYER].

(** A hand frame: every landmark at the wrist, a closed hand. *)
Definition closedHand : list FP.Point := repeat (FP.mkPoint 0.5 0.5) 21.

(** The tick received no hand frame. *)
Definition isAbsent (f : FP.Frame) : bool :=
  match fst f with None => true | Some _ => false end.

(** The absent frames at the head of a list, and the number of consecutive
    absent frames that end a sequence of frames. *)
Fixpoint leadingAbsent (frames : list FP.Frame) : nat :=
  match frames with
  | f :: rest => if isAbsent f then S (leadingAbsent rest) else 0
  | [] => 0
  end.

Definition trailingAbsent (frames : list FP.Frame) : nat :=
  leadingAbsent (rev frames).

(** A hand far outside the camera frame: every landmark at x = -3. *)
Definition farHand : list FP.Point := repeat (FP.mkPoint (-3) 0.5) 21.




(** Finger [tip]-[mcp] is curled: the tip is closer to its knuckle than 0.9
    times the distance from the wrist to the index knuckle. *)
Definition fingerCurled (l : list PM.HandLandmark) (tip mcp : nat) : Prop :=
  let o := PM.mkLandmark 0 0 0 in
  PM.dist (nth tip l o) (nth mcp l o)
  < PM.dist (nth 0 l o) (nth 5 l o) * 0.9.

(** Pong Motion in play with the ball at full speed, one tick above the
    player's paddle, which is centred under it. *)
Definition capCanvas : PM.Canvas :=
  PM.mkCanvas
    (PM.mkPhysics 340 340 (PM.mkBall 400 1140 0 25 25))
    (PM.mkScores 0 0) PM.Player 0%Z false 0 PM.PLAYING (PM.mkScores 0 0) true.

(** An animation frame with the hand in the middle of the camera view. *)
Definition capInput : PM.FrameInput := PM.mkInput PM.OPEN_PALM 0.5 2000 0.5.

(** A rally in Forest Pong as far as the vertical velocity goes: one
    [bounce] per hit, each with its paddle position and unstick height. *)
Definition rally (hits : list (R * R)) (b : FP.Ball) : FP.Ball :=
  fold_left (fun acc h => FP.bounce acc (fst h) (snd h)) hits b.

(** The number of paddle hits in a tick of active play that starts step 3
    in [s]. *)
Definition hitsInTick (s : FP.Engine) : nat :=
  let s1 := FP.set_ball (FP.sideWalls (FP.moveBall (FP.ball s))) s in
  ((if FP.hitsAIPaddle (FP.ball s1) (FP.paddleAIX s1) then 1 else 0)
   + (if FP.hitsPlayerPaddle (FP.ball (FP.atPlayerCheck s))
           (FP.paddlePlayerX (FP.atPlayerCheck s)) then 1 else 0))%nat.

(** Forest Pong with the opponent about to serve. *)
Definition aiServing : FP.Engine := fpSample FP.SERVING 2 0 FP.AI 0.

(** ** Further notions: hand, paddles and ball of Forest Pong *)

(** [Math.random()] returns a number from 0 up to, not including, 1. *)
Definition drawsInRange (d : FP.Draws) : Prop :=
  0 <= FP.rLaunch d < 1 /\ 0 <= FP.rServeErr d < 1
  /\ 0 <= FP.rHitErr d < 1 /\ 0 <= FP.rAutoServe d < 1.

(** Every tick of the sequence draws its random numbers from [0, 1). *)
Definition framesInRange (frames : list FP.Frame) : Prop :=
  Forall (fun f => drawsInRange (snd f)) frames.

(** The tick has a hand frame whose index fingertip is at raw x-coordinate
    [x]. *)
Definition tipAt (x : R) (f : FP.Frame) : Prop :=
  exists l tip, fst f = Some l /\ nth_error l 8 = Some tip /\ FP.p_x tip = x.

(** The paddle coordinate a raw fingertip coordinate points at: mirrored,
    then scaled to the canvas. *)
Definition paddleTarget (x : R) : R := (1 - x) * FP.CANVAS_WIDTH.

(** An open hand held to one side: the fingertip at a quarter of the
    camera image. *)
Definition sideHand : list FP.Point := repeat (FP.mkPoint 0.25 0.5) 21.

(** The vertical direction of a serve: up (negative) for the player at the
    bottom, down for the opponent at the top. *)
Definition serveDirection (t : FP.ServeTurn) : R :=
  match t with FP.PLAYER => -1 | FP.AI => 1 end.

(** Where the ball waits for the serve: at the height [resetBall] puts it,
    or at the height step 3 of [update] sticks it to the server's paddle. *)
Definition atServeHeight (t : FP.ServeTurn) (y : R) : Prop :=
  match t with
  | FP.PLAYER =>
      FP.CANVAS_HEIGHT - FP.WALL_OFFSET - FP.PADDLE_HEIGHT - FP.BALL_RADIUS
        - 10 <= y
      <= FP.CANVAS_HEIGHT - FP.WALL_OFFSET - FP.PADDLE_HEIGHT
           - FP.BALL_RADIUS - 5
  | FP.AI =>
      FP.WALL_OFFSET + FP.PADDLE_HEIGHT + FP.BALL_RADIUS + 5 <= y
      <= FP.WALL_OFFSET + FP.PADDLE_HEIGHT + FP.BALL_RADIUS + 10
  end.

(** What every reachable ball satisfies: the launch data fit the server,
    the ball rests near the server's paddle while a serve is prepared, and
    in play it is inside the canvas vertically, keeps at least the launch
    speed vertically and a bounded speed horizontally. *)
Definition BallInv (s : FP.Engine) : Prop :=
  FP.baseSpeed (FP.ball s) = 7
  /\ FP.launchDirY (FP.ball s) = serveDirection (FP.serveTurnRef s)
  /\ Rabs (FP.launchDx (FP.ball s)) <= 3
  /\ Rabs (FP.b_dx (FP.ball s)) <= 35 / 3
  /\ (FP.gameStateRef s = FP.SERVING ->
      FP.b_dx (FP.ball s) = 0 /\ FP.b_dy (FP.ball s) = 0
      /\ atServeHeight (FP.serveTurnRef s) (FP.b_y (FP.ball s)))
  /\ (FP.gameStateRef s = FP.PLAYING ->
      7 <= Rabs (FP.b_dy (FP.ball s))
      /\ 0 <= FP.b_y (FP.ball s) <= FP.CANVAS_HEIGHT).

(** The scores after a tick of active play, read off the place the ball
    moves to. *)
Definition scoresAfterMove (s : FP.Engine) : FP.Scores :=
  let y := FP.b_y (FP.ball s) + FP.b_dy (FP.ball s) in
  if Rltb y 0 then FP.scored FP.PLAYER (FP.scoresRef s)
  else if Rgtb y FP.CANVAS_HEIGHT then FP.scored FP.AI (FP.scoresRef s)
  else FP.scoresRef s.

(** Forest Pong in active play at 0-0: the opponent's paddle at [pa], the
    ball at ([x], [y]) with velocity ([dx], [dy]). *)
Definition fpInPlay (pa x y dx dy : R) : FP.Engine :=
  FP.mkEngine 640 pa (FP.mkBall x y dx dy 7 (-1) 0) 0 FP.PLAYING
    (FP.mkScores 0 0) FP.PLAYER 0%Z true 0%Z [].

(** What launches the serve of a tick: for the player the bent index finger
    of the tick's hand frame, for the opponent a draw below 0.02. *)
Definition serveRequested (lm : option (list FP.Point)) (d : FP.Draws)
  (t : FP.ServeTurn) : Prop :=
  match t with
  | FP.PLAYER => exists l, lm = Some l /\ FP.isIndexBent l = Some true
  | FP.AI => FP.rAutoServe d < 0.02
  end.

(** The ball rests on the server's paddle. *)
Definition pinned (s : FP.Engine) : Prop :=
  FP.b_dx (FP.ball s) = 0 /\ FP.b_dy (FP.ball s) = 0
  /\ match FP.serveTurnRef s with
     | FP.PLAYER =>
         FP.b_x (FP.ball s) = FP.paddlePlayerX s
         /\ FP.b_y (FP.ball s)
            = FP.CANVAS_HEIGHT - FP.WALL_OFFSET - FP.PADDLE_HEIGHT
              - FP.BALL_RADIUS - 5
     | FP.AI =>
         FP.b_x (FP.ball s) = FP.paddleAIX s
         /\ FP.b_y (FP.ball s)
            = FP.WALL_OFFSET + FP.PADDLE_HEIGHT + FP.BALL_RADIUS + 5
     end.

(** The states the loop reaches from the loaded page, with draws from
    [0, 1). *)
Definition reachable (s : FP.Engine) : Prop :=
  exists r frames,
    0 <= r < 1 /\ framesInRange frames
    /\ FP.run frames (FP.onloadeddata (FP.initial r)) = Some s.

(** The tick does not launch the player's serve. *)
Definition noPlayerServe (f : FP.Frame) : Prop :=
  ~ serveRequested (fst f) (snd f) FP.PLAYER.

(** ** Forest Pong: [visionService.ts] and [gameLoop] *)

Module Vision.

(** [HandLandmarkerResult], as far as the loop reads it: the landmarks of
    each detected hand. *)
Record HandLandmarkerResult : Type := mkResult {
  landmarks : list (list FP.Point)
}.

(** The fields of [VisionService] that [detect] reads and writes;
    [handLandmarker] tells whether the detector is loaded. *)
Record VisionService : Type := mkVision {
  handLandmarker : bool;
  lastVideoTime : R
}.

(** [new VisionService()] *)
Definition created : VisionService := mkVision false (-1).

(** What a call of [detect] reads from the video element: its
    [currentTime], and what [detectForVideo] returns for its current
    picture. *)
Record Video : Type := mkVideo {
  currentTime : R;
  detection : HandLandmarkerResult
}.

Definition detect (video : Video) (v : VisionService)
  : option HandLandmarkerResult * VisionService :=
  if negb (handLandmarker v) then (None, v)
  else
    match Req_dec_T (currentTime video) (lastVideoTime v) with
    | right _ =>
        (Some (detection video),
         mkVision (handLandmarker v) (currentTime video))
    | left _ => (None, v)
    end.

(** One run of [gameLoop]: the vision update, then [update].  [video] is
    [videoRef.current]; drawing is left out. *)
Definition gameLoop (video : option Video) (d : FP.Draws)
  (st : VisionService * FP.Engine) : option (VisionService * FP.Engine) :=
  let '(v, s) := st in
  let '(lm, v') :=
    match video with
    | Some vid =>
        let '(result, v1) := detect vid v in
        (match result with
         | Some res =>
             match landmarks res with
             | hand :: _ => Some hand
             | [] => None
             end
         | None => None
         end, v1)
    | None => (None, v)
    end in
  s' <- FP.update lm d s ;;
  Some (v', s').

(** [gameLoop] rescheduled by [requestAnimationFrame], once per element. *)
Fixpoint loops (ticks : list (option Video * FP.Draws))
  (st : VisionService * FP.Engine) : option (VisionService * FP.Engine) :=
  match ticks with
  | [] => Some st
  | (video, d) :: rest =>
      st' <- gameLoop video d st ;;
      loops rest st'
  end.

End Vision.

(** Animation frames during which the video shows one and the same
    picture. *)
Definition stalled (vid : Vision.Video) (ds : list FP.Draws)
  : list (option Vision.Video * FP.Draws) :=
  map (fun d => (Some vid, d)) ds.

(** Ticks without a hand frame. *)
Definition absentFrames (ds : list FP.Draws) : list FP.Frame :=
  map (fun d => (None, d)) ds.

(** ** Pong Motion: [analyzeHand], and notions for further properties *)

(** [analyzeHand]: the arguments it passes to [onResults], the mirrored
    x-coordinate of the index fingertip and the gesture. *)
Definition analyzeHand (landmarks : list PM.HandLandmark)
  : option (R * PM.HandGesture) :=
  indexTip <- nth_error landmarks 8 ;;
  let paddleX := 1 - PM.l_x indexTip in
  gesture <- PM.detectGesture landmarks ;;
  Some (paddleX, gesture).

(** The landmarks the gesture is computed from: the wrist, the knuckles
    of the four fingers and their tips. *)
Definition gestureLandmarks : list nat :=
  [0; 5; 8; 9; 12; 13; 16; 17; 20]%nat.

(** Two hand frames agree on landmark [i] in the image plane: both lack it,
    or both have it with the same x and the same y. *)
Definition agreeAt (l l' : list PM.HandLandmark) (i : nat) : Prop :=
  match nth_error l i, nth_error l' i with
  | Some p, Some q => PM.l_x p = PM.l_x q /\ PM.l_y p = PM.l_y q
  | None, None => True
  | _, _ => False
  end.

(** A hand with every landmark in one place. *)
Definition pointHand : list PM.HandLandmark :=
  repeat (PM.mkLandmark 0.5 0.5 0) 21.

(** The same hand with the thumb stretched out, the joints between
    knuckles and tips moved, and another depth everywhere. *)
Definition thumbOut : list PM.HandLandmark :=
  let at_ (x y : R) := PM.mkLandmark x y 3 in
  [at_ 0.5 0.5;
   at_ 0.25 0.75; at_ 0.125 0.75; at_ 0.125 0.875; at_ 0 1;
   at_ 0.5 0.5; at_ 0.5 0.25; at_ 0.5 0.125; at_ 0.5 0.5;
   at_ 0.5 0.5; at_ 0.625 0.25; at_ 0.625 0.125; at_ 0.5 0.5;
   at_ 0.5 0.5; at_ 0.75 0.25; at_ 0.75 0.125; at_ 0.5 0.5;
   at_ 0.5 0.5; at_ 0.875 0.25; at_ 0.875 0.125; at_ 0.5 0.5].

(** The left edge the player's paddle is steered to: the clamped target of
    [update]. *)
Definition paddleGoal (x : R) : R :=
  clamp 0 (PM.GAME_WIDTH - PM.PADDLE_WIDTH)
    (x * PM.GAME_WIDTH - PM.PADDLE_WIDTH / 2).

(** What every reachable ball of the canvas satisfies: its speed is between
    0 and the cap, and it bounds the vertical velocity. *)
Definition SpeedInv (c : PM.Canvas) : Prop :=
  0 <= PM.speed (PM.ball (PM.physics c)) <= 25
  /\ Rabs (PM.b_dy (PM.ball (PM.physics c)))
     <= PM.speed (PM.ball (PM.physics c)).

(** The phases before the countdown, and the phases before play. *)
Definition beforeCountdown (g : PM.GameState) : bool :=
  match g with
  | PM.LOADING | PM.MENU | PM.HAND_DETECTED => true
  | _ => false
  end.

(** Pong Motion in play with the ball on the player's paddle, which is
    centred under it. *)
Definition hitCanvas : PM.Canvas :=
  PM.mkCanvas
    (PM.mkPhysics 340 340 (PM.mkBall 400 1165 0 12 12))
    (PM.mkScores 0 0) PM.Player 0%Z false 0 PM.PLAYING (PM.mkScores 0 0) true.

(** *** Pong Motion: [processVideo] and the hand state of [App] *)

Module PongVision.

(** The fields of [VisionService] that [processVideo] reads and writes;
    [video] and [handLandmarker] tell whether the field is set. *)
Record VisionService : Type := mkVision {
  video : bool;
  handLandmarker : bool;
  lastVideoTime : R
}.

(** The state of [App] that the vision callback writes. *)
Record HandState : Type := mkHand {
  paddleX : R;
  handGesture : PM.HandGesture
}.

(** [useState(0.5)] and [useState(HandGesture.UNKNOWN)] *)
Definition noHand : HandState := mkHand 0.5 PM.UNKNOWN.

(** What a run of [processVideo] reads from the video: its [currentTime],
    and the [landmarks] of what [detectForVideo] returns for the current
    picture. *)
Record Picture : Type := mkPicture {
  currentTime : R;
  landmarks : list (list PM.HandLandmark)
}.

(** [handleHandUpdate], the [onResults] callback. *)
Definition handleHandUpdate (x : R) (gesture : PM.HandGesture)
  (a : HandState) : HandState :=
  mkHand x gesture.

(** One run of [processVideo]; drawing is left out. *)
Definition processVideo (pic : Picture) (st : VisionService * HandState)
  : option (VisionService * HandState) :=
  let '(v, a) := st in
  if negb (video v) || negb (handLandmarker v) then Some st
  else
    match Req_dec_T (currentTime pic) (lastVideoTime v) with
    | right _ =>
        let v' := mkVision (video v) (handLandmarker v) (currentTime pic) in
        match landmarks pic with
        | hand :: _ =>
            r <- analyzeHand hand ;;
            Some (v', handleHandUpdate (fst r) (snd r) a)
        | [] => Some (v', a)
        end
    | left _ => Some st
    end.

(** [processVideo] rescheduled by [requestAnimationFrame], once per
    picture. *)
Fixpoint runs (pics : list Picture) (st : VisionService * HandState)
  : option (VisionService * HandState) :=
  match pics with
  | [] => Some st
  | pic :: rest =>
      st' <- processVideo pic st ;;
      runs rest st'
  end.

End PongVision.

(** The picture shows no hand. *)
Definition handless (pic : PongVision.Picture) : Prop :=
  PongVision.landmarks pic = [].

(** ** Facts about the helpers *)

Lemma Rltb_true_iff (a b : R) : Rltb a b = true <-> a < b.
Proof.
  unfold Rltb. destruct (Rlt_dec a b); split; intros; try easy.
Qed.

Lemma Rltb_false_iff (a b : R) : Rltb a b = false <-> ~ a < b.
Proof.
  unfold Rltb. destruct (Rlt_dec a b); split; intros; try easy.
Qed.

Lemma Rgtb_true_iff (a b : R) : Rgtb a b = true <-> a > b.
Proof. unfold Rgtb. apply Rltb_true_iff. Qed.

Lemma Rgtb_false_iff (a b : R) : Rgtb a b = false <-> ~ a > b.
Proof. unfold Rgtb. apply Rltb_false_iff. Qed.

Lemma clamp_bounds (lo hi v : R) :
  lo <= hi -> lo <= clamp lo hi v <= hi.
Proof.
  intros Hle. unfold clamp, Rmax, Rmin.
  destruct (Rle_dec hi v); destruct (Rle_dec lo _); lra.
Qed.

Lemma clamp_id (lo hi v : R) : lo <= v <= hi -> clamp lo hi v = v.
Proof.
  intros Hv. unfold clamp, Rmax, Rmin.
  destruct (Rle_dec hi v); destruct (Rle_dec lo _); lra.
Qed.

Lemma bind_Some {A B : Type} (m : option A) (f : A -> option B) (b : B) :
  bind m f = Some b -> exists a, m = Some a /\ f a = Some b.
Proof.
  destruct m as [a|]; simpl; intros H; [exists a; auto | discriminate].
Qed.

(** ** Proof tools *)

Ltac solve_extends :=
  first [ exists []; reflexivity
        | eexists [_]; reflexivity
        | eexists [_; _]; reflexivity
        | eexists [_; _; _]; reflexivity
        | eexists [_; _; _; _]; reflexivity
        | eexists [_; _; _; _; _]; reflexivity ].

Ltac solve_emitted :=
  first [ eexists [_]; split; [reflexivity | cbn; tauto]
        | eexists [_; _]; split; [reflexivity | cbn; tauto]
        | eexists [_; _; _]; split; [reflexivity | cbn; tauto]
        | eexists [_; _; _; _]; split; [reflexivity | cbn; tauto]
        | eexists [_; _; _; _; _]; split; [reflexivity | cbn; tauto] ].

(** Reduce the projections and setters of the canvas, nothing else. *)
Ltac pm_fields :=
  cbv [PM.physics PM.scores PM.server PM.servesCount PM.isServing
       PM.serveTimer PM.gameState PM.appScores PM.isPlayerTurn
       PM.paddleX PM.aiPaddleX PM.ball PM.b_x PM.b_y PM.b_dx PM.b_dy PM.speed
       PM.set_physics PM.set_ball PM.set_paddleX PM.set_aiPaddleX
       PM.set_scores PM.set_server PM.set_servesCount PM.set_isServing
       PM.set_serveTimer PM.onGameStateChange PM.onScoreUpdate
       PM.onServeChange PM.with_x_y PM.gesture PM.paddleXProp PM.now
       PM.rLaunch andb orb negb].

(** Settle the comparisons of closed numbers in the goal. *)
Ltac Rtests :=
  repeat match goal with
         | |- context [Rltb ?a ?b] =>
             first [ rewrite (proj2 (Rltb_true_iff a b)) by lra
                   | rewrite (proj2 (Rltb_false_iff a b)) by lra ]
         | |- context [Rgtb ?a ?b] =>
             first [ rewrite (proj2 (Rgtb_true_iff a b)) by lra
                   | rewrite (proj2 (Rgtb_false_iff a b)) by lra ]
         end.

(** ** Forest Pong: the match state machine *)

Module ForestPongFacts.
Import ForestPong.

Lemma wins_iff (sc : Scores) :
  wins sc = true <-> winBy2 WINNING_SCORE (player sc) (ai sc).
Proof.
  unfold wins, winBy2.
  rewrite andb_true_iff, orb_true_iff, !Z.geb_le. lia.
Qed.

Lemma isDeuce_iff (sc : Scores) :
  isDeuce sc = true <-> deuce (player sc) (ai sc).
Proof.
  unfold isDeuce, deuce. rewrite andb_true_iff, !Z.geb_le. lia.
Qed.

(** [scorePoint], on the fields of the match. *)
Lemma scorePoint_match (w : ServeTurn) (d : Draws) (s : Engine) :
  matchOf (scorePoint w d s) =
    let sc := scored w (scoresRef s) in
    if wins sc then (GAME_OVER, sc, serveTurnRef s, servesCountRef s)
    else if isDeuce sc
         then (SERVING, sc, otherTurn (serveTurnRef s),
               (servesCountRef s + 1)%Z)
         else if (servesCountRef s + 1 >=? 2)%Z
              then (SERVING, sc, otherTurn (serveTurnRef s), 0%Z)
              else (SERVING, sc, serveTurnRef s, (servesCountRef s + 1)%Z).
Proof.
  unfold scorePoint, wins, isDeuce, scored, matchOf.
  destruct w; cbn -[Z.geb Z.abs Z.add Z.sub WINNING_SCORE];
    repeat match goal with
           | |- context [if ?c then _ else _] => destruct c eqn:?
           end;
    cbn -[Z.geb Z.abs Z.add Z.sub WINNING_SCORE] in *;
    try reflexivity; try congruence.
Qed.

Lemma startGame_match (d : Draws) (s : Engine) :
  matchOf (startGame d s) = (SERVING, mkScores 0 0, PLAYER, 0%Z).
Proof. reflexivity. Qed.

Lemma triggerServe_match (s : Engine) :
  matchOf (triggerServe s) =
    (match gameStateRef s with SERVING => PLAYING | g => g end,
     scoresRef s, serveTurnRef s, servesCountRef s).
Proof.
  unfold triggerServe, matchOf.
  destruct (gameStateRef s) eqn:E; cbn; rewrite ?E; reflexivity.
Qed.

(** *** The moves of the match, and the ticks as sequences of moves *)

Lemma moves_refl (m m' : Match) : m = m' -> MatchMoves m m'.
Proof. intros ->. apply rt_refl. Qed.

Lemma moves_step (m m' : Match) : MatchMove m m' -> MatchMoves m m'.
Proof. apply rt_step. Qed.

Lemma moves_trans (m1 m2 m3 : Match) :
  MatchMoves m1 m2 -> MatchMoves m2 m3 -> MatchMoves m1 m3.
Proof. apply rt_trans. Qed.

Lemma scorePoint_pointMatch (w : ServeTurn) (d : Draws) (s : Engine) :
  matchOf (scorePoint w d s) = pointMatch w (matchOf s).
Proof. rewrite scorePoint_match. reflexivity. Qed.

Lemma updatePlayerPaddle_match (l : list Point) (s s' : Engine) :
  updatePlayerPaddle l s = Some s' -> matchOf s' = matchOf s.
Proof.
  unfold updatePlayerPaddle. intros H.
  apply bind_Some in H. destruct H as (tip & _ & H).
  injection H as <-. reflexivity.
Qed.

Lemma triggerServe_moves (s : Engine) :
  MatchMoves (matchOf s) (matchOf (triggerServe s)).
Proof.
  rewrite triggerServe_match. unfold matchOf.
  destruct (gameStateRef s); try (apply rt_refl).
  apply moves_step, MoveLaunch.
Qed.

Lemma processInput_moves (lm : option (list Point)) (d : Draws)
  (s s' : Engine) :
  processInput lm d s = Some s' -> MatchMoves (matchOf s) (matchOf s').
Proof.
  unfold processInput, handSeen, handMissing, gestures.
  destruct lm as [l|].
  - set (s1 := set_missingHandFramesRef 0%Z s).
    set (s2 := if negb (handDetectedRef s1) then _ else s1).
    intros H. apply bind_Some in H. destruct H as (s3 & Hp & H).
    assert (H12 : MatchMoves (matchOf s) (matchOf s2)).
    { subst s2. destruct (negb (handDetectedRef s1)); [|apply rt_refl].
      cbn. destruct (gameStateRef s) eqn:E;
        try (apply moves_refl; unfold matchOf; cbn; rewrite ?E; reflexivity).
      apply moves_step. unfold matchOf; cbn. rewrite E. apply MoveMenu. }
    apply updatePlayerPaddle_match in Hp.
    apply moves_trans with (matchOf s2); [exact H12|]. rewrite <- Hp.
    destruct (gameStateRef s3) eqn:E;
      try (injection H as <-; apply rt_refl).
    + apply bind_Some in H. destruct H as (fist & _ & H).
      injection H as <-. destruct fist; [|apply rt_refl].
      rewrite startGame_match. apply moves_step.
      unfold matchOf. rewrite E. apply MoveStart. auto.
    + destruct (serveTurnRef s3); [|injection H as <-; apply rt_refl].
      apply bind_Some in H. destruct H as (bent & _ & H).
      injection H as <-. destruct bent; [|apply rt_refl].
      apply triggerServe_moves.
    + apply bind_Some in H. destruct H as (fist & _ & H).
      injection H as <-. destruct fist; [|apply rt_refl].
      rewrite startGame_match. apply moves_step.
      unfold matchOf. rewrite E. apply MoveStart. auto.
  - intros H. injection H as <-. apply moves_refl.
    cbn. destruct (_ >? 30)%Z; [destruct (handDetectedRef s)|]; reflexivity.
Qed.

Lemma aiLogic_match (s : Engine) : matchOf (aiLogic s) = matchOf s.
Proof. unfold aiLogic. destruct (gameStateRef s); reflexivity. Qed.

Lemma aiPaddleCollision_match (s : Engine) :
  matchOf (aiPaddleCollision s) = matchOf s.
Proof. unfold aiPaddleCollision. destruct (hitsAIPaddle _ _); reflexivity. Qed.

Lemma playerPaddleCollision_match (d : Draws) (s : Engine) :
  matchOf (playerPaddleCollision d s) = matchOf s.
Proof.
  unfold playerPaddleCollision. destruct (hitsPlayerPaddle _ _); reflexivity.
Qed.

Lemma scoring_moves (d : Draws) (s : Engine) :
  gameStateRef s = PLAYING ->
  MatchMoves (matchOf s) (matchOf (scoring d s)).
Proof.
  intros Hp. unfold scoring.
  assert (Hpt : forall w, MatchMoves (matchOf s) (matchOf (scorePoint w d s))).
  { intros w. rewrite scorePoint_pointMatch. unfold matchOf. rewrite Hp.
    apply moves_step, MovePoint. }
  destruct (Rltb _ 0); [apply Hpt|].
  destruct (Rgtb _ _); [apply Hpt | apply rt_refl].
Qed.

Lemma ballPhysics_moves (d : Draws) (s : Engine) :
  MatchMoves (matchOf s) (matchOf (ballPhysics d s)).
Proof.
  unfold ballPhysics. destruct (gameStateRef s) eqn:E; try apply rt_refl.
  - destruct (serveTurnRef s); [apply rt_refl|].
    destruct (Rltb _ _); [|apply rt_refl].
    apply (triggerServe_moves (stickBall _ _ s)).
  - set (s1 := set_ball _ s).
    apply moves_trans with
      (matchOf (playerPaddleCollision d (aiPaddleCollision s1))).
    + apply moves_refl.
      rewrite playerPaddleCollision_match, aiPaddleCollision_match.
      reflexivity.
    + apply scoring_moves.
      change (fst (fst (fst (matchOf
                (playerPaddleCollision d (aiPaddleCollision s1))))) = PLAYING).
      rewrite playerPaddleCollision_match, aiPaddleCollision_match.
      exact E.
Qed.

(** Every tick is a sequence of moves of the match. *)
Lemma update_moves (lm : option (list Point)) (d : Draws) (s s' : Engine) :
  update lm d s = Some s' -> MatchMoves (matchOf s) (matchOf s').
Proof.
  unfold update. intros H. apply bind_Some in H.
  destruct H as (s1 & H1 & H). injection H as <-.
  apply moves_trans with (matchOf s1); [eapply processInput_moves; eauto|].
  rewrite <- (aiLogic_match s1). apply ballPhysics_moves.
Qed.

Lemma run_moves (frames : list Frame) (s s' : Engine) :
  run frames s = Some s' -> MatchMoves (matchOf s) (matchOf s').
Proof.
  revert s. induction frames as [|[lm d] rest IH]; intros s H.
  - injection H as <-. apply rt_refl.
  - cbn in H. apply bind_Some in H. destruct H as (s1 & H1 & H).
    apply moves_trans with (matchOf s1);
      [eapply update_moves; eauto | apply IH; exact H].
Qed.

(** An invariant of the moves holds along every sequence of moves. *)
Lemma moves_invariant (P : Match -> Prop) :
  (forall m m', MatchMove m m' -> P m -> P m') ->
  forall m m', MatchMoves m m' -> P m -> P m'.
Proof.
  intros Hstep m m' H. induction H; eauto.
Qed.

(** *** What one tick does to the match, exactly *)

Lemma processInput_match (lm : option (list Point)) (d : Draws)
  (s s' : Engine) :
  processInput lm d s = Some s' ->
  matchOf s' = inputMatch lm (handDetectedRef s) (matchOf s).
Proof.
  unfold processInput, handSeen, handMissing, gestures, inputMatch.
  destruct lm as [l|].
  - set (s1 := set_missingHandFramesRef 0%Z s).
    set (s2 := if negb (handDetectedRef s1) then _ else s1).
    intros H. apply bind_Some in H. destruct H as (s3 & Hp & H).
    apply updatePlayerPaddle_match in Hp.
    assert (H2 : matchOf s2 =
              ((if negb (handDetectedRef s)
                then match gameStateRef s with
                     | WAITING_FOR_HAND => MENU
                     | _ => gameStateRef s
                     end
                else gameStateRef s),
               scoresRef s, serveTurnRef s, servesCountRef s)).
    { subst s2 s1. cbn. destruct (handDetectedRef s); cbn; [reflexivity|].
      destruct (gameStateRef s) eqn:E; unfold matchOf; cbn; rewrite ?E;
        reflexivity. }
    rewrite H2 in Hp. unfold matchOf at 2.
    set (g1 := if negb (handDetectedRef s) then _ else _) in *.
    assert (Hg : gameStateRef s3 = g1) by (unfold matchOf in Hp; congruence).
    assert (Ht : serveTurnRef s3 = serveTurnRef s)
      by (unfold matchOf in Hp; congruence).
    rewrite Hg in H. destruct g1 eqn:E1;
      try (injection H as <-; exact Hp).
    + apply bind_Some in H. destruct H as (fist & -> & H).
      injection H as <-. destruct fist; [reflexivity | exact Hp].
    + rewrite Ht in H. destruct (serveTurnRef s);
        [|injection H as <-; exact Hp].
      apply bind_Some in H. destruct H as (bent & -> & H).
      injection H as <-. destruct bent; [|exact Hp].
      rewrite triggerServe_match.
      unfold matchOf in Hp. injection Hp as -> -> -> ->. reflexivity.
    + apply bind_Some in H. destruct H as (fist & -> & H).
      injection H as <-. destruct fist; [reflexivity | exact Hp].
  - intros H. injection H as <-.
    cbn. destruct (_ >? 30)%Z; [destruct (handDetectedRef s)|]; reflexivity.
Qed.

(** Step 3 of [update] outside active play. *)
Lemma ballPhysics_match_idle (d : Draws) (s : Engine) :
  gameStateRef s <> PLAYING ->
  matchOf (ballPhysics d s) =
    match gameStateRef s, serveTurnRef s with
    | SERVING, AI =>
        if Rltb (rAutoServe d) 0.02
        then (PLAYING, scoresRef s, serveTurnRef s, servesCountRef s)
        else matchOf s
    | _, _ => matchOf s
    end.
Proof.
  intros Hn. unfold ballPhysics.
  destruct (gameStateRef s) eqn:E; try reflexivity; try congruence.
  destruct (serveTurnRef s) eqn:Et; [reflexivity|].
  destruct (Rltb _ _); [|reflexivity].
  rewrite triggerServe_match. unfold matchOf. cbn. rewrite E, Et. reflexivity.
Qed.

(** *** Invariants of the match *)

Lemma MatchInv_move (m m' : Match) :
  MatchMove m m' -> MatchInv m -> MatchInv m'.
Proof.
  intros H. destruct H as [sc t n | g sc t n Hg | sc t n | w sc t n];
    unfold MatchInv.
  - intros (? & ? & ? & ? & ?). repeat split; auto; discriminate.
  - intros _. cbn. unfold deuce. repeat split; try lia; discriminate.
  - intros (? & ? & ? & ? & ?). repeat split; auto; discriminate.
  - intros (Hp & Ha & Hn & Hd & _). unfold pointMatch.
    assert (Hsc : (0 <= player (scored w sc))%Z /\ (0 <= ai (scored w sc))%Z
                  /\ (deuce (player sc) (ai sc) ->
                      deuce (player (scored w sc)) (ai (scored w sc)))).
    { unfold deuce. destruct w; cbn; lia. }
    destruct Hsc as (Hp' & Ha' & Hmono).
    destruct (wins (scored w sc)) eqn:Ew.
    + apply wins_iff in Ew. repeat split; auto; apply Ew.
    + destruct (isDeuce (scored w sc)) eqn:Ed.
      * apply isDeuce_iff in Ed. repeat split; auto; try lia; try tauto; discriminate.
      * destruct (n + 1 >=? 2)%Z eqn:En.
        -- repeat split; auto; try lia; discriminate.
        -- rewrite Z.geb_leb, Z.leb_gt in En.
           repeat split; auto; try lia; discriminate.
Qed.

Lemma MatchInv_moves (m m' : Match) :
  MatchMoves m m' -> MatchInv m -> MatchInv m'.
Proof. apply moves_invariant. exact MatchInv_move. Qed.

Lemma MatchInv_initial (r : R) : MatchInv (matchOf (onloadeddata (initial r))).
Proof.
  cbn. unfold deuce. repeat split; try lia; discriminate.
Qed.

Lemma MatchInv_run (frames : list Frame) (s s' : Engine) :
  MatchInv (matchOf s) -> run frames s = Some s' -> MatchInv (matchOf s').
Proof.
  intros Hi Hr. eapply MatchInv_moves; [eapply run_moves; eauto | exact Hi].
Qed.

(** *** The rest of the engine through a tick *)

Lemma outerOf_fields (a b : Engine) :
  outerOf a = outerOf b ->
  paddlePlayerX a = paddlePlayerX b /\ paddleAIX a = paddleAIX b
  /\ handDetectedRef a = handDetectedRef b
  /\ missingHandFramesRef a = missingHandFramesRef b.
Proof. unfold outerOf. intros H. injection H as -> -> -> ->. auto. Qed.

Lemma extends_refl (s : Engine) : extends s s.
Proof. exists []. reflexivity. Qed.

Lemma extends_same (s s' : Engine) : ui s' = ui s -> extends s s'.
Proof. intros H. exists []. exact H. Qed.

Lemma extends_trans (s1 s2 s3 : Engine) :
  extends s1 s2 -> extends s2 s3 -> extends s1 s3.
Proof.
  intros (l1 & H1) (l2 & H2). exists (l2 ++ l1).
  rewrite H2, H1. apply app_assoc.
Qed.

Lemma emitted_extends (c : UiCall) (s s' : Engine) :
  emitted c s s' -> extends s s'.
Proof. intros (l & H & _). exists l. exact H. Qed.

Lemma emitted_later (c : UiCall) (s1 s2 s3 : Engine) :
  emitted c s1 s2 -> extends s2 s3 -> emitted c s1 s3.
Proof.
  intros (l1 & H1 & Hin) (l2 & H2). exists (l2 ++ l1). split.
  - rewrite H2, H1. apply app_assoc.
  - apply in_or_app. auto.
Qed.

Lemma emitted_earlier (c : UiCall) (s1 s2 s3 : Engine) :
  extends s1 s2 -> emitted c s2 s3 -> emitted c s1 s3.
Proof.
  intros (l1 & H1) (l2 & H2 & Hin). exists (l2 ++ l1). split.
  - rewrite H2, H1. apply app_assoc.
  - apply in_or_app. auto.
Qed.

(** [startServePhase]: what it writes. *)
Lemma startServePhase_facts (d : Draws) (s : Engine) :
  outerOf (startServePhase d s) = outerOf s
  /\ aiErrorOffset (startServePhase d s) = serveError (rServeErr d)
  /\ ball (startServePhase d s) = resetBall (serveTurnRef s) (rLaunch d)
  /\ emitted (SetGameState SERVING) s (startServePhase d s).
Proof. repeat split. solve_emitted. Qed.

Lemma startGame_facts (d : Draws) (s : Engine) :
  outerOf (startGame d s) = outerOf s
  /\ aiErrorOffset (startGame d s) = serveError (rServeErr d)
  /\ ball (startGame d s) = resetBall PLAYER (rLaunch d)
  /\ emitted (SetGameState SERVING) s (startGame d s).
Proof. repeat split. solve_emitted. Qed.

Lemma triggerServe_facts (s : Engine) :
  outerOf (triggerServe s) = outerOf s
  /\ aiErrorOffset (triggerServe s) = aiErrorOffset s
  /\ extends s (triggerServe s).
Proof.
  unfold triggerServe. destruct (gameStateRef s); repeat split;
    solve_extends.
Qed.

Lemma scorePoint_facts (w : ServeTurn) (d : Draws) (s : Engine) :
  outerOf (scorePoint w d s) = outerOf s
  /\ extends s (scorePoint w d s)
  /\ (aiErrorOffset (scorePoint w d s) = aiErrorOffset s
      \/ (aiErrorOffset (scorePoint w d s) = serveError (rServeErr d)
          /\ emitted (SetGameState SERVING) s (scorePoint w d s))).
Proof.
  unfold scorePoint.
  destruct w; cbn -[Z.geb Z.abs Z.add Z.sub WINNING_SCORE];
    repeat match goal with
           | |- context [if ?c then _ else _] =>
               match type of c with bool => destruct c eqn:? end
           end;
    cbn -[Z.geb Z.abs Z.add Z.sub WINNING_SCORE] in *;
    (split; [reflexivity|]); (split; [solve_extends|]);
    first [ left; reflexivity | right; split; [reflexivity | solve_emitted] ].
Qed.

Lemma handSeen_facts (s : Engine) :
  paddlePlayerX (handSeen s) = paddlePlayerX s
  /\ paddleAIX (handSeen s) = paddleAIX s
  /\ aiErrorOffset (handSeen s) = aiErrorOffset s
  /\ missingHandFramesRef (handSeen s) = 0%Z
  /\ handDetectedRef (handSeen s) = true
  /\ extends s (handSeen s)
  /\ (handDetectedRef s = false ->
      emitted (SetHandStatus "Hand Detected") s (handSeen s)).
Proof.
  unfold handSeen. cbn.
  destruct (handDetectedRef s) eqn:Ed; cbn.
  - rewrite Ed. repeat split; try solve_extends. discriminate.
  - destruct (gameStateRef s); cbn; repeat split; intros;
      try solve_extends; solve_emitted.
Qed.

Lemma handMissing_facts (s : Engine) :
  paddlePlayerX (handMissing s) = paddlePlayerX s
  /\ paddleAIX (handMissing s) = paddleAIX s
  /\ aiErrorOffset (handMissing s) = aiErrorOffset s
  /\ missingHandFramesRef (handMissing s) = (missingHandFramesRef s + 1)%Z
  /\ handDetectedRef (handMissing s) =
       (if (missingHandFramesRef s + 1 >? 30)%Z then false
        else handDetectedRef s)
  /\ extends s (handMissing s)
  /\ (handDetectedRef s = true -> (missingHandFramesRef s + 1 > 30)%Z ->
      emitted (SetHandStatus "Lost Tracking - Raise Hand") s (handMissing s)).
Proof.
  unfold handMissing. cbn -[Z.add Z.gtb].
  destruct (_ >? 30)%Z eqn:E.
  - destruct (handDetectedRef s) eqn:Ed; cbn -[Z.add Z.gtb];
      repeat split; intros; try solve_extends; try discriminate;
      try assumption; try solve_emitted.
  - rewrite Z.gtb_ltb, Z.ltb_ge in E.
    repeat split; intros; try solve_extends. lia.
Qed.

Lemma updatePlayerPaddle_facts (l : list Point) (s s' : Engine) :
  updatePlayerPaddle l s = Some s' ->
  PADDLE_WIDTH / 2 <= paddlePlayerX s' <= CANVAS_WIDTH - PADDLE_WIDTH / 2
  /\ paddleAIX s' = paddleAIX s
  /\ aiErrorOffset s' = aiErrorOffset s
  /\ handDetectedRef s' = handDetectedRef s
  /\ missingHandFramesRef s' = missingHandFramesRef s
  /\ ui s' = ui s.
Proof.
  unfold updatePlayerPaddle. intros H.
  apply bind_Some in H. destruct H as (tip & _ & H). injection H as <-.
  cbn. repeat split; try reflexivity;
    apply clamp_bounds; unfold PADDLE_WIDTH, CANVAS_WIDTH; lra.
Qed.

(** The gestures either leave the engine alone, start a game or launch
    the serve. *)
Lemma gestures_cases (l : list Point) (d : Draws) (s s' : Engine) :
  gestures l d s = Some s' ->
  s' = s
  \/ (s' = startGame d s /\ isFist l = Some true
      /\ (gameStateRef s = MENU \/ gameStateRef s = GAME_OVER))
  \/ (s' = triggerServe s /\ isIndexBent l = Some true
      /\ gameStateRef s = SERVING /\ serveTurnRef s = PLAYER).
Proof.
  unfold gestures. intros H.
  destruct (gameStateRef s) eqn:Eg; try (injection H as <-; auto; fail).
  - apply bind_Some in H. destruct H as (fist & Hf & H). injection H as <-.
    destruct fist; auto 10.
  - destruct (serveTurnRef s) eqn:Et; [|injection H as <-; auto].
    apply bind_Some in H. destruct H as (bent & Hb & H). injection H as <-.
    destruct bent; auto 10.
  - apply bind_Some in H. destruct H as (fist & Hf & H). injection H as <-.
    destruct fist; auto 10.
Qed.

Lemma aiLogic_facts (s : Engine) :
  paddlePlayerX (aiLogic s) = paddlePlayerX s
  /\ handDetectedRef (aiLogic s) = handDetectedRef s
  /\ missingHandFramesRef (aiLogic s) = missingHandFramesRef s
  /\ aiErrorOffset (aiLogic s) = aiErrorOffset s
  /\ ball (aiLogic s) = ball s
  /\ ui (aiLogic s) = ui s
  /\ (PADDLE_WIDTH / 2 <= paddleAIX s <= CANVAS_WIDTH - PADDLE_WIDTH / 2 ->
      PADDLE_WIDTH / 2 <= paddleAIX (aiLogic s)
        <= CANVAS_WIDTH - PADDLE_WIDTH / 2).
Proof.
  unfold aiLogic.
  destruct (gameStateRef s); cbn; repeat split; try tauto;
    apply clamp_bounds; unfold PADDLE_WIDTH, CANVAS_WIDTH; lra.
Qed.

Lemma aiPaddleCollision_facts (s : Engine) :
  outerOf (aiPaddleCollision s) = outerOf s
  /\ aiErrorOffset (aiPaddleCollision s) = aiErrorOffset s
  /\ ui (aiPaddleCollision s) = ui s.
Proof.
  unfold aiPaddleCollision. destruct (hitsAIPaddle _ _); repeat split.
Qed.

Lemma playerPaddleCollision_facts (d : Draws) (s : Engine) :
  outerOf (playerPaddleCollision d s) = outerOf s
  /\ ui (playerPaddleCollision d s) = ui s
  /\ aiErrorOffset (playerPaddleCollision d s) =
       (if hitsPlayerPaddle (ball s) (paddlePlayerX s)
        then hitError (rHitErr d) else aiErrorOffset s).
Proof.
  unfold playerPaddleCollision.
  destruct (hitsPlayerPaddle _ _); repeat split.
Qed.

Lemma scoring_facts (d : Draws) (s : Engine) :
  outerOf (scoring d s) = outerOf s
  /\ extends s (scoring d s)
  /\ (aiErrorOffset (scoring d s) = aiErrorOffset s
      \/ (aiErrorOffset (scoring d s) = serveError (rServeErr d)
          /\ emitted (SetGameState SERVING) s (scoring d s))).
Proof.
  unfold scoring.
  destruct (Rltb _ 0); [apply scorePoint_facts|].
  destruct (Rgtb _ _); [apply scorePoint_facts|].
  repeat split; [apply extends_refl | left; reflexivity].
Qed.

Lemma ballPhysics_facts (d : Draws) (s : Engine) :
  outerOf (ballPhysics d s) = outerOf s
  /\ extends s (ballPhysics d s)
  /\ (aiErrorOffset (ballPhysics d s) = aiErrorOffset s
      \/ (aiErrorOffset (ballPhysics d s) = serveError (rServeErr d)
          /\ emitted (SetGameState SERVING) s (ballPhysics d s))
      \/ (aiErrorOffset (ballPhysics d s) = hitError (rHitErr d)
          /\ playerContact s)).
Proof.
  unfold ballPhysics. destruct (gameStateRef s) eqn:Eg;
    try (repeat split; [apply extends_same; reflexivity | left; reflexivity]).
  - destruct (serveTurnRef s).
    + repeat split; [apply extends_same; reflexivity | left; reflexivity].
    + destruct (Rltb _ _).
      * destruct (triggerServe_facts
                    (stickBall (paddleAIX s)
                       (WALL_OFFSET + PADDLE_HEIGHT + BALL_RADIUS + 5) s))
          as (Ho & Ha & He).
        repeat split; [exact Ho | exact He | left; exact Ha].
      * repeat split; [apply extends_same; reflexivity | left; reflexivity].
  - fold (atPlayerCheck s).
    destruct (aiPaddleCollision_facts
                (set_ball (sideWalls (moveBall (ball s))) s))
      as (Ho1 & Ha1 & Hu1).
    fold (atPlayerCheck s) in Ho1, Ha1, Hu1.
    change (outerOf (set_ball (sideWalls (moveBall (ball s))) s))
      with (outerOf s) in Ho1.
    change (aiErrorOffset (set_ball (sideWalls (moveBall (ball s))) s))
      with (aiErrorOffset s) in Ha1.
    change (ui (set_ball (sideWalls (moveBall (ball s))) s))
      with (ui s) in Hu1.
    destruct (playerPaddleCollision_facts d (atPlayerCheck s))
      as (Ho2 & Hu2 & Ha2).
    destruct (scoring_facts d (playerPaddleCollision d (atPlayerCheck s)))
      as (Ho3 & He3 & Ha3).
    assert (He : extends s (playerPaddleCollision d (atPlayerCheck s)))
      by (apply extends_same; congruence).
    split; [congruence|]. split; [eapply extends_trans; eauto|].
    destruct Ha3 as [Ha3 | (Ha3 & Hem)].
    + rewrite Ha3, Ha2.
      destruct (hitsPlayerPaddle _ _) eqn:Eh.
      * right. right. split; [reflexivity|]. split; assumption.
      * left. exact Ha1.
    + right. left. split; [exact Ha3|].
      eapply emitted_earlier; eauto.
Qed.

(** Step 1 of [update], on the cells outside the match. *)
Lemma processInput_facts (lm : option (list Point)) (d : Draws)
  (s s' : Engine) :
  processInput lm d s = Some s' ->
  extends s s'
  /\ (PaddleInv s -> PaddleInv s')
  /\ (aiErrorOffset s' = aiErrorOffset s
      \/ (aiErrorOffset s' = serveError (rServeErr d)
          /\ emitted (SetGameState SERVING) s s'))
  /\ match lm with
     | Some _ =>
         missingHandFramesRef s' = 0%Z
         /\ handDetectedRef s' = true
         /\ (handDetectedRef s = false ->
             emitted (SetHandStatus "Hand Detected") s s')
     | None =>
         missingHandFramesRef s' = (missingHandFramesRef s + 1)%Z
         /\ handDetectedRef s' =
              (if (missingHandFramesRef s + 1 >? 30)%Z then false
               else handDetectedRef s)
         /\ (handDetectedRef s = true ->
             (missingHandFramesRef s + 1 > 30)%Z ->
             emitted (SetHandStatus "Lost Tracking - Raise Hand") s s')
     end.
Proof.
  unfold processInput. destruct lm as [l|]; intros H.
  - apply bind_Some in H. destruct H as (s3 & Hp & Hg).
    destruct (handSeen_facts s) as (P1 & P2 & P3 & P4 & P5 & P6 & P7).
    destruct (updatePlayerPaddle_facts _ _ _ Hp)
      as (Q1 & Q2 & Q3 & Q4 & Q5 & Q6).
    assert (E3 : extends s s3)
      by (eapply extends_trans; [exact P6 | apply extends_same; exact Q6]).
    assert (I3 : PaddleInv s -> PaddleInv s3).
    { intros (_ & Hai). split; [exact Q1 | rewrite Q2, P2; exact Hai]. }
    assert (D3 : handDetectedRef s = false ->
                 emitted (SetHandStatus "Hand Detected") s s3).
    { intros Hd. eapply emitted_later; [apply P7; exact Hd|].
      apply extends_same. exact Q6. }
    destruct (gestures_cases _ _ _ _ Hg) as [-> | [(-> & _) | (-> & _)]].
    + split; [|split; [|split; [|split; [|split]]]]; auto; try congruence.
      left. congruence.
    + destruct (startGame_facts d s3) as (Ho & Ha & _ & He).
      apply outerOf_fields in Ho. destruct Ho as (O1 & O2 & O3 & O4).
      split; [|split; [|split; [|split; [|split]]]]; try congruence.
      * eapply extends_trans; [exact E3 | eapply emitted_extends; eauto].
      * intros Hi. destruct (I3 Hi). unfold PaddleInv.
        rewrite O1, O2. tauto.
      * right. split; [exact Ha|]. eapply emitted_earlier; eauto.
      * intros Hd. eapply emitted_later; [apply D3; exact Hd|].
        eapply emitted_extends; eauto.
    + destruct (triggerServe_facts s3) as (Ho & Ha & He).
      apply outerOf_fields in Ho. destruct Ho as (O1 & O2 & O3 & O4).
      split; [|split; [|split; [|split; [|split]]]]; try congruence.
      * eapply extends_trans; eauto.
      * intros Hi. destruct (I3 Hi). unfold PaddleInv.
        rewrite O1, O2. tauto.
      * left. congruence.
      * intros Hd. eapply emitted_later; [apply D3; exact Hd | exact He].
  - injection H as <-.
    destruct (handMissing_facts s) as (P1 & P2 & P3 & P4 & P5 & P6 & P7).
    split; [|split; [|split; [|split; [|split]]]]; try assumption.
    + unfold PaddleInv. rewrite P1, P2. tauto.
    + left. exact P3.
Qed.

(** *** Whole ticks *)

Lemma update_steps (lm : option (list Point)) (d : Draws) (s s' : Engine) :
  update lm d s = Some s' ->
  exists s1, processInput lm d s = Some s1 /\ s' = ballPhysics d (aiLogic s1).
Proof.
  unfold update. intros H. apply bind_Some in H.
  destruct H as (s1 & H1 & H). injection H as <-. eauto.
Qed.

Lemma physics_outer (d : Draws) (s : Engine) :
  paddlePlayerX (ballPhysics d (aiLogic s)) = paddlePlayerX s
  /\ handDetectedRef (ballPhysics d (aiLogic s)) = handDetectedRef s
  /\ missingHandFramesRef (ballPhysics d (aiLogic s)) = missingHandFramesRef s
  /\ paddleAIX (ballPhysics d (aiLogic s)) = paddleAIX (aiLogic s)
  /\ extends s (ballPhysics d (aiLogic s)).
Proof.
  destruct (ballPhysics_facts d (aiLogic s)) as (Ho & He & _).
  apply outerOf_fields in Ho. destruct Ho as (O1 & O2 & O3 & O4).
  destruct (aiLogic_facts s) as (A1 & A2 & A3 & _ & _ & A6 & _).
  repeat split; try congruence.
  eapply extends_trans; [apply extends_same; exact A6 | exact He].
Qed.

Lemma update_PaddleInv (lm : option (list Point)) (d : Draws)
  (s s' : Engine) :
  PaddleInv s -> update lm d s = Some s' -> PaddleInv s'.
Proof.
  intros Hi H. apply update_steps in H. destruct H as (s1 & H1 & ->).
  destruct (processInput_facts _ _ _ _ H1) as (_ & Hp & _).
  destruct (Hp Hi) as (Hpl & Hai).
  destruct (physics_outer d s1) as (O1 & _ & _ & O4 & _).
  destruct (aiLogic_facts s1) as (_ & _ & _ & _ & _ & _ & A7).
  unfold PaddleInv. rewrite O1, O4. split; [exact Hpl | apply A7, Hai].
Qed.

Lemma run_PaddleInv (frames : list Frame) (s s' : Engine) :
  PaddleInv s -> run frames s = Some s' -> PaddleInv s'.
Proof.
  revert s. induction frames as [|[lm d] rest IH]; intros s Hi H.
  - injection H as <-. exact Hi.
  - cbn in H. apply bind_Some in H. destruct H as (s1 & H1 & H).
    eapply IH; [eapply update_PaddleInv; eauto | exact H].
Qed.

Lemma initial_PaddleInv (r : R) : PaddleInv (initial r).
Proof. unfold PaddleInv. cbn. unfold PADDLE_WIDTH, CANVAS_WIDTH. lra. Qed.

(** The hand-tracking cells after a tick. *)
Lemma update_hand (lm : option (list Point)) (d : Draws) (s s' : Engine) :
  update lm d s = Some s' ->
  match lm with
  | Some _ =>
      missingHandFramesRef s' = 0%Z
      /\ handDetectedRef s' = true
      /\ (handDetectedRef s = false ->
          emitted (SetHandStatus "Hand Detected") s s')
  | None =>
      missingHandFramesRef s' = (missingHandFramesRef s + 1)%Z
      /\ handDetectedRef s' =
           (if (missingHandFramesRef s + 1 >? 30)%Z then false
            else handDetectedRef s)
      /\ (handDetectedRef s = true ->
          (missingHandFramesRef s + 1 > 30)%Z ->
          emitted (SetHandStatus "Lost Tracking - Raise Hand") s s')
  end.
Proof.
  intros H. apply update_steps in H. destruct H as (s1 & H1 & ->).
  destruct (processInput_facts _ _ _ _ H1) as (_ & _ & _ & Hh).
  destruct (physics_outer d s1) as (_ & O2 & O3 & _ & He).
  rewrite O2, O3.
  destruct lm; destruct Hh as (Hh1 & Hh2 & Hh3); repeat split; auto;
    intros; eapply emitted_later; eauto.
Qed.

(** The opponent's error offset after a tick. *)
Lemma update_offset (lm : option (list Point)) (d : Draws) (s s' : Engine) :
  update lm d s = Some s' ->
  aiErrorOffset s' = aiErrorOffset s
  \/ (aiErrorOffset s' = serveError (rServeErr d)
      /\ emitted (SetGameState SERVING) s s')
  \/ (aiErrorOffset s' = hitError (rHitErr d)
      /\ exists s1, processInput lm d s = Some s1
                    /\ playerContact (aiLogic s1)).
Proof.
  intros H. apply update_steps in H. destruct H as (s1 & H1 & ->).
  destruct (processInput_facts _ _ _ _ H1) as (E1 & _ & Ho & _).
  destruct (aiLogic_facts s1) as (_ & _ & _ & A4 & _ & A6 & _).
  destruct (ballPhysics_facts d (aiLogic s1)) as (_ & E2 & Hb).
  assert (E12 : extends s (aiLogic s1))
    by (eapply extends_trans; [exact E1 | apply extends_same; exact A6]).
  destruct Hb as [Hb | [(Hb & Hem) | (Hb & Hc)]].
  - rewrite Hb, A4. destruct Ho as [Ho | (Ho & Hem)].
    + left. exact Ho.
    + right. left. split; [exact Ho|].
      eapply emitted_later; [exact Hem|].
      eapply extends_trans; [apply extends_same; exact A6 | exact E2].
  - right. left. split; [exact Hb|]. eapply emitted_earlier; eauto.
  - right. right. split; [exact Hb|]. exists s1. auto.
Qed.

(** A tick whose step 1 does not end in active play. *)
Lemma update_match_idle (lm : option (list Point)) (d : Draws)
  (s s' : Engine) :
  update lm d s = Some s' ->
  phaseOf (inputMatch lm (handDetectedRef s) (matchOf s)) <> PLAYING ->
  matchOf s' = idleMatch d (inputMatch lm (handDetectedRef s) (matchOf s)).
Proof.
  intros H Hn. apply update_steps in H. destruct H as (s1 & H1 & ->).
  apply processInput_match in H1. rewrite <- H1 in *.
  rewrite <- (aiLogic_match s1) in *.
  set (a := aiLogic s1) in *.
  rewrite ballPhysics_match_idle by exact Hn.
  unfold idleMatch, matchOf.
  destruct (gameStateRef a); try reflexivity.
Qed.

Lemma inputMatch_game_over (lm : option (list Point)) (detected : bool)
  (sc : Scores) (t : ServeTurn) (n : Z) :
  inputMatch lm detected (GAME_OVER, sc, t, n) =
    match lm with
    | Some l =>
        match isFist l with
        | Some true => (SERVING, mkScores 0 0, PLAYER, 0%Z)
        | _ => (GAME_OVER, sc, t, n)
        end
    | None => (GAME_OVER, sc, t, n)
    end.
Proof. destruct lm, detected; reflexivity. Qed.

(** Step 1 of a tick that starts outside a match ends outside active
    play, and in the serving phase only by the start of a game. *)
Lemma inputMatch_outside (lm : option (list Point)) (detected : bool)
  (d : Draws) (g : GameState) (sc : Scores) (t : ServeTurn) (n : Z) :
  g <> SERVING -> g <> PLAYING ->
  let m := inputMatch lm detected (g, sc, t, n) in
  phaseOf m <> PLAYING
  /\ idleMatch d m = m
  /\ (phaseOf m = SERVING -> m = (SERVING, mkScores 0 0, PLAYER, 0%Z)).
Proof.
  intros Hs Hp. unfold inputMatch.
  destruct lm as [l|]; [destruct (isFist l) as [[|]|]|];
    destruct g; try congruence; destruct detected; cbn;
    repeat split; try discriminate; try reflexivity.
Qed.

(** *** Well-formed frames never raise *)

Lemma landmark_defined (l : list Point) (i : nat) :
  wellFormed l -> (i < 21)%nat -> exists p, nth_error l i = Some p.
Proof.
  unfold wellFormed. intros Hl Hi.
  destruct (nth_error l i) as [p|] eqn:E; [eauto|].
  apply nth_error_None in E. lia.
Qed.

Lemma isFist_defined (l : list Point) :
  wellFormed l -> exists b, isFist l = Some b.
Proof.
  intros Hl. unfold isFist.
  destruct (landmark_defined l 0 Hl ltac:(lia)) as (p0 & ->).
  destruct (landmark_defined l 8 Hl ltac:(lia)) as (p8 & ->).
  destruct (landmark_defined l 12 Hl ltac:(lia)) as (p12 & ->).
  destruct (landmark_defined l 16 Hl ltac:(lia)) as (p16 & ->).
  destruct (landmark_defined l 20 Hl ltac:(lia)) as (p20 & ->).
  cbn [bind]. eauto.
Qed.

Lemma isIndexBent_defined (l : list Point) :
  wellFormed l -> exists b, isIndexBent l = Some b.
Proof.
  intros Hl. unfold isIndexBent.
  destruct (landmark_defined l 8 Hl ltac:(lia)) as (p8 & ->).
  destruct (landmark_defined l 5 Hl ltac:(lia)) as (p5 & ->).
  cbn [bind]. eauto.
Qed.

Lemma update_defined (lm : option (list Point)) (d : Draws) (s : Engine) :
  wellFormedFrame (lm, d) -> exists s', update lm d s = Some s'.
Proof.
  unfold wellFormedFrame, update, processInput. cbn [fst].
  destruct lm as [l|]; intros Hl; [|cbn [bind]; eauto].
  unfold updatePlayerPaddle.
  destruct (landmark_defined l 8 Hl ltac:(lia)) as (p8 & ->).
  cbn [bind]. unfold gestures.
  destruct (isFist_defined l Hl) as (fist & ->).
  destruct (isIndexBent_defined l Hl) as (bent & ->).
  match goal with
  | |- context [gameStateRef ?x] => destruct (gameStateRef x)
  end; cbn [bind]; eauto.
  match goal with
  | |- context [serveTurnRef ?x] => destruct (serveTurnRef x)
  end; cbn [bind]; eauto.
Qed.

Lemma run_defined (frames : list Frame) (s : Engine) :
  Forall wellFormedFrame frames -> exists s', run frames s = Some s'.
Proof.
  intros Hf. revert s. induction Hf as [|[lm d] rest Hw _ IH]; intros s.
  - cbn. eauto.
  - cbn [run]. destruct (update_defined lm d s Hw) as (s1 & ->).
    cbn [bind]. apply IH.
Qed.

End ForestPongFacts.

(** ** Pong Motion: the match state machine and the paddles *)

Module PongMotionFacts.
Import PongMotion.

Lemma canvas_wins_iff (sc : Scores) :
  wins sc = true <-> winBy2 WINNING_SCORE (player sc) (ai sc).
Proof.
  unfold wins, winBy2.
  rewrite andb_true_iff, orb_true_iff, !Z.geb_le. lia.
Qed.

Lemma canvas_isDeuce_iff (sc : Scores) :
  isDeuce sc = true <-> deuce (player sc) (ai sc).
Proof.
  unfold isDeuce, deuce. rewrite andb_true_iff, !Z.geb_le. lia.
Qed.

Lemma handleScoring_match (w : Side) (t : R) (c : Canvas) :
  matchOf (handleScoring w t c) = pointMatch w (matchOf c).
Proof.
  unfold handleScoring, checkWinCondition, pointMatch, matchOf, wins,
    isDeuce, scored.
  destruct w; cbn -[Z.geb Z.abs Z.add Z.sub WINNING_SCORE];
    repeat match goal with
           | |- context [if ?c then _ else _] => destruct c eqn:?
           end;
    cbn -[Z.geb Z.abs Z.add Z.sub WINNING_SCORE] in *;
    try reflexivity; try congruence.
Qed.

(** What [handleScoring] leaves of the rest of the canvas. *)
Lemma handleScoring_rest (w : Side) (t : R) (c : Canvas) :
  paddleX (physics (handleScoring w t c)) = paddleX (physics c)
  /\ aiPaddleX (physics (handleScoring w t c)) = aiPaddleX (physics c)
  /\ (wins (scored w (scores c)) = true ->
      isServing (handleScoring w t c) = isServing c
      /\ ball (physics (handleScoring w t c)) = ball (physics c))
  /\ (wins (scored w (scores c)) = false ->
      isServing (handleScoring w t c) = true
      /\ ball (physics (handleScoring w t c)) =
           mkBall (GAME_WIDTH / 2)
             (match server (handleScoring w t c) with
              | Player => GAME_HEIGHT - 150
              | Ai => 150
              end) 0 0 0
      /\ serveTimer (handleScoring w t c) = t).
Proof.
  unfold handleScoring, checkWinCondition, wins, scored.
  destruct w; cbn -[Z.geb Z.abs Z.add Z.sub WINNING_SCORE];
    repeat match goal with
           | |- context [if ?c then _ else _] =>
               match type of c with bool => destruct c eqn:? end
           end;
    cbn -[Z.geb Z.abs Z.add Z.sub WINNING_SCORE] in *;
    repeat split; intros; try reflexivity; try congruence.
Qed.

(** *** The steps of [ballPhysics] that only touch the ball *)

Lemma moveBall_onlyBall : onlyBall moveBall.
Proof. intros c. eexists. reflexivity. Qed.

Lemma wallCollisions_onlyBall : onlyBall wallCollisions.
Proof.
  intros c. unfold wallCollisions.
  destruct (_ || _); [eexists; reflexivity|].
  exists (ball (physics c)). destruct c as [[? ? ?] ? ? ? ? ? ? ? ?].
  reflexivity.
Qed.

Lemma playerPaddleCollision_onlyBall : onlyBall playerPaddleCollision.
Proof.
  intros c. unfold playerPaddleCollision.
  destruct (_ && _); [eexists; reflexivity|].
  exists (ball (physics c)). destruct c as [[? ? ?] ? ? ? ? ? ? ? ?].
  reflexivity.
Qed.

Lemma aiPaddleCollision_onlyBall : onlyBall aiPaddleCollision.
Proof.
  intros c. unfold aiPaddleCollision.
  destruct (_ && _); [eexists; reflexivity|].
  exists (ball (physics c)). destruct c as [[? ? ?] ? ? ? ? ? ? ? ?].
  reflexivity.
Qed.

Lemma onlyBall_rest (f : Canvas -> Canvas) (c : Canvas) :
  onlyBall f ->
  restOf (f c) = restOf c /\ aiPaddleX (physics (f c)) = aiPaddleX (physics c).
Proof. intros H. destruct (H c) as (b & ->). split; reflexivity. Qed.

Lemma aiMovement_rest (c : Canvas) :
  restOf (aiMovement c) = restOf c
  /\ ball (physics (aiMovement c)) = ball (physics c)
  /\ 0 <= aiPaddleX (physics (aiMovement c)) <= GAME_WIDTH - PADDLE_WIDTH.
Proof.
  unfold aiMovement.
  repeat split;
    try (destruct (Rltb _ _); cbn; destruct (Rgtb _ _); reflexivity);
    cbn; apply clamp_bounds; unfold GAME_WIDTH, PADDLE_WIDTH; lra.
Qed.

Lemma beforeScoring_rest (c : Canvas) :
  restOf (beforeScoring c) = restOf c
  /\ 0 <= aiPaddleX (physics (beforeScoring c)) <= GAME_WIDTH - PADDLE_WIDTH.
Proof.
  unfold beforeScoring.
  destruct (onlyBall_rest _ c moveBall_onlyBall) as (R1 & _).
  destruct (onlyBall_rest _ (moveBall c) wallCollisions_onlyBall) as (R2 & _).
  destruct (aiMovement_rest (wallCollisions (moveBall c))) as (R3 & _ & B3).
  destruct (onlyBall_rest _ (aiMovement (wallCollisions (moveBall c)))
              playerPaddleCollision_onlyBall) as (R4 & A4).
  destruct (onlyBall_rest _
              (playerPaddleCollision (aiMovement (wallCollisions (moveBall c))))
              aiPaddleCollision_onlyBall) as (R5 & A5).
  split; [congruence|]. rewrite A5, A4. exact B3.
Qed.

(** *** Invariants of the canvas *)

Lemma pointMatch_inv (w : Side) (sc : Scores) (sv : Side) (n : Z) :
  MatchInv (PLAYING, sc, sv, n) -> MatchInv (pointMatch w (PLAYING, sc, sv, n)).
Proof.
  unfold MatchInv, pointMatch. intros (Hp & Ha & Hn & _).
  assert (Hsc : (0 <= player (scored w sc))%Z /\ (0 <= ai (scored w sc))%Z)
    by (destruct w; cbn; lia).
  destruct (wins (scored w sc)) eqn:Ew.
  - apply canvas_wins_iff in Ew. repeat split; try tauto; try lia; apply Ew.
  - destruct (_ >=? _)%Z eqn:En.
    + repeat split; try tauto; try lia; discriminate.
    + rewrite Z.geb_leb, Z.leb_gt in En.
      destruct (isDeuce (scored w sc));
        repeat split; try tauto; try lia; discriminate.
Qed.

Lemma update_unfold (i : FrameInput) (c : Canvas) :
  update i c =
    match gameState c with
    | PLAYING =>
        if isServing c then serveLogic i (paddleMoved i c)
        else scoring i (beforeScoring (paddleMoved i c))
    | _ => c
    end.
Proof. unfold update. destruct (gameState c); reflexivity. Qed.

Lemma serveLogic_match (i : FrameInput) (c : Canvas) :
  matchOf (serveLogic i c) = matchOf c.
Proof.
  unfold serveLogic. destruct (server c) eqn:E.
  - destruct (HandGesture_eqb _ _); unfold matchOf; cbn; rewrite ?E;
      reflexivity.
  - destruct (Rgtb _ _); unfold matchOf; cbn; rewrite ?E; reflexivity.
Qed.

Lemma scoring_cases (i : FrameInput) (c : Canvas) :
  scoring i c = c \/ exists w, scoring i c = handleScoring w (now i) c.
Proof.
  unfold scoring. destruct (Rgtb _ _); [right; eexists; reflexivity|].
  destruct (Rltb _ _); [right; eexists; reflexivity | left; reflexivity].
Qed.

Lemma restOf_match (c c' : Canvas) :
  restOf c = restOf c' -> matchOf c = matchOf c'.
Proof. unfold restOf, matchOf. congruence. Qed.

(** A tick leaves the match alone or plays one point in active play. *)
Lemma update_match (i : FrameInput) (c : Canvas) :
  matchOf (update i c) = matchOf c
  \/ (gameState c = PLAYING
      /\ exists w, matchOf (update i c) = pointMatch w (matchOf c)).
Proof.
  rewrite update_unfold. destruct (gameState c) eqn:Eg; auto.
  destruct (isServing c).
  - left. rewrite serveLogic_match. unfold matchOf. cbn. rewrite Eg.
    reflexivity.
  - assert (Hm : matchOf (beforeScoring (paddleMoved i c)) = matchOf c).
    { transitivity (matchOf (paddleMoved i c)).
      - apply restOf_match, beforeScoring_rest.
      - reflexivity. }
    destruct (scoring_cases i (beforeScoring (paddleMoved i c)))
      as [-> | (w & ->)].
    + left. exact Hm.
    + right. split; [reflexivity|]. exists w.
      rewrite handleScoring_match, Hm. reflexivity.
Qed.

(** The events of [App] other than a restart only move the phase, and
    never into or out of [GAME_OVER]. *)
Lemma step_app_cases (e : Event) (c : Canvas) :
  (forall i, e <> Animate i) -> (forall t, e <> RestartGame t) ->
  step e c = c
  \/ exists g, g <> GAME_OVER /\ gameState c <> GAME_OVER
               /\ step e c = onGameStateChange g c.
Proof.
  intros Ha Hr. destruct e as [i | | h | | t]; cbn [step].
  - destruct (Ha i). reflexivity.
  - destruct (gameState c) eqn:E; auto.
    right. exists MENU. repeat split; discriminate.
  - destruct (gameState c) eqn:E; auto; destruct h; auto; right;
      eexists; (split; [|split; [|reflexivity]]); discriminate.
  - destruct (gameState c) eqn:E; auto.
    right. exists PLAYING. repeat split; discriminate.
  - destruct (Hr t). reflexivity.
Qed.

Lemma step_MatchInv (e : Event) (c : Canvas) :
  MatchInv (matchOf c) -> MatchInv (matchOf (step e c)).
Proof.
  intros Hi. destruct e as [i | | h | | t].
  - cbn [step].
    destruct (update_match i c) as [-> | (Hg & w & ->)]; [exact Hi|].
    unfold matchOf in *. rewrite Hg in *. apply pointMatch_inv. exact Hi.
  - destruct (step_app_cases CameraReady c) as [-> | (g & Hg & _ & ->)];
      try discriminate; [exact Hi|].
    unfold matchOf, MatchInv in *. cbn. tauto.
  - destruct (step_app_cases (Gesture h) c) as [-> | (g & Hg & _ & ->)];
      try discriminate; [exact Hi|].
    unfold matchOf, MatchInv in *. cbn. tauto.
  - destruct (step_app_cases CountdownOver c) as [-> | (g & Hg & _ & ->)];
      try discriminate; [exact Hi|].
    unfold matchOf, MatchInv in *. cbn. tauto.
  - cbn. repeat split; try lia; discriminate.
Qed.

Lemma lerp_bounds (old target : R) :
  0 <= old <= GAME_WIDTH - PADDLE_WIDTH ->
  0 <= old + (clamp 0 (GAME_WIDTH - PADDLE_WIDTH) target - old) * 0.3
    <= GAME_WIDTH - PADDLE_WIDTH.
Proof.
  intros Ho.
  assert (Hc := clamp_bounds 0 (GAME_WIDTH - PADDLE_WIDTH) target).
  unfold GAME_WIDTH, PADDLE_WIDTH in *. lra.
Qed.

Lemma serveLogic_bounds (i : FrameInput) (c : Canvas) :
  isServing c = true -> BoundsInv c -> BoundsInv (serveLogic i c).
Proof.
  intros Hs (Hp & Ha & Hb). unfold serveLogic, BoundsInv.
  destruct (server c) eqn:E.
  - destruct (HandGesture_eqb _ _); cbn; rewrite ?E;
      repeat split; try tauto; try discriminate.
  - specialize (Hb Hs eq_refl).
    destruct (Rgtb _ _); cbn; rewrite ?E, ?Hb;
      unfold GAME_WIDTH, PADDLE_WIDTH in *; repeat split; intros; try lra;
      try discriminate.
Qed.

Lemma handleScoring_bounds (w : Side) (t : R) (c : Canvas) :
  isServing c = false ->
  0 <= paddleX (physics c) <= GAME_WIDTH - PADDLE_WIDTH ->
  0 <= aiPaddleX (physics c) <= GAME_WIDTH - PADDLE_WIDTH ->
  BoundsInv (handleScoring w t c).
Proof.
  intros Hs Hp Ha.
  destruct (handleScoring_rest w t c) as (E1 & E2 & Hw & Hn).
  unfold BoundsInv. rewrite E1, E2. repeat split; try tauto.
  destruct (wins (scored w (scores c))).
  - destruct (Hw eq_refl) as (-> & _). congruence.
  - destruct (Hn eq_refl) as (_ & -> & _). reflexivity.
Qed.

Lemma update_bounds (i : FrameInput) (c : Canvas) :
  BoundsInv c -> BoundsInv (update i c).
Proof.
  intros Hi. rewrite update_unfold. destruct (gameState c); try exact Hi.
  assert (Hm : BoundsInv (paddleMoved i c)).
  { destruct Hi as (Hp & Ha & Hb). unfold BoundsInv, paddleMoved. cbn.
    split; [apply lerp_bounds; exact Hp | tauto]. }
  destruct (isServing c) eqn:Es.
  - apply serveLogic_bounds; [exact Es | exact Hm].
  - destruct (beforeScoring_rest (paddleMoved i c)) as (Hr & Hai).
    assert (Hs : isServing (beforeScoring (paddleMoved i c)) = false).
    { unfold restOf in Hr. injection Hr as _ _ _ _ -> _ _ _ _. exact Es. }
    assert (Hp : 0 <= paddleX (physics (beforeScoring (paddleMoved i c)))
                 <= GAME_WIDTH - PADDLE_WIDTH).
    { unfold restOf in Hr. injection Hr as -> _ _ _ _ _ _ _ _. apply Hm. }
    destruct (scoring_cases i (beforeScoring (paddleMoved i c)))
      as [-> | (w & ->)].
    + unfold BoundsInv. rewrite Hs. repeat split; try tauto; discriminate.
    + apply handleScoring_bounds; assumption.
Qed.

Lemma step_bounds (e : Event) (c : Canvas) :
  BoundsInv c -> BoundsInv (step e c).
Proof.
  intros Hi. destruct e as [i | | h | | t].
  - apply update_bounds, Hi.
  - destruct (step_app_cases CameraReady c) as [-> | (g & _ & _ & ->)];
      try discriminate; exact Hi.
  - destruct (step_app_cases (Gesture h) c) as [-> | (g & _ & _ & ->)];
      try discriminate; exact Hi.
  - destruct (step_app_cases CountdownOver c) as [-> | (g & _ & _ & ->)];
      try discriminate; exact Hi.
  - destruct Hi as (Hp & Ha & _). unfold BoundsInv. cbn.
    repeat split; try tauto; discriminate.
Qed.

Lemma started_inv (t0 : R) :
  MatchInv (matchOf (started t0)) /\ BoundsInv (started t0).
Proof.
  split.
  - cbn. repeat split; try lia; discriminate.
  - unfold BoundsInv. cbn. unfold GAME_WIDTH, PADDLE_WIDTH.
    repeat split; try lra; discriminate.
Qed.

Lemma steps_inv (es : list Event) (c : Canvas) :
  MatchInv (matchOf c) /\ BoundsInv c ->
  MatchInv (matchOf (steps es c)) /\ BoundsInv (steps es c).
Proof.
  revert c. unfold steps.
  induction es as [|e es IH]; intros c Hi; [exact Hi|].
  cbn. apply IH. destruct Hi as (Hm & Hb).
  split; [apply step_MatchInv | apply step_bounds]; assumption.
Qed.

Lemma step_FreshInv (e : Event) (c : Canvas) :
  FreshInv c -> FreshInv (step e c).
Proof.
  intros Hi. destruct e as [i | | h | | t]; cbn [step].
  - destruct (update_match i c) as [Hm | (Hg & w & Hm)].
    + unfold matchOf in Hm. injection Hm as Eg Es Ev En.
      unfold FreshInv. rewrite Eg, Es, Ev, En. exact Hi.
    + unfold matchOf, pointMatch in Hm. rewrite Hg in Hm.
      unfold FreshInv.
      destruct (wins _); [injection Hm as -> _ _ _; discriminate|].
      destruct (_ >=? _)%Z; injection Hm as -> _ _ _; discriminate.
  - unfold FreshInv in *.
    destruct (gameState c) eqn:E; cbn in *; rewrite ?E; auto.
  - unfold FreshInv in *.
    destruct (gameState c) eqn:E; try destruct h; cbn in *; rewrite ?E;
      auto.
  - unfold FreshInv in *.
    destruct (gameState c) eqn:E; cbn in *; rewrite ?E; auto;
      discriminate.
  - intros _. cbn. auto.
Qed.

Lemma steps_FreshInv (es : list Event) (c : Canvas) :
  FreshInv c -> FreshInv (steps es c).
Proof.
  revert c. unfold steps.
  induction es as [|e es IH]; intros c Hi; [exact Hi|].
  cbn. apply IH, step_FreshInv, Hi.
Qed.

Lemma started_FreshInv (t0 : R) : FreshInv (started t0).
Proof. intros _. cbn. auto. Qed.

End PongMotionFacts.

Module FPF := ForestPongFacts.
Module PMF := PongMotionFacts.

(** * Properties of the specification *)

(** The closed hand is a fist. *)
Lemma closedHand_isFist : FP.isFist closedHand = Some true.
Proof.
  unfold FP.isFist. cbn -[FP.dist Rltb].
  assert (Hd : FP.dist (FP.mkPoint 0.5 0.5) (FP.mkPoint 0.5 0.5) = 0).
  { unfold FP.dist. cbn.
    replace ((0.5 - 0.5) * ((0.5 - 0.5) * 1) + (0.5 - 0.5) * ((0.5 - 0.5) * 1))
      with 0 by lra.
    apply sqrt_0. }
  rewrite Hd. f_equal. apply Rltb_true_iff. unfold FP.FIST_THRESHOLD. lra.
Qed.

(** ** C1 *)

(** C1. A point ends the match exactly when, with the scores after the
    point, the larger one has reached the winning score and the lead is at
    least two; no state reached from the start of either game is in the
    game-over phase at any other score; and the game-over phase is left only
    by the restart (a fist in Forest Pong, the Play Again button in Pong
    Motion): every other tick or event leaves phase and scores as they
    are. *)
Theorem game_over_iff_win_by_two :
  (forall w d s,
      FP.gameStateRef (FP.scorePoint w d s) = FP.GAME_OVER <->
      winBy2 FP.WINNING_SCORE
        (FP.player (FP.scoresRef (FP.scorePoint w d s)))
        (FP.ai (FP.scoresRef (FP.scorePoint w d s))))
  /\ (forall r frames s,
         FP.run frames (FP.onloadeddata (FP.initial r)) = Some s ->
         FP.gameStateRef s = FP.GAME_OVER ->
         winBy2 FP.WINNING_SCORE
           (FP.player (FP.scoresRef s)) (FP.ai (FP.scoresRef s)))
  /\ (forall lm d s s',
         FP.gameStateRef s = FP.GAME_OVER ->
         FP.update lm d s = Some s' ->
         (FP.gameStateRef s' = FP.GAME_OVER
          /\ FP.scoresRef s' = FP.scoresRef s)
         \/ (exists l, lm = Some l /\ FP.isFist l = Some true
                       /\ FP.gameStateRef s' = FP.SERVING
                       /\ FP.scoresRef s' = FP.mkScores 0 0))
  /\ (forall w t c,
         PM.gameState c = PM.PLAYING ->
         PM.gameState (PM.handleScoring w t c) = PM.GAME_OVER <->
         winBy2 PM.WINNING_SCORE
           (PM.player (PM.scores (PM.handleScoring w t c)))
           (PM.ai (PM.scores (PM.handleScoring w t c))))
  /\ (forall t0 es,
         PM.gameState (PM.steps es (PM.started t0)) = PM.GAME_OVER ->
         winBy2 PM.WINNING_SCORE
           (PM.player (PM.scores (PM.steps es (PM.started t0))))
           (PM.ai (PM.scores (PM.steps es (PM.started t0)))))
  /\ (forall e c,
         PM.gameState c = PM.GAME_OVER ->
         (forall t, e <> PM.RestartGame t) ->
         PM.step e c = c).
Proof.
  split; [|split; [|split; [|split; [|split]]]].
  - intros w d s.
    pose proof (FPF.scorePoint_match w d s) as Hm. cbv zeta in Hm.
    unfold FP.matchOf in Hm.
    destruct (FP.wins (FP.scored w (FP.scoresRef s))) eqn:Ew.
    + injection Hm as -> -> _ _. apply FPF.wins_iff in Ew. tauto.
    + assert (Hs : FP.gameStateRef (FP.scorePoint w d s) = FP.SERVING
                   /\ FP.scoresRef (FP.scorePoint w d s)
                      = FP.scored w (FP.scoresRef s)).
      { destruct (FP.isDeuce _); [|destruct (_ >=? 2)%Z];
          injection Hm as -> -> _ _; auto. }
      destruct Hs as (-> & ->). split; [discriminate|].
      intros Hw. apply FPF.wins_iff in Hw. congruence.
  - intros r frames s Hr Hg.
    pose proof (FPF.MatchInv_run _ _ _ (FPF.MatchInv_initial r) Hr) as Hi.
    unfold FP.MatchInv, FP.matchOf in Hi. tauto.
  - intros lm d s s' Hg Hu.
    pose proof (FPF.update_match_idle _ _ _ _ Hu) as Hm.
    assert (Hs : FP.matchOf s =
                 (FP.GAME_OVER, FP.scoresRef s, FP.serveTurnRef s,
                  FP.servesCountRef s))
      by (unfold FP.matchOf; rewrite Hg; reflexivity).
    rewrite Hs, FPF.inputMatch_game_over in Hm.
    destruct lm as [l|].
    + destruct (FP.isFist l) as [[|]|] eqn:Ef;
        specialize (Hm ltac:(discriminate));
        unfold FP.matchOf in Hm; cbn in Hm; injection Hm as -> -> _ _; auto.
      right. exists l. auto.
    + specialize (Hm ltac:(discriminate)).
      unfold FP.matchOf in Hm; cbn in Hm; injection Hm as -> -> _ _; auto.
  - intros w t c Hg.
    pose proof (PMF.handleScoring_match w t c) as Hm.
    unfold PM.matchOf, PM.pointMatch in Hm. rewrite Hg in Hm.
    destruct (PM.wins (PM.scored w (PM.scores c))) eqn:Ew.
    + injection Hm as -> -> _ _. apply PMF.canvas_wins_iff in Ew. tauto.
    + assert (Hs : PM.gameState (PM.handleScoring w t c) = PM.PLAYING
                   /\ PM.scores (PM.handleScoring w t c)
                      = PM.scored w (PM.scores c)).
      { destruct (_ >=? _)%Z; injection Hm as -> -> _ _; auto. }
      destruct Hs as (-> & ->). split; [discriminate|].
      intros Hw. apply PMF.canvas_wins_iff in Hw. congruence.
  - intros t0 es Hg.
    destruct (PMF.steps_inv es _ (PMF.started_inv t0)) as (Hi & _).
    unfold PM.MatchInv, PM.matchOf in Hi. tauto.
  - intros e c Hg Hr. destruct e as [i | | h | | t].
    + cbn [PM.step]. rewrite PMF.update_unfold, Hg. reflexivity.
    + destruct (PMF.step_app_cases PM.CameraReady c)
        as [-> | (g & _ & Hn & _)]; try discriminate; tauto.
    + destruct (PMF.step_app_cases (PM.Gesture h) c)
        as [-> | (g & _ & Hn & _)]; try discriminate; tauto.
    + destruct (PMF.step_app_cases PM.CountdownOver c)
        as [-> | (g & _ & Hn & _)]; try discriminate; tauto.
    + destruct (Hr t). reflexivity.
Qed.

Lemma game_over_iff_win_by_two_witness :
  FP.gameStateRef
    (FP.scorePoint FP.PLAYER fpNoDraw (fpSample FP.PLAYING 10 8 FP.AI 0))
  = FP.GAME_OVER
  /\ PM.gameState
       (PM.handleScoring PM.Ai 0 (pmSample PM.PLAYING 10 10 PM.Ai 0))
     <> PM.GAME_OVER
  /\ (exists s',
         FP.update None fpNoDraw (fpSample FP.GAME_OVER 11 8 FP.AI 0) = Some s'
         /\ FP.gameStateRef s' = FP.GAME_OVER
         /\ FP.scoresRef s' = FP.mkScores 11 8).
Proof.
  destruct game_over_iff_win_by_two as (H1 & _ & H3 & H4 & _ & _).
  split; [|split].
  - apply H1. cbn. unfold winBy2, FP.WINNING_SCORE. lia.
  - intros Hg. apply (H4 PM.Ai 0 (pmSample PM.PLAYING 10 10 PM.Ai 0)) in Hg;
      [|reflexivity].
    cbn in Hg. unfold winBy2, PM.WINNING_SCORE in Hg. lia.
  - eexists. split; [reflexivity|].
    destruct (H3 None fpNoDraw (fpSample FP.GAME_OVER 11 8 FP.AI 0) _
                eq_refl eq_refl) as [(Hg & Hs) | (l & Hl & _)].
    + split; [exact Hg | exact Hs].
    + discriminate.
Defined.

(** ** C2 *)

(** C2. After a point scored in a reachable state that does not end the
    match: at deuce (both scores at least 10) the server switches; below
    deuce the server switches exactly when this point is the second in a row
    served by the same server (the counter reaches 2), and then the counter
    restarts at 0, otherwise server stays and the counter counts the point.
    With winning score 11 and point winners P,P,A,A,P from a new match, the
    five points are served by P,P,A,A,P.  Both games. *)
Theorem serve_rotation_rule :
  (forall r frames s w d,
      FP.run frames (FP.onloadeddata (FP.initial r)) = Some s ->
      FP.gameStateRef (FP.scorePoint w d s) <> FP.GAME_OVER ->
      let s' := FP.scorePoint w d s in
      (deuce (FP.player (FP.scoresRef s')) (FP.ai (FP.scoresRef s')) ->
       FP.serveTurnRef s' = FP.otherTurn (FP.serveTurnRef s))
      /\ (~ deuce (FP.player (FP.scoresRef s')) (FP.ai (FP.scoresRef s')) ->
          ((FP.servesCountRef s + 1 = 2)%Z ->
           FP.serveTurnRef s' = FP.otherTurn (FP.serveTurnRef s)
           /\ FP.servesCountRef s' = 0%Z)
          /\ ((FP.servesCountRef s + 1 <> 2)%Z ->
              FP.serveTurnRef s' = FP.serveTurnRef s
              /\ FP.servesCountRef s' = 1%Z)))
  /\ (forall d s,
         FP.servers [FP.PLAYER; FP.PLAYER; FP.AI; FP.AI; FP.PLAYER] d
           (FP.startGame d s)
         = [FP.PLAYER; FP.PLAYER; FP.AI; FP.AI; FP.PLAYER])
  /\ (forall t0 es w t,
         let c := PM.steps es (PM.started t0) in
         let c' := PM.handleScoring w t c in
         PM.gameState c = PM.PLAYING ->
         PM.gameState c' <> PM.GAME_OVER ->
         (deuce (PM.player (PM.scores c')) (PM.ai (PM.scores c')) ->
          PM.server c' = PM.otherSide (PM.server c))
         /\ (~ deuce (PM.player (PM.scores c')) (PM.ai (PM.scores c')) ->
             ((PM.servesCount c + 1 = 2)%Z ->
              PM.server c' = PM.otherSide (PM.server c)
              /\ PM.servesCount c' = 0%Z)
             /\ ((PM.servesCount c + 1 <> 2)%Z ->
                 PM.server c' = PM.server c
                 /\ PM.servesCount c' = 1%Z)))
  /\ (forall t t0 c,
         PM.servers [PM.Player; PM.Player; PM.Ai; PM.Ai; PM.Player] t
           (PM.resetEffect t0 c)
         = [PM.Player; PM.Player; PM.Ai; PM.Ai; PM.Player]).
Proof.
  split; [|split; [|split]].
  - intros r frames s w d Hr Hg s'. subst s'.
    pose proof (FPF.MatchInv_run _ _ _ (FPF.MatchInv_initial r) Hr) as Hi.
    pose proof (FPF.scorePoint_match w d s) as Hm. cbv zeta in Hm.
    unfold FP.MatchInv, FP.matchOf in Hi, Hm.
    destruct Hi as (Hp & Ha & Hn & Hd & _).
    assert (Hmono : deuce (FP.player (FP.scoresRef s)) (FP.ai (FP.scoresRef s))
                    -> deuce (FP.player (FP.scored w (FP.scoresRef s)))
                         (FP.ai (FP.scored w (FP.scoresRef s))))
      by (unfold deuce; destruct w; cbn; lia).
    destruct (FP.wins _) eqn:Ew.
    + injection Hm as Hm _ _ _. congruence.
    + destruct (FP.isDeuce _) eqn:Ed.
      * apply FPF.isDeuce_iff in Ed.
        injection Hm as _ -> -> ->. tauto.
      * assert (Hnd : ~ deuce (FP.player (FP.scored w (FP.scoresRef s)))
                        (FP.ai (FP.scored w (FP.scoresRef s)))).
        { intros Hx. apply FPF.isDeuce_iff in Hx. congruence. }
        assert (Hn1 : (FP.servesCountRef s <= 1)%Z) by tauto.
        destruct (_ >=? 2)%Z eqn:En.
        -- rewrite Z.geb_leb, Z.leb_le in En.
           injection Hm as _ -> -> ->. repeat split; intros; try tauto; lia.
        -- rewrite Z.geb_leb, Z.leb_gt in En.
           injection Hm as _ -> -> ->. repeat split; intros; try tauto; lia.
  - intros d s. reflexivity.
  - intros t0 es w t c c' Hg Hng. subst c'.
    destruct (PMF.steps_inv es _ (PMF.started_inv t0)) as (Hi & _).
    fold c in Hi.
    pose proof (PMF.handleScoring_match w t c) as Hm.
    unfold PM.MatchInv, PM.matchOf, PM.pointMatch in Hi, Hm.
    destruct Hi as (Hp & Ha & Hn & _).
    destruct (PM.wins _) eqn:Ew.
    + injection Hm as Hm _ _ _. congruence.
    + destruct (PM.isDeuce _) eqn:Ed.
      * apply PMF.canvas_isDeuce_iff in Ed.
        destruct (_ >=? 1)%Z eqn:En.
        -- injection Hm as _ -> -> ->. tauto.
        -- rewrite Z.geb_leb, Z.leb_gt in En. lia.
      * assert (Hnd : ~ deuce (PM.player (PM.scored w (PM.scores c)))
                        (PM.ai (PM.scored w (PM.scores c)))).
        { intros Hx. apply PMF.canvas_isDeuce_iff in Hx. congruence. }
        destruct (_ >=? 2)%Z eqn:En.
        -- rewrite Z.geb_leb, Z.leb_le in En.
           injection Hm as _ -> -> ->. repeat split; intros; try tauto; lia.
        -- rewrite Z.geb_leb, Z.leb_gt in En.
           injection Hm as _ -> -> ->. repeat split; intros; try tauto; lia.
  - intros t t0 c. reflexivity.
Qed.

Lemma serve_rotation_rule_witness :
  (FP.serveTurnRef
     (FP.scorePoint FP.PLAYER fpNoDraw (FP.onloadeddata (FP.initial 0)))
   = FP.PLAYER
   /\ FP.servesCountRef
        (FP.scorePoint FP.PLAYER fpNoDraw (FP.onloadeddata (FP.initial 0)))
      = 1%Z)
  /\ (PM.server
        (PM.handleScoring PM.Ai 7 (PM.steps pmIntoPlay (PM.started 0)))
      = PM.Player
      /\ PM.servesCount
           (PM.handleScoring PM.Ai 7 (PM.steps pmIntoPlay (PM.started 0)))
         = 1%Z).
Proof.
  destruct serve_rotation_rule as (H1 & _ & H3 & _).
  split.
  - refine (proj2 (proj2 (H1 0 [] _ FP.PLAYER fpNoDraw eq_refl _) _) _).
    + cbn. discriminate.
    + cbn. unfold deuce. lia.
    + cbn. lia.
  - refine (proj2 (proj2 (H3 0 pmIntoPlay PM.Ai 7 eq_refl _) _) _).
    + cbn. discriminate.
    + cbn. unfold deuce. lia.
    + cbn. lia.
Defined.

(** ** C3 *)

Lemma fpPlay_match (ws : list FP.ServeTurn) (d : FP.Draws) (s : FP.Engine) :
  FP.matchOf (fpPlay ws d s)
  = fold_left (fun m w => FP.pointMatch w m) ws (FP.matchOf s).
Proof.
  revert s. induction ws as [|w ws IH]; intros s; [reflexivity|].
  cbn [fpPlay fold_left]. fold (fpPlay ws d (FP.scorePoint w d s)).
  rewrite IH, FPF.scorePoint_pointMatch. reflexivity.
Qed.

(** C3, on the code.  In Forest Pong the point that makes the score 10-10,
    played from a new match, changes the server and leaves the
    consecutive-serve counter at 2: the deuce branch of [scorePoint] switches
    the server without resetting the counter.  Below deuce [scorePoint]
    resets the counter with every change of server, and [handleScoring] of
    Pong Motion resets it with every change of server, deuce included. *)
Theorem deuce_switch_keeps_counter :
  (forall d s,
      let s19 := fpPlay toTenNine d (FP.startGame d s) in
      let s20 := FP.scorePoint FP.AI d s19 in
      FP.scoresRef s20 = FP.mkScores 10 10
      /\ FP.gameStateRef s20 = FP.SERVING
      /\ FP.serveTurnRef s20 <> FP.serveTurnRef s19
      /\ FP.servesCountRef s20 = 2%Z)
  /\ (forall w d s,
         let s' := FP.scorePoint w d s in
         ~ deuce (FP.player (FP.scoresRef s')) (FP.ai (FP.scoresRef s')) ->
         FP.serveTurnRef s' <> FP.serveTurnRef s ->
         FP.servesCountRef s' = 0%Z)
  /\ (forall w t c,
         PM.server (PM.handleScoring w t c) <> PM.server c ->
         PM.servesCount (PM.handleScoring w t c) = 0%Z).
Proof.
  split; [|split].
  - intros d s. cbv zeta.
    pose proof (fpPlay_match toTenNine d (FP.startGame d s)) as H19.
    rewrite FPF.startGame_match in H19.
    remember (fpPlay toTenNine d (FP.startGame d s)) as s19 eqn:E19.
    clear E19.
    pose proof (FPF.scorePoint_pointMatch FP.AI d s19) as H20.
    rewrite H19 in H20.
    remember (FP.scorePoint FP.AI d s19) as s20 eqn:E20. clear E20.
    assert (C19 : fold_left (fun m w => FP.pointMatch w m) toTenNine
                    (FP.SERVING, FP.mkScores 0 0, FP.PLAYER, 0%Z)
                  = (FP.SERVING, FP.mkScores 10 9, FP.AI, 1%Z))
      by (vm_compute; reflexivity).
    rewrite C19 in H19, H20.
    assert (C20 : FP.pointMatch FP.AI
                    (FP.SERVING, FP.mkScores 10 9, FP.AI, 1%Z)
                  = (FP.SERVING, FP.mkScores 10 10, FP.PLAYER, 2%Z))
      by (vm_compute; reflexivity).
    rewrite C20 in H20. unfold FP.matchOf in H19, H20.
    injection H19 as _ _ -> _. injection H20 as -> -> -> ->.
    repeat split. discriminate.
  - intros w d s s'. subst s'.
    pose proof (FPF.scorePoint_match w d s) as Hm. cbv zeta in Hm.
    unfold FP.matchOf in Hm.
    destruct (FP.wins _); [injection Hm as _ _ -> _; tauto|].
    destruct (FP.isDeuce _) eqn:Ed.
    + apply FPF.isDeuce_iff in Ed. injection Hm as _ -> _ _. tauto.
    + destruct (_ >=? 2)%Z; injection Hm as _ _ -> ->; tauto.
  - intros w t c.
    pose proof (PMF.handleScoring_match w t c) as Hm.
    unfold PM.matchOf, PM.pointMatch in Hm.
    destruct (PM.wins _); [injection Hm as _ _ -> _; tauto|].
    destruct (_ >=? _)%Z; injection Hm as _ _ -> ->; tauto.
Qed.

Lemma deuce_switch_keeps_counter_witness :
  FP.servesCountRef
    (FP.scorePoint FP.AI fpNoDraw (fpSample FP.PLAYING 3 4 FP.AI 1)) = 0%Z
  /\ FP.serveTurnRef
       (FP.scorePoint FP.AI fpNoDraw (fpSample FP.PLAYING 3 4 FP.AI 1))
     = FP.PLAYER.
Proof.
  destruct deuce_switch_keeps_counter as (_ & H2 & _).
  split; [|reflexivity].
  apply (H2 FP.AI fpNoDraw (fpSample FP.PLAYING 3 4 FP.AI 1)).
  - cbn. unfold deuce. lia.
  - cbn. discriminate.
Defined.

(** ** C4 *)

Lemma capCanvas_tick :
  PM.ball (PM.physics (PM.update capInput capCanvas))
  = PM.mkBall 400 1158 0 (-25) 25.
Proof.
  rewrite PMF.update_unfold. unfold capCanvas at 1 2. pm_fields.
  assert (E1 : PM.paddleMoved capInput capCanvas = capCanvas).
  { unfold PM.paddleMoved, capCanvas, capInput. pm_fields.
    unfold PM.GAME_WIDTH, PM.PADDLE_WIDTH. rewrite clamp_id by lra.
    do 2 f_equal. lra. }
  rewrite E1. unfold PM.beforeScoring.
  assert (E2 : PM.wallCollisions (PM.moveBall capCanvas)
               = PM.set_ball (PM.mkBall 400 1165 0 25 25) capCanvas).
  { unfold PM.wallCollisions, PM.moveBall, capCanvas. pm_fields.
    unfold PM.GAME_WIDTH, PM.BALL_RADIUS. Rtests. pm_fields.
    do 3 f_equal; lra. }
  rewrite E2.
  assert (E3 : PM.aiMovement
                 (PM.set_ball (PM.mkBall 400 1165 0 25 25) capCanvas)
               = PM.set_ball (PM.mkBall 400 1165 0 25 25) capCanvas).
  { unfold PM.aiMovement, capCanvas. pm_fields.
    unfold PM.GAME_WIDTH, PM.PADDLE_WIDTH. Rtests. pm_fields.
    rewrite clamp_id by lra. reflexivity. }
  rewrite E3.
  assert (E4 : PM.playerPaddleCollision
                 (PM.set_ball (PM.mkBall 400 1165 0 25 25) capCanvas)
               = PM.set_ball (PM.mkBall 400 1158 0 (-25) 25) capCanvas).
  { unfold PM.playerPaddleCollision, PM.inPlayerBand, PM.overPaddle,
      capCanvas. pm_fields.
    unfold PM.GAME_HEIGHT, PM.PADDLE_HEIGHT, PM.PADDLE_WIDTH, PM.BALL_RADIUS.
    Rtests. pm_fields. unfold PM.paddleHit. pm_fields.
    unfold PM.PADDLE_WIDTH.
    replace ((400 - (340 + 120 / 2)) / (120 / 2) * (PI / 4)) with 0 by lra.
    rewrite sin_0, cos_0.
    replace (Rmin (25 + 1) 25) with 25
      by (unfold Rmin; destruct (Rle_dec (25 + 1) 25); lra).
    do 3 f_equal; lra. }
  rewrite E4.
  assert (E5 : PM.aiPaddleCollision
                 (PM.set_ball (PM.mkBall 400 1158 0 (-25) 25) capCanvas)
               = PM.set_ball (PM.mkBall 400 1158 0 (-25) 25) capCanvas).
  { unfold PM.aiPaddleCollision, PM.inAiBand, capCanvas. pm_fields.
    unfold PM.PADDLE_HEIGHT, PM.BALL_RADIUS. Rtests. reflexivity. }
  rewrite E5. unfold PM.scoring, capCanvas. pm_fields.
  unfold PM.GAME_HEIGHT. Rtests. reflexivity.
Qed.

(** C4 fails in Pong Motion: a hit of the player's paddle at full
    speed leaves the magnitude of the vertical velocity at 25, because the
    speed is capped by [Math.min(speed + 1, 25)]. *)
Lemma canvas_hit_at_speed_cap :
  let b := PM.ball (PM.physics capCanvas) in
  let b' := PM.ball (PM.physics (PM.update capInput capCanvas)) in
  PM.gameState capCanvas = PM.PLAYING
  /\ PM.b_dy b = 25
  /\ PM.b_dy b' = -25
  /\ ~ Rabs (PM.b_dy b') > Rabs (PM.b_dy b).
Proof.
  cbv zeta. rewrite capCanvas_tick.
  change (PM.b_dy (PM.ball (PM.physics capCanvas))) with 25. cbn [PM.b_dy].
  split; [reflexivity|]. split; [reflexivity|]. split; [reflexivity|].
  unfold Rabs. destruct (Rcase_abs (-25)); destruct (Rcase_abs 25); lra.
Qed.

Lemma bounce_dy (b : FP.Ball) (paddle y' : R) :
  Rabs (FP.b_dy (FP.bounce b paddle y')) = 1.05 * Rabs (FP.b_dy b).
Proof.
  unfold FP.bounce. cbn [FP.b_dy]. unfold Rabs.
  destruct (Rcase_abs (FP.b_dy b)); destruct (Rcase_abs _); lra.
Qed.

Lemma hit_moving (b : FP.Ball) (paddle : R) :
  FP.hitsAIPaddle b paddle = true \/ FP.hitsPlayerPaddle b paddle = true ->
  FP.b_dy b <> 0.
Proof.
  unfold FP.hitsAIPaddle, FP.hitsPlayerPaddle.
  rewrite !andb_true_iff.
  intros [[[[H _] _] _] | [[[H _] _] _]];
    [apply Rltb_true_iff in H | apply Rgtb_true_iff in H]; lra.
Qed.

Lemma rally_dy (hits : list (R * R)) (b : FP.Ball) :
  Rabs (FP.b_dy (rally hits b)) = 1.05 ^ List.length hits * Rabs (FP.b_dy b).
Proof.
  revert b. induction hits as [|h hits IH]; intros b.
  - cbn. lra.
  - cbn [rally fold_left List.length]. fold (rally hits (FP.bounce b (fst h) (snd h))).
    rewrite IH, bounce_dy. cbn [pow]. lra.
Qed.

Lemma sideWalls_moveBall_dy (b : FP.Ball) :
  FP.b_dy (FP.sideWalls (FP.moveBall b)) = FP.b_dy b.
Proof. unfold FP.sideWalls. destruct (_ || _); reflexivity. Qed.

Lemma tick_dy (d : FP.Draws) (s : FP.Engine) :
  Rabs (FP.b_dy (FP.ball (FP.playerPaddleCollision d (FP.atPlayerCheck s))))
  = 1.05 ^ hitsInTick s * Rabs (FP.b_dy (FP.ball s)).
Proof.
  unfold hitsInTick.
  set (s1 := FP.set_ball (FP.sideWalls (FP.moveBall (FP.ball s))) s).
  assert (H1 : Rabs (FP.b_dy (FP.ball s1)) = Rabs (FP.b_dy (FP.ball s)))
    by (subst s1; cbn [FP.ball FP.set_ball];
        rewrite sideWalls_moveBall_dy; reflexivity).
  assert (H2 : Rabs (FP.b_dy (FP.ball (FP.atPlayerCheck s)))
               = 1.05 ^ (if FP.hitsAIPaddle (FP.ball s1) (FP.paddleAIX s1)
                         then 1 else 0)
                 * Rabs (FP.b_dy (FP.ball s))).
  { unfold FP.atPlayerCheck. fold s1. unfold FP.aiPaddleCollision.
    destruct (FP.hitsAIPaddle _ _).
    - cbn [FP.ball FP.set_ball]. rewrite bounce_dy, H1. cbn. lra.
    - rewrite H1. cbn. lra. }
  unfold FP.playerPaddleCollision.
  destruct (FP.hitsPlayerPaddle _ _).
  - cbn [FP.ball FP.set_ball FP.set_aiErrorOffset]. rewrite bounce_dy, H2.
    rewrite Nat.add_1_r. cbn [pow]. lra.
  - rewrite H2, Nat.add_0_r. reflexivity.
Qed.

Lemma paddleHit_capped (paddle sgn y' : R) (b : PM.BallState) :
  Rabs sgn = 1 -> 0 <= PM.speed b ->
  PM.speed (PM.paddleHit paddle sgn y' b) = Rmin (PM.speed b + 1) 25
  /\ Rabs (PM.b_dy (PM.paddleHit paddle sgn y' b)) <= 25.
Proof.
  intros Hs Hb. unfold PM.paddleHit. cbn [PM.speed PM.b_dy].
  split; [reflexivity|].
  set (a := (PM.b_x b - (paddle + PM.PADDLE_WIDTH / 2))
            / (PM.PADDLE_WIDTH / 2) * (PI / 4)).
  assert (Hm : 0 <= Rmin (PM.speed b + 1) 25 <= 25).
  { unfold Rmin. destruct (Rle_dec _ _); lra. }
  rewrite !Rabs_mult, Hs, (Rabs_pos_eq (Rmin _ _)) by tauto.
  pose proof (COS_bound a) as Hc.
  assert (Ha : 0 <= Rabs (cos a) <= 1)
    by (split; [apply Rabs_pos | apply Rabs_le; lra]).
  nra.
Qed.

Lemma scoring_stays_playing (d : FP.Draws) (s : FP.Engine) :
  FP.gameStateRef (FP.scoring d s) = FP.PLAYING -> FP.scoring d s = s.
Proof.
  assert (Hpt : forall w, FP.gameStateRef (FP.scorePoint w d s) <> FP.PLAYING).
  { intros w Hg. pose proof (FPF.scorePoint_match w d s) as Hm.
    cbv zeta in Hm. unfold FP.matchOf in Hm. rewrite Hg in Hm.
    destruct (FP.wins _); [discriminate|].
    destruct (FP.isDeuce _); [discriminate|].
    destruct (_ >=? 2)%Z; discriminate. }
  unfold FP.scoring.
  destruct (Rltb _ 0); [intros Hg; destruct (Hpt _ Hg)|].
  destruct (Rgtb _ _); [intros Hg; destruct (Hpt _ Hg) | reflexivity].
Qed.

(** C4, amended.  In Forest Pong every paddle hit multiplies the magnitude
    of the ball's vertical velocity by exactly 1.05, so it strictly
    increases; a tick of active play that scores no point leaves it
    multiplied by 1.05 to the number of hits in the tick; after N hits it is
    1.05^N times the initial magnitude, strictly increasing in N and
    exceeding every bound for N large enough: there is no cap.  In Pong
    Motion a paddle hit instead sets the ball speed to
    [min(speed + 1, 25)], and the magnitude of the vertical velocity after a
    hit is at most 25. *)
Theorem forest_pong_hits_speed_up :
  (forall b paddle y',
      FP.hitsAIPaddle b paddle = true \/ FP.hitsPlayerPaddle b paddle = true ->
      Rabs (FP.b_dy (FP.bounce b paddle y')) = 1.05 * Rabs (FP.b_dy b)
      /\ Rabs (FP.b_dy b) < Rabs (FP.b_dy (FP.bounce b paddle y')))
  /\ (forall d s,
         FP.gameStateRef s = FP.PLAYING ->
         FP.gameStateRef (FP.ballPhysics d s) = FP.PLAYING ->
         Rabs (FP.b_dy (FP.ball (FP.ballPhysics d s)))
         = 1.05 ^ hitsInTick s * Rabs (FP.b_dy (FP.ball s)))
  /\ (forall hits b,
         Rabs (FP.b_dy (rally hits b))
         = 1.05 ^ List.length hits * Rabs (FP.b_dy b))
  /\ (forall hits hits' b,
         FP.b_dy b <> 0 ->
         (List.length hits < List.length hits')%nat ->
         Rabs (FP.b_dy (rally hits b)) < Rabs (FP.b_dy (rally hits' b)))
  /\ (forall b bound,
         FP.b_dy b <> 0 ->
         exists N, forall hits,
             (N <= List.length hits)%nat ->
             bound < Rabs (FP.b_dy (rally hits b)))
  /\ (forall paddle sgn y' b,
         Rabs sgn = 1 -> 0 <= PM.speed b ->
         PM.speed (PM.paddleHit paddle sgn y' b) = Rmin (PM.speed b + 1) 25
         /\ Rabs (PM.b_dy (PM.paddleHit paddle sgn y' b)) <= 25).
Proof.
  split; [|split; [|split; [|split; [|split]]]].
  - intros b paddle y' Hh. apply hit_moving in Hh.
    rewrite bounce_dy. split; [reflexivity|].
    pose proof (Rabs_pos_lt _ Hh). lra.
  - intros d s Hg Hg'. unfold FP.ballPhysics in *. rewrite Hg in *.
    fold (FP.atPlayerCheck s) in *.
    rewrite (scoring_stays_playing _ _ Hg'). apply tick_dy.
  - exact rally_dy.
  - intros hits hits' b Hb Hlt. rewrite !rally_dy.
    apply Rmult_lt_compat_r; [apply Rabs_pos_lt, Hb|].
    apply Rlt_pow; [lra | exact Hlt].
  - intros b bound Hb.
    pose proof (Rabs_pos_lt _ Hb) as Hpos.
    destruct (Pow_x_infinity 1.05 ltac:(rewrite Rabs_pos_eq; lra)
                (bound / Rabs (FP.b_dy b) + 1)) as (N & HN).
    exists N. intros hits Hlen. rewrite rally_dy.
    specialize (HN (List.length hits) Hlen).
    rewrite Rabs_pos_eq in HN by (apply pow_le; lra).
    apply Rge_le in HN.
    apply (Rmult_le_compat_r (Rabs (FP.b_dy b))) in HN; [|lra].
    replace ((bound / Rabs (FP.b_dy b) + 1) * Rabs (FP.b_dy b))
      with (bound + Rabs (FP.b_dy b)) in HN by (field; lra).
    lra.
  - exact paddleHit_capped.
Qed.

Lemma forest_pong_hits_speed_up_witness :
  Rabs (FP.b_dy (FP.bounce (FP.mkBall 640 675 0 7 7 (-1) 0) 640 669))
  = 1.05 * Rabs 7
  /\ PM.speed (PM.paddleHit 340 (-1) 1158 (PM.mkBall 400 1165 0 25 25))
     = Rmin (25 + 1) 25.
Proof.
  destruct forest_pong_hits_speed_up as (H1 & _ & _ & _ & _ & H6).
  split.
  - apply (H1 (FP.mkBall 640 675 0 7 7 (-1) 0) 640 669).
    right. unfold FP.hitsPlayerPaddle.
    cbv [FP.b_x FP.b_y FP.b_dy].
    unfold FP.CANVAS_HEIGHT, FP.WALL_OFFSET, FP.PADDLE_HEIGHT,
      FP.PADDLE_WIDTH, FP.BALL_RADIUS.
    replace (Rabs (640 - 640)) with 0
      by (unfold Rabs; destruct (Rcase_abs (640 - 640)); lra).
    Rtests. reflexivity.
  - apply (H6 340 (-1) 1158 (PM.mkBall 400 1165 0 25 25)).
    + unfold Rabs. destruct (Rcase_abs (-1)); lra.
    + cbn [PM.speed]. lra.
Defined.

(** ** C5 *)

(** C5 fails on the ranges: the draw 0 after a hit of the player
    gives an offset of magnitude 40, larger than every offset a serve can
    draw, so the range at serve entry is not the wider one. *)
Lemma serve_error_range_not_wider :
  exists r,
    0 <= r < 1
    /\ forall r', 0 <= r' < 1 ->
                  Rabs (FP.serveError r') < Rabs (FP.hitError r).
Proof.
  exists 0. split; [lra|]. intros r' Hr.
  unfold FP.serveError, FP.hitError, Rabs.
  destruct (Rcase_abs _); destruct (Rcase_abs _); lra.
Qed.

(** C5, amended.  A tick changes the opponent's cached error offset only
    by entering a serve phase during the tick (then it is the serve draw) or
    by a contact of the player's paddle with the ball during the tick (then
    it is the hit draw); in every other tick it keeps its value.  The serve
    draw lies in [-25, 25) and the hit draw in [-40, 40): the range at serve
    entry is the narrower one, every serve offset being a possible hit
    offset. *)
Theorem error_offset_redrawn_only_at_serve_or_hit :
  forall lm d s s',
    FP.update lm d s = Some s' ->
    0 <= FP.rServeErr d < 1 ->
    0 <= FP.rHitErr d < 1 ->
    (FP.aiErrorOffset s' = FP.aiErrorOffset s
     \/ (FP.aiErrorOffset s' = FP.serveError (FP.rServeErr d)
         /\ FP.emitted (FP.SetGameState FP.SERVING) s s'
         /\ -25 <= FP.aiErrorOffset s' < 25)
     \/ (FP.aiErrorOffset s' = FP.hitError (FP.rHitErr d)
         /\ (exists s1, FP.processInput lm d s = Some s1
                        /\ FP.playerContact (FP.aiLogic s1))
         /\ -40 <= FP.aiErrorOffset s' < 40))
    /\ (forall r, 0 <= r < 1 ->
                  -25 <= FP.serveError r < 25
                  /\ -40 <= FP.hitError r < 40
                  /\ exists r', 0 <= r' < 1
                                /\ FP.hitError r' = FP.serveError r).
Proof.
  intros lm d s s' Hu Hs Hh. split.
  - destruct (FPF.update_offset _ _ _ _ Hu) as [H | [(H & He) | (H & Hc)]].
    + left. exact H.
    + right. left. repeat split; try assumption;
        rewrite H; unfold FP.serveError; lra.
    + right. right. repeat split; try assumption;
        rewrite H; unfold FP.hitError; lra.
  - intros r Hr. unfold FP.serveError, FP.hitError.
    repeat split; try lra.
    exists (0.5 + (r - 0.5) * 0.625). split; lra.
Qed.

Lemma error_offset_redrawn_only_at_serve_or_hit_witness :
  exists s',
    FP.update (Some closedHand) fpNoDraw (fpSample FP.GAME_OVER 11 8 FP.AI 0)
    = Some s'
    /\ (FP.aiErrorOffset s' = 0
        \/ FP.aiErrorOffset s' = FP.serveError 0.5
        \/ FP.aiErrorOffset s' = FP.hitError 0.5).
Proof.
  destruct (FPF.update_defined (Some closedHand) fpNoDraw
              (fpSample FP.GAME_OVER 11 8 FP.AI 0) eq_refl) as (s' & Hu).
  exists s'. split; [exact Hu|].
  destruct (error_offset_redrawn_only_at_serve_or_hit _ _ _ _ Hu)
    as ([H | [(H & _) | (H & _)]] & _);
    try (cbn; lra); auto.
Defined.

(** ** C6 *)

(** C6. For every sequence of ticks of Forest Pong whose hand frames are
    well formed, wherever the fingertip lies, the loop reaches a state, and
    in it both paddles lie inside the field: each paddle's centre is between
    half a paddle width and the field width minus half a paddle width.  The
    same holds in every state Pong Motion reaches by animation frames and
    App events, for any value of the paddle prop.  (Forest Pong stores the
    centres; Pong Motion stores the left edges.) *)
Theorem paddles_stay_in_field :
  forall r frames t0 es,
    Forall FP.wellFormedFrame frames ->
    (exists s,
        FP.run frames (FP.onloadeddata (FP.initial r)) = Some s
        /\ FP.PADDLE_WIDTH / 2 <= FP.paddlePlayerX s
             <= FP.CANVAS_WIDTH - FP.PADDLE_WIDTH / 2
        /\ FP.PADDLE_WIDTH / 2 <= FP.paddleAIX s
             <= FP.CANVAS_WIDTH - FP.PADDLE_WIDTH / 2)
    /\ (let c := PM.steps es (PM.started t0) in
        PM.PADDLE_WIDTH / 2
          <= PM.paddleX (PM.physics c) + PM.PADDLE_WIDTH / 2
          <= PM.GAME_WIDTH - PM.PADDLE_WIDTH / 2
        /\ PM.PADDLE_WIDTH / 2
             <= PM.aiPaddleX (PM.physics c) + PM.PADDLE_WIDTH / 2
             <= PM.GAME_WIDTH - PM.PADDLE_WIDTH / 2).
Proof.
  intros r frames t0 es Hw. split.
  - destruct (FPF.run_defined frames (FP.onloadeddata (FP.initial r)) Hw)
      as (s & Hr).
    exists s. split; [exact Hr|].
    apply (FPF.run_PaddleInv frames (FP.onloadeddata (FP.initial r)) s);
      [|exact Hr].
    exact (FPF.initial_PaddleInv r).
  - destruct (PMF.steps_inv es _ (PMF.started_inv t0))
      as (_ & Hp & Ha & _).
    cbv zeta. unfold PM.PADDLE_WIDTH, PM.GAME_WIDTH in *. lra.
Qed.

Lemma paddles_stay_in_field_witness :
  exists s,
    FP.run [(Some farHand, fpNoDraw)] (FP.onloadeddata (FP.initial 0.5))
    = Some s
    /\ FP.PADDLE_WIDTH / 2 <= FP.paddlePlayerX s
         <= FP.CANVAS_WIDTH - FP.PADDLE_WIDTH / 2.
Proof.
  assert (Hw : Forall FP.wellFormedFrame [(Some farHand, fpNoDraw)])
    by (constructor; [reflexivity | constructor]).
  destruct (paddles_stay_in_field 0.5 _ 0 [] Hw) as ((s & Hr & Hp & _) & _).
  exists s. split; [exact Hr | exact Hp].
Defined.

(** ** C7 *)






(** *** The gesture classifier of [visionService.ts] *)

Lemma hand_landmark_defined (l : list PM.HandLandmark) (i : nat) :
  List.length l = 21%nat -> (i < 21)%nat ->
  nth_error l i = Some (nth i l (PM.mkLandmark 0 0 0)).
Proof.
  intros Hl Hi. apply nth_error_nth'. lia.
Qed.

(** On a frame of 21 landmarks [detectGesture] answers FIST exactly when
    the four fingers are curled, and INDEX_BENT exactly when the index is
    curled and another finger is not: the thresholds scale with the hand. *)
Lemma detectGesture_fist (l : list PM.HandLandmark) :
  List.length l = 21%nat ->
  (PM.detectGesture l = Some PM.FIST <->
   fingerCurled l 8 5 /\ fingerCurled l 12 9
   /\ fingerCurled l 16 13 /\ fingerCurled l 20 17)
  /\ (PM.detectGesture l = Some PM.INDEX_BENT <->
      fingerCurled l 8 5
      /\ ~ (fingerCurled l 12 9 /\ fingerCurled l 16 13
            /\ fingerCurled l 20 17)).
Proof.
  intros Hl. unfold PM.detectGesture, fingerCurled.
  rewrite !(hand_landmark_defined l _ Hl) by lia. cbn [bind].
  set (o := PM.mkLandmark 0 0 0).
  rewrite <- !Rltb_true_iff.
  destruct (Rltb (PM.dist (nth 8 l o) (nth 5 l o)) _);
    destruct (Rltb (PM.dist (nth 12 l o) (nth 9 l o)) _);
    destruct (Rltb (PM.dist (nth 16 l o) (nth 13 l o)) _);
    destruct (Rltb (PM.dist (nth 20 l o) (nth 17 l o)) _);
    cbn; split; split; intros H; try discriminate; try reflexivity;
    intuition discriminate.
Qed.

(** ** C8 *)

Lemma run_app (fs gs : list FP.Frame) (s : FP.Engine) :
  FP.run (fs ++ gs) s = (s' <- FP.run fs s ;; FP.run gs s').
Proof.
  revert s. induction fs as [|[lm d] fs IH]; intros s; [reflexivity|].
  cbn. destruct (FP.update lm d s) as [s1|]; cbn; [apply IH | reflexivity].
Qed.

Lemma trailingAbsent_snoc (fs : list FP.Frame) (f : FP.Frame) :
  trailingAbsent (fs ++ [f]) =
    if isAbsent f then S (trailingAbsent fs) else 0%nat.
Proof. unfold trailingAbsent. rewrite rev_app_distr. reflexivity. Qed.

(** The debounce counter counts the consecutive absent frames. *)
Lemma run_missing (frames : list FP.Frame) (s0 s : FP.Engine) :
  FP.missingHandFramesRef s0 = 0%Z ->
  FP.run frames s0 = Some s ->
  FP.missingHandFramesRef s = Z.of_nat (trailingAbsent frames).
Proof.
  intros H0. revert s.
  induction frames as [|[lm d] fs IH] using rev_ind; intros s Hr.
  - injection Hr as <-. exact H0.
  - rewrite run_app in Hr. apply bind_Some in Hr.
    destruct Hr as (s1 & H1 & Hr). cbn in Hr.
    apply bind_Some in Hr. destruct Hr as (s2 & Hu & Hr).
    injection Hr as <-. apply IH in H1.
    rewrite trailingAbsent_snoc. pose proof (FPF.update_hand _ _ _ _ Hu) as Hh.
    destruct lm as [l|]; cbn.
    + tauto.
    + destruct Hh as (Hh & _). rewrite Hh, H1. lia.
Qed.

(** C8. Along every sequence of ticks that starts with the counter at 0,
    the counter of missing frames is the number of consecutive absent frames
    up to and including the current tick.  A tick with a hand frame sets it
    to 0 and leaves the hand detected, and when the hand was not detected
    before, that tick calls [setHandStatus("Hand Detected")].  The hand is
    declared lost (detected before the tick, not after) only in a tick
    without a frame that brings the count above 30, and every such tick
    declares it. *)
Theorem hand_lost_after_thirty_absent_frames :
  forall frames s0 s lm d s',
    FP.missingHandFramesRef s0 = 0%Z ->
    FP.run frames s0 = Some s ->
    FP.update lm d s = Some s' ->
    FP.missingHandFramesRef s'
    = Z.of_nat (trailingAbsent (frames ++ [(lm, d)]))
    /\ (lm <> None ->
        FP.missingHandFramesRef s' = 0%Z
        /\ FP.handDetectedRef s' = true
        /\ (FP.handDetectedRef s = false ->
            FP.emitted (FP.SetHandStatus "Hand Detected") s s'))
    /\ (FP.handDetectedRef s = true -> FP.handDetectedRef s' = false ->
        lm = None
        /\ (30 < trailingAbsent (frames ++ [(lm, d)]))%nat
        /\ FP.emitted (FP.SetHandStatus "Lost Tracking - Raise Hand") s s')
    /\ (lm = None -> (30 < trailingAbsent (frames ++ [(lm, d)]))%nat ->
        FP.handDetectedRef s' = false).
Proof.
  intros frames s0 s lm d s' H0 Hr Hu.
  assert (Hc : FP.missingHandFramesRef s'
               = Z.of_nat (trailingAbsent (frames ++ [(lm, d)]))).
  { apply (run_missing _ s0 s' H0). rewrite run_app, Hr. cbn.
    rewrite Hu. reflexivity. }
  pose proof (run_missing _ _ _ H0 Hr) as Hs.
  pose proof (FPF.update_hand _ _ _ _ Hu) as Hh.
  rewrite trailingAbsent_snoc in *. cbn [isAbsent fst] in *.
  split; [exact Hc|].
  destruct lm as [l|].
  - destruct Hh as (H1 & H2 & H3).
    repeat split; auto; try congruence; try discriminate; lia.
  - destruct Hh as (H1 & H2 & H3).
    split; [congruence|]. split.
    + intros Hd Hd'. rewrite Hd in H2.
      destruct (_ >? 30)%Z eqn:E; [|congruence].
      rewrite Z.gtb_ltb, Z.ltb_lt in E.
      repeat split; [lia|]. apply H3; [exact Hd | lia].
    + intros _ Hlt. rewrite H2.
      destruct (_ >? 30)%Z eqn:E; [reflexivity|].
      rewrite Z.gtb_ltb, Z.ltb_ge in E. lia.
Qed.

Lemma hand_lost_after_thirty_absent_frames_witness :
  exists s s',
    FP.run (repeat (None, fpNoDraw) 30) (fpSample FP.MENU 0 0 FP.PLAYER 0)
    = Some s
    /\ FP.update None fpNoDraw s = Some s'
    /\ FP.handDetectedRef s = true
    /\ FP.handDetectedRef s' = false
    /\ FP.missingHandFramesRef s' = 31%Z.
Proof.
  eexists. eexists. split; [reflexivity|]. split; [reflexivity|].
  split; [reflexivity|].
  destruct (hand_lost_after_thirty_absent_frames
              (repeat (None, fpNoDraw) 30) (fpSample FP.MENU 0 0 FP.PLAYER 0)
              _ None fpNoDraw _ eq_refl eq_refl eq_refl)
    as (Hc & _ & _ & Hl).
  split.
  - apply Hl; [reflexivity|]. cbn. lia.
  - rewrite Hc. reflexivity.
Defined.

(** ** C9 *)

Lemma aiServing_waits (n : nat) (s s' : FP.Engine) :
  FP.gameStateRef s = FP.SERVING -> FP.serveTurnRef s = FP.AI ->
  FP.run (repeat (None, fpNoDraw) n) s = Some s' ->
  FP.gameStateRef s' = FP.SERVING /\ FP.serveTurnRef s' = FP.AI.
Proof.
  revert s. induction n as [|n IH]; intros s Hg Ht Hr.
  - injection Hr as <-. auto.
  - cbn [repeat FP.run] in Hr. apply bind_Some in Hr.
    destruct Hr as (s1 & Hu & Hr). apply (IH s1); [| |exact Hr].
    + pose proof (FPF.update_match_idle _ _ _ _ Hu) as Hm.
      unfold FP.matchOf in Hm. rewrite Hg, Ht in Hm.
      cbn [FP.inputMatch FP.idleMatch FP.phaseOf fst fpNoDraw
           FP.rAutoServe] in Hm.
      rewrite (proj2 (Rltb_false_iff 0.5 0.02)) in Hm by lra.
      specialize (Hm ltac:(discriminate)). congruence.
    + pose proof (FPF.update_match_idle _ _ _ _ Hu) as Hm.
      unfold FP.matchOf in Hm. rewrite Hg, Ht in Hm.
      cbn [FP.inputMatch FP.idleMatch FP.phaseOf fst fpNoDraw
           FP.rAutoServe] in Hm.
      rewrite (proj2 (Rltb_false_iff 0.5 0.02)) in Hm by lra.
      specialize (Hm ltac:(discriminate)). congruence.
Qed.

(** C9 fails in Forest Pong: no number of ticks bounds the wait for
    the opponent's serve.  With no hand in view and every draw equal to 0.5
    the engine is still in the serving phase after any number of ticks. *)
Lemma opponent_serve_has_no_time_bound :
  ~ exists N : nat,
      forall frames s',
        List.length frames = N ->
        FP.run frames aiServing = Some s' ->
        FP.gameStateRef s' <> FP.SERVING.
Proof.
  intros (N & H).
  assert (Hw : Forall FP.wellFormedFrame (repeat (None, fpNoDraw) N))
    by (apply Forall_forall; intros f Hf; apply repeat_spec in Hf;
        subst f; exact I).
  destruct (FPF.run_defined _ aiServing Hw) as (s' & Hr).
  apply (H _ s' (repeat_length _ N) Hr).
  apply (aiServing_waits N aiServing s' eq_refl eq_refl Hr).
Qed.

(** C9, amended.  In Pong Motion, while the opponent is the server and the
    ball waits to be served, a tick launches the ball exactly when more
    than 1500 ms have passed since the serve was set up, whatever the
    gesture; until then the tick keeps the serve and its timer.  In Forest
    Pong a tick of the serving phase with the opponent as server launches
    the ball exactly when the tick's random draw is below 0.02, whatever the
    hand does: no gesture is needed, and the delay is random. *)
Theorem opponent_serves_without_gesture :
  (forall i c,
      PM.gameState c = PM.PLAYING ->
      PM.isServing c = true ->
      PM.server c = PM.Ai ->
      (PM.now i - PM.serveTimer c > 1500 ->
       PM.isServing (PM.update i c) = false
       /\ PM.b_dy (PM.ball (PM.physics (PM.update i c))) = 12
       /\ PM.speed (PM.ball (PM.physics (PM.update i c))) = 12)
      /\ (~ PM.now i - PM.serveTimer c > 1500 ->
          PM.isServing (PM.update i c) = true
          /\ PM.server (PM.update i c) = PM.Ai
          /\ PM.gameState (PM.update i c) = PM.PLAYING
          /\ PM.serveTimer (PM.update i c) = PM.serveTimer c))
  /\ (forall lm d s s',
         FP.gameStateRef s = FP.SERVING ->
         FP.serveTurnRef s = FP.AI ->
         FP.update lm d s = Some s' ->
         (FP.rAutoServe d < 0.02 -> FP.gameStateRef s' = FP.PLAYING)
         /\ (~ FP.rAutoServe d < 0.02 ->
             FP.gameStateRef s' = FP.SERVING
             /\ FP.serveTurnRef s' = FP.AI)).
Proof.
  split.
  - intros i c Hg Hs Hv. rewrite PMF.update_unfold, Hg, Hs.
    unfold PM.serveLogic.
    change (PM.server (PM.paddleMoved i c)) with (PM.server c).
    rewrite Hv.
    change (PM.serveTimer (PM.set_ball _ (PM.set_aiPaddleX _
              (PM.paddleMoved i c)))) with (PM.serveTimer c).
    split; intros Ht.
    + rewrite (proj2 (Rgtb_true_iff _ _) Ht).
      unfold PM.launchBall. cbn. rewrite Hv. repeat split; lra.
    + rewrite (proj2 (Rgtb_false_iff _ _) Ht).
      cbn. auto.
  - intros lm d s s' Hg Ht Hu.
    pose proof (FPF.update_match_idle _ _ _ _ Hu) as Hm.
    unfold FP.matchOf in Hm. rewrite Hg, Ht in Hm.
    assert (Hi : forall det sc n,
               FP.inputMatch lm det (FP.SERVING, sc, FP.AI, n)
               = (FP.SERVING, sc, FP.AI, n))
      by (intros det sc n; destruct lm, det; reflexivity).
    rewrite Hi in Hm. specialize (Hm ltac:(discriminate)).
    cbn [FP.idleMatch] in Hm.
    split; intros Hr.
    + rewrite (proj2 (Rltb_true_iff _ _) Hr) in Hm. congruence.
    + rewrite (proj2 (Rltb_false_iff _ _) Hr) in Hm.
      split; congruence.
Qed.

Lemma opponent_serves_without_gesture_witness :
  PM.isServing
    (PM.update (PM.mkInput PM.UNKNOWN 0.5 1501 0.5)
       (PM.handleScoring PM.Player 0 (pmSample PM.PLAYING 1 0 PM.Player 1)))
  = false.
Proof.
  destruct opponent_serves_without_gesture as (H1 & _).
  refine (proj1 (proj1 (H1 (PM.mkInput PM.UNKNOWN 0.5 1501 0.5)
                          (PM.handleScoring PM.Player 0
                             (pmSample PM.PLAYING 1 0 PM.Player 1))
                          eq_refl eq_refl eq_refl) _)).
  cbn. lra.
Defined.

(** ** C10 *)

(** C10. Every entry into a new match starts from 0-0 with the
    consecutive-serve counter at 0 and the human player serving: [startGame]
    of Forest Pong writes exactly that, whatever the state before; a tick
    that sees a fist in the menu or after game over starts the match so; no
    tick leads from outside a match into one in any other way; and the
    freshly mounted engine has the same values.  In Pong Motion the reset
    effect, which runs at mount and at every restart, writes the same
    values, and they stand in every reachable state of a phase before play
    (loading, menu, hand detected, countdown), so that every match enters
    play with them. *)
Theorem new_match_resets :
  (forall d s,
      FP.matchOf (FP.startGame d s)
      = (FP.SERVING, FP.mkScores 0 0, FP.PLAYER, 0%Z))
  /\ (forall l d s s',
         FP.gameStateRef s = FP.MENU \/ FP.gameStateRef s = FP.GAME_OVER ->
         FP.isFist l = Some true ->
         FP.update (Some l) d s = Some s' ->
         FP.matchOf s' = (FP.SERVING, FP.mkScores 0 0, FP.PLAYER, 0%Z))
  /\ (forall lm d s s',
         FP.gameStateRef s <> FP.SERVING ->
         FP.gameStateRef s <> FP.PLAYING ->
         FP.update lm d s = Some s' ->
         FP.gameStateRef s' = FP.SERVING \/ FP.gameStateRef s' = FP.PLAYING ->
         FP.matchOf s' = (FP.SERVING, FP.mkScores 0 0, FP.PLAYER, 0%Z))
  /\ (forall r,
         FP.scoresRef (FP.initial r) = FP.mkScores 0 0
         /\ FP.servesCountRef (FP.initial r) = 0%Z
         /\ FP.serveTurnRef (FP.initial r) = FP.PLAYER)
  /\ (forall t c,
         PM.scores (PM.resetEffect t c) = PM.mkScores 0 0
         /\ PM.servesCount (PM.resetEffect t c) = 0%Z
         /\ PM.server (PM.resetEffect t c) = PM.Player
         /\ PM.appScores (PM.resetEffect t c) = PM.mkScores 0 0
         /\ PM.isPlayerTurn (PM.resetEffect t c) = true)
  /\ (forall t c,
         PM.matchOf (PM.step (PM.RestartGame t) c)
         = (PM.MENU, PM.mkScores 0 0, PM.Player, 0%Z))
  /\ (forall t0 es,
         let c := PM.steps es (PM.started t0) in
         PM.preMatch (PM.gameState c) = true ->
         PM.scores c = PM.mkScores 0 0
         /\ PM.servesCount c = 0%Z
         /\ PM.server c = PM.Player).
Proof.
  assert (Hidle : forall lm d s s',
             FP.gameStateRef s <> FP.SERVING ->
             FP.gameStateRef s <> FP.PLAYING ->
             FP.update lm d s = Some s' ->
             FP.matchOf s' =
               FP.inputMatch lm (FP.handDetectedRef s) (FP.matchOf s)
             /\ (FP.gameStateRef s' = FP.SERVING ->
                 FP.matchOf s'
                 = (FP.SERVING, FP.mkScores 0 0, FP.PLAYER, 0%Z))
             /\ FP.gameStateRef s' <> FP.PLAYING).
  { intros lm d s s' Hs Hp Hu.
    pose proof (FPF.update_match_idle _ _ _ _ Hu) as Hm.
    destruct (FPF.inputMatch_outside lm (FP.handDetectedRef s) d
                (FP.gameStateRef s) (FP.scoresRef s) (FP.serveTurnRef s)
                (FP.servesCountRef s) Hs Hp) as (H1 & H2 & H3).
    fold (FP.matchOf s) in H1, H2, H3.
    specialize (Hm H1). rewrite H2 in Hm.
    change (FP.gameStateRef s') with (FP.phaseOf (FP.matchOf s')).
    rewrite Hm. auto. }
  split; [|split; [|split; [|split; [|split; [|split]]]]].
  - intros d s. reflexivity.
  - intros l d s s' Hg Hf Hu.
    assert (Hs : FP.gameStateRef s <> FP.SERVING)
      by (destruct Hg; congruence).
    assert (Hp : FP.gameStateRef s <> FP.PLAYING)
      by (destruct Hg; congruence).
    destruct (Hidle _ _ _ _ Hs Hp Hu) as (Hm & _ & _).
    rewrite Hm. unfold FP.matchOf, FP.inputMatch. rewrite Hf.
    destruct Hg as [-> | ->]; destruct (FP.handDetectedRef s); reflexivity.
  - intros lm d s s' Hs Hp Hu Hg.
    destruct (Hidle _ _ _ _ Hs Hp Hu) as (_ & H2 & H3).
    destruct Hg as [Hg | Hg]; [exact (H2 Hg) | contradiction].
  - intros r. repeat split.
  - intros t c. repeat split.
  - intros t c. reflexivity.
  - intros t0 es c.
    exact (PMF.steps_FreshInv es _ (PMF.started_FreshInv t0)).
Qed.

Lemma new_match_resets_witness :
  exists s',
    FP.update (Some closedHand) fpNoDraw (fpSample FP.GAME_OVER 11 8 FP.AI 0)
    = Some s'
    /\ FP.matchOf s' = (FP.SERVING, FP.mkScores 0 0, FP.PLAYER, 0%Z).
Proof.
  destruct new_match_resets as (_ & H2 & _).
  assert (Hu : exists s',
             FP.update (Some closedHand) fpNoDraw
               (fpSample FP.GAME_OVER 11 8 FP.AI 0) = Some s').
  { unfold FP.update, FP.processInput.
    cbn -[FP.isFist closedHand FP.ballPhysics FP.aiLogic FP.startGame].
    change (nth_error closedHand 8) with (Some (FP.mkPoint 0.5 0.5)).
    cbn -[FP.isFist closedHand FP.ballPhysics FP.aiLogic FP.startGame].
    unfold FP.gestures.
    cbn -[FP.isFist closedHand FP.ballPhysics FP.aiLogic FP.startGame].
    rewrite closedHand_isFist.
    cbn -[FP.isFist closedHand FP.ballPhysics FP.aiLogic FP.startGame].
    eexists. reflexivity. }
  destruct Hu as (s' & Hu). exists s'. split; [exact Hu|].
  apply (H2 closedHand fpNoDraw (fpSample FP.GAME_OVER 11 8 FP.AI 0) s'
           (or_intror eq_refl) closedHand_isFist Hu).
Defined.

(** * Further properties of the code *)

(** ** Forest Pong: the player's paddle follows the hand *)

Lemma update_player_paddle (lm : option (list FP.Point)) (d : FP.Draws)
  (s s' : FP.Engine) :
  FP.update lm d s = Some s' ->
  match lm with
  | Some l =>
      exists tip,
        nth_error l 8 = Some tip
        /\ FP.paddlePlayerX s'
           = clamp (FP.PADDLE_WIDTH / 2)
               (FP.CANVAS_WIDTH - FP.PADDLE_WIDTH / 2)
               (FP.paddlePlayerX s
                + (paddleTarget (FP.p_x tip) - FP.paddlePlayerX s) * 0.2)
  | None => FP.paddlePlayerX s' = FP.paddlePlayerX s
  end.
Proof.
  intros Hu. apply FPF.update_steps in Hu. destruct Hu as (s1 & H1 & ->).
  destruct (FPF.physics_outer d s1) as (-> & _).
  unfold FP.processInput in H1. destruct lm as [l|].
  - apply bind_Some in H1. destruct H1 as (s3 & Hp & Hg).
    unfold FP.updatePlayerPaddle in Hp. apply bind_Some in Hp.
    destruct Hp as (tip & Ht & Hp). injection Hp as <-.
    exists tip. split; [exact Ht|].
    destruct (FPF.handSeen_facts s) as (P1 & _).
    assert (E : forall t,
               FP.paddlePlayerX t
               = FP.paddlePlayerX
                   (FP.set_paddlePlayerX
                      (clamp (FP.PADDLE_WIDTH / 2)
                         (FP.CANVAS_WIDTH - FP.PADDLE_WIDTH / 2)
                         (FP.paddlePlayerX (FP.handSeen s)
                          + ((1 - FP.p_x tip) * FP.CANVAS_WIDTH
                             - FP.paddlePlayerX (FP.handSeen s)) * 0.2))
                      (FP.handSeen s)) ->
               FP.paddlePlayerX t
               = clamp (FP.PADDLE_WIDTH / 2)
                   (FP.CANVAS_WIDTH - FP.PADDLE_WIDTH / 2)
                   (FP.paddlePlayerX s
                    + (paddleTarget (FP.p_x tip) - FP.paddlePlayerX s) * 0.2)).
    { intros t ->. cbn [FP.paddlePlayerX FP.set_paddlePlayerX].
      rewrite P1. reflexivity. }
    destruct (FPF.gestures_cases _ _ _ _ Hg) as [-> | [(-> & _) | (-> & _)]].
    + apply E. reflexivity.
    + apply E. reflexivity.
    + apply E. destruct (FPF.triggerServe_facts
                           (FP.set_paddlePlayerX
                              (clamp (FP.PADDLE_WIDTH / 2)
                                 (FP.CANVAS_WIDTH - FP.PADDLE_WIDTH / 2)
                                 (FP.paddlePlayerX (FP.handSeen s)
                                  + ((1 - FP.p_x tip) * FP.CANVAS_WIDTH
                                     - FP.paddlePlayerX (FP.handSeen s))
                                    * 0.2)) (FP.handSeen s))) as (Ho & _).
      apply FPF.outerOf_fields in Ho. tauto.
  - injection H1 as <-. destruct (FPF.handMissing_facts s) as (P1 & _).
    exact P1.
Qed.

(** X1. While the hand stays at one place whose mirrored image lies inside
    the reach of the paddle, every tick with a hand frame closes a fifth of
    the distance between the player's paddle and that place: after n such
    ticks the distance is 0.8^n times the initial one, whatever else
    happens in the game. *)
Theorem player_paddle_converges_to_hand :
  forall x frames s s',
    FP.PaddleInv s ->
    FP.PADDLE_WIDTH / 2 <= paddleTarget x
      <= FP.CANVAS_WIDTH - FP.PADDLE_WIDTH / 2 ->
    Forall (tipAt x) frames ->
    FP.run frames s = Some s' ->
    FP.paddlePlayerX s' - paddleTarget x
    = 0.8 ^ List.length frames * (FP.paddlePlayerX s - paddleTarget x).
Proof.
  intros x frames s s' Hi Ht Hf. revert s s' Hi.
  induction Hf as [|[lm d] rest Hx _ IH]; intros s s' Hi Hr.
  - injection Hr as <-. cbn. lra.
  - cbn [FP.run] in Hr. apply bind_Some in Hr.
    destruct Hr as (s1 & Hu & Hr).
    pose proof (FPF.update_PaddleInv _ _ _ _ Hi Hu) as Hi1.
    rewrite (IH s1 s' Hi1 Hr).
    destruct Hx as (l & tip & Hl & Hn & Hxx). cbn [fst] in Hl. subst lm.
    pose proof (update_player_paddle _ _ _ _ Hu) as Hp. cbv beta iota in Hp.
    destruct Hp as (tip' & Hn' & Hp). rewrite Hn in Hn'.
    injection Hn' as <-. rewrite Hxx in Hp. rewrite Hp.
    rewrite clamp_id.
    + cbn [List.length pow]. lra.
    + destruct Hi as ((Ha & Hb) & _). lra.
Qed.

Lemma player_paddle_converges_to_hand_witness :
  exists s',
    FP.run [(Some sideHand, fpNoDraw); (Some sideHand, fpNoDraw)]
      (FP.onloadeddata (FP.initial 0.5)) = Some s'
    /\ FP.paddlePlayerX s' - paddleTarget 0.25
       = 0.8 ^ 2 * (FP.paddlePlayerX (FP.onloadeddata (FP.initial 0.5))
                    - paddleTarget 0.25).
Proof.
  assert (Hw : Forall FP.wellFormedFrame
                 [(Some sideHand, fpNoDraw); (Some sideHand, fpNoDraw)])
    by (repeat constructor).
  destruct (FPF.run_defined _ (FP.onloadeddata (FP.initial 0.5)) Hw)
    as (s' & Hr).
  exists s'. split; [exact Hr|].
  assert (Ht : tipAt 0.25 (Some sideHand, fpNoDraw)).
  { exists sideHand, (FP.mkPoint 0.25 0.5). repeat split. }
  apply (player_paddle_converges_to_hand 0.25
           [(Some sideHand, fpNoDraw); (Some sideHand, fpNoDraw)]
           (FP.onloadeddata (FP.initial 0.5)) s').
  - exact (FPF.initial_PaddleInv 0.5).
  - unfold paddleTarget, FP.PADDLE_WIDTH, FP.CANVAS_WIDTH. lra.
  - repeat constructor; exact Ht.
  - exact Hr.
Defined.

(** ** Forest Pong: what step 1 of a tick leaves alone *)

Lemma handSeen_view (s : FP.Engine) :
  FP.ball (FP.handSeen s) = FP.ball s
  /\ FP.scoresRef (FP.handSeen s) = FP.scoresRef s
  /\ FP.serveTurnRef (FP.handSeen s) = FP.serveTurnRef s
  /\ FP.servesCountRef (FP.handSeen s) = FP.servesCountRef s
  /\ (FP.gameStateRef s = FP.SERVING \/ FP.gameStateRef s = FP.PLAYING ->
      FP.gameStateRef (FP.handSeen s) = FP.gameStateRef s)
  /\ (FP.gameStateRef (FP.handSeen s) = FP.SERVING
      \/ FP.gameStateRef (FP.handSeen s) = FP.PLAYING ->
      FP.gameStateRef (FP.handSeen s) = FP.gameStateRef s).
Proof.
  unfold FP.handSeen. cbn. destruct (FP.handDetectedRef s); cbn;
    [tauto|].
  destruct (FP.gameStateRef s) eqn:E; cbn; rewrite ?E;
    repeat split; intros [H|H]; congruence.
Qed.

Lemma handMissing_view (s : FP.Engine) :
  FP.ball (FP.handMissing s) = FP.ball s
  /\ FP.matchOf (FP.handMissing s) = FP.matchOf s.
Proof.
  unfold FP.handMissing. cbn.
  destruct (_ >? 30)%Z; [destruct (FP.handDetectedRef s)|]; split;
    reflexivity.
Qed.

(** A serve or a game start aside, step 1 of a tick leaves ball, match and
    opponent alone. *)
Lemma processInput_cases (lm : option (list FP.Point)) (d : FP.Draws)
  (s s1 : FP.Engine) :
  FP.processInput lm d s = Some s1 ->
  FP.paddleAIX s1 = FP.paddleAIX s
  /\ ((FP.ball s1 = FP.ball s
       /\ FP.scoresRef s1 = FP.scoresRef s
       /\ FP.serveTurnRef s1 = FP.serveTurnRef s
       /\ FP.servesCountRef s1 = FP.servesCountRef s
       /\ FP.aiErrorOffset s1 = FP.aiErrorOffset s
       /\ (FP.gameStateRef s = FP.SERVING \/ FP.gameStateRef s = FP.PLAYING ->
           FP.gameStateRef s1 = FP.gameStateRef s)
       /\ (FP.gameStateRef s1 = FP.SERVING
           \/ FP.gameStateRef s1 = FP.PLAYING ->
           FP.gameStateRef s1 = FP.gameStateRef s))
      \/ (exists l s0,
             lm = Some l /\ FP.isFist l = Some true
             /\ FP.gameStateRef s <> FP.SERVING
             /\ FP.gameStateRef s <> FP.PLAYING
             /\ s1 = FP.startGame d s0)
      \/ (exists l s0,
             lm = Some l /\ FP.isIndexBent l = Some true
             /\ FP.gameStateRef s = FP.SERVING
             /\ FP.serveTurnRef s = FP.PLAYER
             /\ FP.gameStateRef s0 = FP.SERVING
             /\ FP.serveTurnRef s0 = FP.PLAYER
             /\ FP.ball s0 = FP.ball s
             /\ FP.scoresRef s0 = FP.scoresRef s
             /\ s1 = FP.triggerServe s0)).
Proof.
  unfold FP.processInput. destruct lm as [l|].
  - intros H. apply bind_Some in H. destruct H as (s3 & Hp & Hg).
    destruct (handSeen_view s) as (Vb & Vsc & Vt & Vn & Vg & Vg').
    destruct (FPF.handSeen_facts s) as (_ & Va & Vo & _).
    destruct (FPF.updatePlayerPaddle_facts _ _ _ Hp) as (_ & Pa & Po & _).
    unfold FP.updatePlayerPaddle in Hp. apply bind_Some in Hp.
    destruct Hp as (tip & _ & Hp). injection Hp as Hp.
    assert (Eb : FP.ball s3 = FP.ball s) by (rewrite <- Hp; exact Vb).
    assert (Esc : FP.scoresRef s3 = FP.scoresRef s)
      by (rewrite <- Hp; exact Vsc).
    assert (Et : FP.serveTurnRef s3 = FP.serveTurnRef s)
      by (rewrite <- Hp; exact Vt).
    assert (En : FP.servesCountRef s3 = FP.servesCountRef s)
      by (rewrite <- Hp; exact Vn).
    assert (Eg : FP.gameStateRef s3 = FP.gameStateRef (FP.handSeen s))
      by (rewrite <- Hp; reflexivity).
    destruct (FPF.gestures_cases _ _ _ _ Hg)
      as [-> | [(-> & Hf & Hm) | (-> & Hb & Hs & Hpl)]].
    + split; [congruence|]. left. rewrite Eg.
      repeat split; try congruence; tauto.
    + destruct (FPF.startGame_facts d s3) as (Ho & _).
      apply FPF.outerOf_fields in Ho.
      split; [destruct Ho as (_ & -> & _); congruence|].
      right. left. exists l, s3. repeat split; try assumption.
      * intros E. rewrite Eg in Hm.
        rewrite (Vg (or_introl E)), E in Hm. destruct Hm; discriminate.
      * intros E. rewrite Eg in Hm.
        rewrite (Vg (or_intror E)), E in Hm. destruct Hm; discriminate.
    + destruct (FPF.triggerServe_facts s3) as (Ho & _).
      apply FPF.outerOf_fields in Ho.
      split; [destruct Ho as (_ & -> & _); congruence|].
      right. right. exists l, s3.
      assert (E : FP.gameStateRef s = FP.SERVING).
      { rewrite Eg in Hs. rewrite <- (Vg' (or_introl Hs)). exact Hs. }
      repeat split; try assumption; congruence.
  - intros H. injection H as <-.
    destruct (handMissing_view s) as (Vb & Vm).
    destruct (FPF.handMissing_facts s) as (_ & Va & Vo & _).
    unfold FP.matchOf in Vm. injection Vm as Vg Vsc Vt Vn.
    split; [exact Va|]. left. rewrite Vg. repeat split; try assumption; tauto.
Qed.

(** ** Forest Pong: the opponent's paddle *)

Lemma clamp_near (lo hi p v : R) :
  lo <= p <= hi -> Rabs (clamp lo hi v - p) <= Rabs (v - p).
Proof.
  intros Hp. unfold clamp, Rmax, Rmin, Rabs.
  destruct (Rle_dec hi v); destruct (Rle_dec lo _);
    repeat destruct (Rcase_abs _); lra.
Qed.

Lemma aiLogic_rate (s : FP.Engine) :
  FP.PADDLE_WIDTH / 2 <= FP.paddleAIX s
    <= FP.CANVAS_WIDTH - FP.PADDLE_WIDTH / 2 ->
  Rabs (FP.paddleAIX (FP.aiLogic s) - FP.paddleAIX s) <= FP.PADDLE_SPEED_AI.
Proof.
  intros Hp.
  assert (H0 : Rabs (FP.paddleAIX s - FP.paddleAIX s) <= FP.PADDLE_SPEED_AI).
  { replace (FP.paddleAIX s - FP.paddleAIX s) with 0 by lra.
    rewrite Rabs_R0. unfold FP.PADDLE_SPEED_AI. lra. }
  assert (Hm : forall target,
             Rabs
               (clamp (FP.PADDLE_WIDTH / 2)
                  (FP.CANVAS_WIDTH - FP.PADDLE_WIDTH / 2)
                  (if Rgtb (Rabs (target - FP.paddleAIX s)) FP.PADDLE_SPEED_AI
                   then FP.paddleAIX s
                        + (if Rgtb (target - FP.paddleAIX s) 0
                           then FP.PADDLE_SPEED_AI else - FP.PADDLE_SPEED_AI)
                   else target) - FP.paddleAIX s) <= FP.PADDLE_SPEED_AI).
  { intros target. eapply Rle_trans; [apply clamp_near; exact Hp|].
    destruct (Rgtb (Rabs _) _) eqn:E.
    - destruct (Rgtb (target - _) 0);
        unfold FP.PADDLE_SPEED_AI, Rabs; destruct (Rcase_abs _); lra.
    - apply Rgtb_false_iff in E. lra. }
  unfold FP.aiLogic. destruct (FP.gameStateRef s); try exact H0;
    cbn [FP.paddleAIX FP.set_paddleAIX]; apply Hm.
Qed.

Lemma update_ai_rate (lm : option (list FP.Point)) (d : FP.Draws)
  (s s' : FP.Engine) :
  FP.PaddleInv s -> FP.update lm d s = Some s' ->
  Rabs (FP.paddleAIX s' - FP.paddleAIX s) <= FP.PADDLE_SPEED_AI.
Proof.
  intros Hi Hu. apply FPF.update_steps in Hu. destruct Hu as (s1 & H1 & ->).
  destruct (FPF.physics_outer d s1) as (_ & _ & _ & -> & _).
  destruct (processInput_cases _ _ _ _ H1) as (Ea & _).
  rewrite <- Ea. apply aiLogic_rate. rewrite Ea. apply Hi.
Qed.

(** X2. The opponent's paddle is rate limited: over any n ticks, whatever
    the hand, the ball and the random draws do, it moves by no more than
    n times 7.5 pixels. *)
Theorem opponent_paddle_rate_limited :
  forall frames s s',
    FP.PaddleInv s ->
    FP.run frames s = Some s' ->
    Rabs (FP.paddleAIX s' - FP.paddleAIX s)
    <= INR (List.length frames) * FP.PADDLE_SPEED_AI.
Proof.
  induction frames as [|[lm d] rest IH]; intros s s' Hi Hr.
  - injection Hr as <-. cbn [List.length INR].
    replace (FP.paddleAIX s - FP.paddleAIX s) with 0 by lra.
    rewrite Rabs_R0. lra.
  - cbn [FP.run] in Hr. apply bind_Some in Hr.
    destruct Hr as (s1 & Hu & Hr).
    pose proof (FPF.update_PaddleInv _ _ _ _ Hi Hu) as Hi1.
    pose proof (update_ai_rate _ _ _ _ Hi Hu) as H1.
    pose proof (IH _ _ Hi1 Hr) as H2.
    change (List.length ((lm, d) :: rest)) with (S (List.length rest)).
    rewrite S_INR.
    replace (FP.paddleAIX s' - FP.paddleAIX s)
      with ((FP.paddleAIX s' - FP.paddleAIX s1)
            + (FP.paddleAIX s1 - FP.paddleAIX s)) by lra.
    eapply Rle_trans; [apply Rabs_triang|]. lra.
Qed.

Lemma opponent_paddle_rate_limited_witness :
  exists s',
    FP.run [(Some sideHand, fpNoDraw); (None, fpNoDraw)]
      (FP.onloadeddata (FP.initial 0.5)) = Some s'
    /\ Rabs (FP.paddleAIX s' - FP.paddleAIX (FP.onloadeddata (FP.initial 0.5)))
       <= INR 2 * FP.PADDLE_SPEED_AI.
Proof.
  assert (Hw : Forall FP.wellFormedFrame
                 [(Some sideHand, fpNoDraw); (None, fpNoDraw)])
    by (repeat constructor).
  destruct (FPF.run_defined _ (FP.onloadeddata (FP.initial 0.5)) Hw)
    as (s' & Hr).
  exists s'. split; [exact Hr|].
  exact (opponent_paddle_rate_limited _ _ _
           (FPF.initial_PaddleInv 0.5
            : FP.PaddleInv (FP.onloadeddata (FP.initial 0.5))) Hr).
Defined.

(** X3. While the ball moves away from the opponent in active play, the
    opponent's paddle goes back to the centre of the field, 7.5 pixels per
    tick: each tick shortens its distance to the centre by 7.5, or ends it
    at the centre. *)
Theorem opponent_returns_to_centre :
  forall lm d s s',
    FP.PaddleInv s ->
    FP.gameStateRef s = FP.PLAYING ->
    FP.b_dy (FP.ball s) > 0 ->
    FP.update lm d s = Some s' ->
    Rabs (FP.paddleAIX s' - FP.CANVAS_WIDTH / 2)
    = Rmax 0 (Rabs (FP.paddleAIX s - FP.CANVAS_WIDTH / 2)
              - FP.PADDLE_SPEED_AI).
Proof.
  intros lm d s s' Hi Hg Hdy Hu.
  apply FPF.update_steps in Hu. destruct Hu as (s1 & H1 & ->).
  destruct (FPF.physics_outer d s1) as (_ & _ & _ & -> & _).
  destruct (processInput_cases _ _ _ _ H1)
    as (Ea & [(Eb & _ & _ & _ & _ & Eg & _)
             | [(l & s0 & _ & _ & _ & Hn & _)
               | (l & s0 & _ & _ & Hn & _)]]);
    [|congruence|congruence].
  specialize (Eg (or_intror Hg)). rewrite Hg in Eg.
  unfold FP.aiLogic, FP.aiTarget. rewrite Eg, Eb, Ea.
  rewrite (proj2 (Rgtb_true_iff _ _) Hdy).
  cbn [andb FP.GameState_eqb FP.paddleAIX FP.set_paddleAIX].
  destruct Hi as (_ & Hp). revert Hp.
  unfold FP.PADDLE_WIDTH, FP.CANVAS_WIDTH, FP.PADDLE_SPEED_AI.
  set (p := FP.paddleAIX s). intros Hp.
  destruct (Rgtb (Rabs _) _) eqn:E;
    [apply Rgtb_true_iff in E;
     destruct (Rgtb (1280 / 2 - p) 0) eqn:E2;
     [apply Rgtb_true_iff in E2 | apply Rgtb_false_iff in E2]
    |apply Rgtb_false_iff in E];
    (rewrite clamp_id;
     [|revert E; unfold Rabs; destruct (Rcase_abs _); lra]);
    revert E; unfold Rabs, Rmax;
    repeat destruct (Rcase_abs _); destruct (Rle_dec _ _); lra.
Qed.

Lemma opponent_returns_to_centre_witness :
  exists s',
    FP.update None fpNoDraw (fpInPlay 700 640 360 0 7) = Some s'
    /\ Rabs (FP.paddleAIX s' - FP.CANVAS_WIDTH / 2)
       = Rmax 0 (Rabs (FP.paddleAIX (fpInPlay 700 640 360 0 7)
                       - FP.CANVAS_WIDTH / 2) - FP.PADDLE_SPEED_AI).
Proof.
  destruct (FPF.update_defined None fpNoDraw (fpInPlay 700 640 360 0 7) I)
    as (s' & Hu).
  exists s'. split; [exact Hu|].
  apply (opponent_returns_to_centre None fpNoDraw
           (fpInPlay 700 640 360 0 7) s').
  - unfold FP.PaddleInv, FP.PADDLE_WIDTH, FP.CANVAS_WIDTH. cbn. lra.
  - reflexivity.
  - cbn. lra.
  - exact Hu.
Defined.

(** ** Forest Pong: the ball through a tick *)

Ltac Rhyps :=
  repeat match goal with
         | H : (_ && _)%bool = true |- _ =>
             apply andb_prop in H; destruct H
         | H : Rltb _ _ = true |- _ => apply Rltb_true_iff in H
         | H : Rgtb _ _ = true |- _ => apply Rgtb_true_iff in H
         | H : Rltb _ _ = false |- _ => apply Rltb_false_iff in H
         | H : Rgtb _ _ = false |- _ => apply Rgtb_false_iff in H
         end.

Lemma scorePoint_view (w : FP.ServeTurn) (d : FP.Draws) (s : FP.Engine) :
  FP.scoresRef (FP.scorePoint w d s) = FP.scored w (FP.scoresRef s)
  /\ ((FP.gameStateRef (FP.scorePoint w d s) = FP.GAME_OVER
       /\ FP.ball (FP.scorePoint w d s) = FP.ball s
       /\ FP.serveTurnRef (FP.scorePoint w d s) = FP.serveTurnRef s)
      \/ (FP.gameStateRef (FP.scorePoint w d s) = FP.SERVING
          /\ FP.ball (FP.scorePoint w d s)
             = FP.resetBall (FP.serveTurnRef (FP.scorePoint w d s))
                 (FP.rLaunch d))).
Proof.
  unfold FP.scorePoint, FP.scored.
  destruct w; cbn;
    repeat match goal with
           | |- context [if ?c then _ else _] =>
               match type of c with bool => destruct c; cbn end
           end;
    split; try reflexivity; (left; repeat split; reflexivity)
                            || (right; repeat split; reflexivity).
Qed.

Lemma playing_tick (d : FP.Draws) (s : FP.Engine) :
  FP.gameStateRef s = FP.PLAYING ->
  FP.ballPhysics d s
  = FP.scoring d
      (FP.playerPaddleCollision d
         (FP.aiPaddleCollision
            (FP.set_ball (FP.sideWalls (FP.moveBall (FP.ball s))) s))).
Proof. intros H. unfold FP.ballPhysics. rewrite H. reflexivity. Qed.

Lemma sideWalls_moveBall_view (b : FP.Ball) :
  let b1 := FP.sideWalls (FP.moveBall b) in
  FP.b_y b1 = FP.b_y b + FP.b_dy b
  /\ FP.b_dy b1 = FP.b_dy b
  /\ Rabs (FP.b_dx b1) = Rabs (FP.b_dx b)
  /\ FP.baseSpeed b1 = FP.baseSpeed b
  /\ FP.launchDirY b1 = FP.launchDirY b
  /\ FP.launchDx b1 = FP.launchDx b.
Proof.
  unfold FP.sideWalls, FP.moveBall. cbn.
  destruct (_ || _)%bool; cbn; repeat split; try reflexivity.
  apply Rabs_Ropp.
Qed.

(** The state at the scoring check of a tick of active play: scores and
    server as before; the ball either goes where its velocity takes it, or
    a paddle returned it. *)
Lemma before_scoring_view (d : FP.Draws) (s : FP.Engine) :
  let s3 := FP.playerPaddleCollision d
              (FP.aiPaddleCollision
                 (FP.set_ball (FP.sideWalls (FP.moveBall (FP.ball s))) s)) in
  let b := FP.ball s in
  let b3 := FP.ball s3 in
  FP.matchOf s3 = FP.matchOf s
  /\ FP.baseSpeed b3 = FP.baseSpeed b
  /\ FP.launchDirY b3 = FP.launchDirY b
  /\ FP.launchDx b3 = FP.launchDx b
  /\ ((FP.b_y b3 = FP.b_y b + FP.b_dy b
       /\ FP.b_dy b3 = FP.b_dy b
       /\ Rabs (FP.b_dx b3) = Rabs (FP.b_dx b))
      \/ (0 <= FP.b_y b + FP.b_dy b <= FP.CANVAS_HEIGHT
          /\ (FP.b_y b + FP.b_dy b
              < FP.WALL_OFFSET + FP.PADDLE_HEIGHT + FP.BALL_RADIUS
              \/ FP.b_y b + FP.b_dy b
                 > FP.CANVAS_HEIGHT - FP.WALL_OFFSET - FP.PADDLE_HEIGHT
                   - FP.BALL_RADIUS)
          /\ 0 <= FP.b_y b3 <= FP.CANVAS_HEIGHT
          /\ Rabs (FP.b_dy b3) = Rabs (FP.b_dy b) * 1.05
          /\ Rabs (FP.b_dx b3) <= 35 / 3)).
Proof.
  cbv zeta.
  destruct (sideWalls_moveBall_view (FP.ball s))
    as (Vy & Vdy & Vdx & Vs & Vl & Vx).
  remember (FP.set_ball (FP.sideWalls (FP.moveBall (FP.ball s))) s) as s1
    eqn:Es1.
  assert (Eb : FP.sideWalls (FP.moveBall (FP.ball s)) = FP.ball s1)
    by (subst s1; reflexivity).
  assert (M1 : FP.matchOf s1 = FP.matchOf s) by (subst s1; reflexivity).
  rewrite Eb in Vy, Vdy, Vdx, Vs, Vl, Vx. clear Es1 Eb.
  rewrite FPF.playerPaddleCollision_match, FPF.aiPaddleCollision_match.
  split; [exact M1|].
  unfold FP.playerPaddleCollision, FP.aiPaddleCollision.
  destruct (FP.hitsAIPaddle (FP.ball s1) (FP.paddleAIX s1)) eqn:Ea.
  - unfold FP.hitsAIPaddle in Ea. Rhyps.
    cbn [FP.ball FP.set_ball FP.paddlePlayerX].
    assert (Hd : Rabs ((FP.b_x (FP.ball s1) - FP.paddleAIX s1)
                       / (FP.PADDLE_WIDTH / 2) * 10) <= 35 / 3).
    { revert H0. unfold FP.PADDLE_WIDTH, FP.BALL_RADIUS, Rabs.
      repeat destruct (Rcase_abs _); lra. }
    destruct (FP.hitsPlayerPaddle _ _) eqn:Ep.
    + unfold FP.hitsPlayerPaddle, FP.bounce in Ep.
      cbn [FP.b_y FP.b_dy FP.b_x] in Ep. Rhyps.
      unfold FP.WALL_OFFSET, FP.PADDLE_HEIGHT, FP.BALL_RADIUS,
        FP.CANVAS_HEIGHT in *. lra.
    + cbn. repeat split; try assumption. right.
      revert H H2 H1. rewrite Vy, Vdy.
      unfold FP.WALL_OFFSET, FP.PADDLE_HEIGHT, FP.BALL_RADIUS,
        FP.CANVAS_HEIGHT.
      intros. repeat split; try lra;
        try (replace (- FP.b_dy (FP.ball s) * 1.05)
               with (- (FP.b_dy (FP.ball s) * 1.05)) by lra;
             rewrite Rabs_Ropp, Rabs_mult; f_equal;
             unfold Rabs; destruct (Rcase_abs _); lra);
        revert H0; unfold FP.PADDLE_WIDTH, FP.BALL_RADIUS, Rabs;
        repeat destruct (Rcase_abs _); lra.
  - destruct (FP.hitsPlayerPaddle _ _) eqn:Ep.
    + unfold FP.hitsPlayerPaddle in Ep. Rhyps.
      cbn [FP.ball FP.set_ball FP.set_aiErrorOffset FP.bounce
           FP.baseSpeed FP.launchDirY FP.launchDx FP.b_y FP.b_dy FP.b_dx].
      repeat split; try assumption. right.
      revert H H2 H1. rewrite Vy, Vdy.
      unfold FP.WALL_OFFSET, FP.PADDLE_HEIGHT, FP.BALL_RADIUS,
        FP.CANVAS_HEIGHT.
      intros. repeat split; try lra;
        try (replace (- FP.b_dy (FP.ball s) * 1.05)
               with (- (FP.b_dy (FP.ball s) * 1.05)) by lra;
             rewrite Rabs_Ropp, Rabs_mult; f_equal;
             unfold Rabs; destruct (Rcase_abs _); lra);
        revert H0; unfold FP.PADDLE_WIDTH, FP.BALL_RADIUS, Rabs;
        repeat destruct (Rcase_abs _); lra.
    + repeat split; try assumption. left. repeat split; assumption.
Qed.

(** X4. In active play the point is decided by the place the ball moves to
    in the tick, and by nothing else: above the top edge the player scores,
    below the bottom edge the opponent scores, in between nobody does.  No
    hand frame, paddle or side wall changes that; a paddle never returns
    a ball that has left the field. *)
Theorem point_decided_by_ball_position :
  forall lm d s s',
    FP.gameStateRef s = FP.PLAYING ->
    FP.update lm d s = Some s' ->
    FP.scoresRef s' = scoresAfterMove s.
Proof.
  intros lm d s s' Hg Hu.
  apply FPF.update_steps in Hu. destruct Hu as (s1 & H1 & ->).
  destruct (processInput_cases _ _ _ _ H1)
    as (_ & [(Eb & Esc & _ & _ & _ & Eg & _)
            | [(l & s0 & _ & _ & _ & Hn & _)
              | (l & s0 & _ & _ & Hn & _)]]);
    [|congruence|congruence].
  specialize (Eg (or_intror Hg)). rewrite Hg in Eg.
  destruct (FPF.aiLogic_facts s1) as (_ & _ & _ & _ & Ab & _).
  pose proof (FPF.aiLogic_match s1) as Am.
  assert (Ag : FP.gameStateRef (FP.aiLogic s1) = FP.PLAYING)
    by (unfold FP.matchOf in Am; congruence).
  assert (Asc : FP.scoresRef (FP.aiLogic s1) = FP.scoresRef s)
    by (unfold FP.matchOf in Am; congruence).
  rewrite (playing_tick d _ Ag).
  destruct (before_scoring_view d (FP.aiLogic s1))
    as (M3 & _ & _ & _ & Hb).
  cbv zeta in Hb.
  set (s3 := FP.playerPaddleCollision d _) in *. clearbody s3.
  rewrite Ab, Eb in Hb.
  assert (Sc3 : FP.scoresRef s3 = FP.scoresRef s)
    by (unfold FP.matchOf in M3; congruence).
  unfold scoresAfterMove, FP.scoring.
  destruct Hb as [(Hy & _) | (Hy & _ & Hy3 & _)].
  - rewrite Hy.
    destruct (Rltb _ 0);
      [rewrite (proj1 (scorePoint_view _ _ _)), Sc3; reflexivity|].
    destruct (Rgtb _ _);
      [rewrite (proj1 (scorePoint_view _ _ _)), Sc3; reflexivity|].
    exact Sc3.
  - rewrite (proj2 (Rltb_false_iff _ 0)) by lra.
    rewrite (proj2 (Rgtb_false_iff _ FP.CANVAS_HEIGHT)) by lra.
    rewrite (proj2 (Rltb_false_iff _ 0)) by lra.
    rewrite (proj2 (Rgtb_false_iff _ FP.CANVAS_HEIGHT)) by lra.
    exact Sc3.
Qed.

Lemma point_decided_by_ball_position_witness :
  exists s',
    FP.update None fpNoDraw (fpInPlay 640 640 3 0 (-7)) = Some s'
    /\ FP.scoresRef s' = FP.mkScores 1 0.
Proof.
  destruct (FPF.update_defined None fpNoDraw (fpInPlay 640 640 3 0 (-7)) I)
    as (s' & Hu).
  exists s'. split; [exact Hu|].
  rewrite (point_decided_by_ball_position None fpNoDraw
             (fpInPlay 640 640 3 0 (-7)) s' eq_refl Hu).
  unfold scoresAfterMove, fpInPlay.
  cbn [FP.ball FP.b_y FP.b_dy FP.scoresRef].
  rewrite (proj2 (Rltb_true_iff _ _)) by lra. reflexivity.
Defined.

(** ** Forest Pong: the invariant of the ball *)

Lemma BallInv_transfer (s s1 : FP.Engine) :
  FP.ball s1 = FP.ball s ->
  FP.serveTurnRef s1 = FP.serveTurnRef s ->
  (FP.gameStateRef s1 = FP.SERVING \/ FP.gameStateRef s1 = FP.PLAYING ->
   FP.gameStateRef s1 = FP.gameStateRef s) ->
  BallInv s -> BallInv s1.
Proof.
  intros Eb Et Eg (I1 & I2 & I3 & I4 & I5 & I6). unfold BallInv.
  rewrite Eb, Et. repeat split; try assumption;
    match goal with
    | H : FP.gameStateRef s1 = FP.SERVING |- _ =>
        apply I5; rewrite <- (Eg (or_introl H)); exact H
    | H : FP.gameStateRef s1 = FP.PLAYING |- _ =>
        apply I6; rewrite <- (Eg (or_intror H)); exact H
    end.
Qed.

Lemma resetBall_BallInv (r : R) (s : FP.Engine) :
  0 <= r < 1 ->
  FP.gameStateRef s = FP.SERVING ->
  FP.ball s = FP.resetBall (FP.serveTurnRef s) r ->
  BallInv s.
Proof.
  intros Hr Hg Hb. unfold BallInv. rewrite Hb, Hg.
  unfold FP.resetBall, atServeHeight, serveDirection, FP.CANVAS_HEIGHT,
    FP.WALL_OFFSET, FP.PADDLE_HEIGHT, FP.BALL_RADIUS.
  cbn [FP.baseSpeed FP.launchDirY FP.launchDx FP.b_dx FP.b_dy FP.b_y].
  rewrite Rabs_R0.
  repeat split; try discriminate; try lra;
    try (destruct (FP.serveTurnRef s); lra);
    unfold Rabs; destruct (Rcase_abs _); lra.
Qed.

Lemma triggerServe_view (s : FP.Engine) :
  FP.gameStateRef s = FP.SERVING ->
  FP.gameStateRef (FP.triggerServe s) = FP.PLAYING
  /\ FP.scoresRef (FP.triggerServe s) = FP.scoresRef s
  /\ FP.serveTurnRef (FP.triggerServe s) = FP.serveTurnRef s
  /\ FP.ball (FP.triggerServe s)
     = FP.mkBall (FP.b_x (FP.ball s)) (FP.b_y (FP.ball s))
         (FP.launchDx (FP.ball s))
         (FP.baseSpeed (FP.ball s) * FP.launchDirY (FP.ball s))
         (FP.baseSpeed (FP.ball s)) (FP.launchDirY (FP.ball s))
         (FP.launchDx (FP.ball s)).
Proof.
  intros Hg. unfold FP.triggerServe. rewrite Hg. repeat split.
Qed.

Lemma triggerServe_BallInv (s : FP.Engine) :
  FP.gameStateRef s = FP.SERVING -> BallInv s -> BallInv (FP.triggerServe s).
Proof.
  intros Hg (I1 & I2 & I3 & I4 & I5 & _).
  destruct (triggerServe_view s Hg) as (Vg & _ & Vt & Vb).
  destruct (I5 Hg) as (_ & _ & Hy).
  unfold BallInv. rewrite Vb, Vg, Vt.
  cbn [FP.baseSpeed FP.launchDirY FP.launchDx FP.b_dx FP.b_dy FP.b_y].
  repeat split; try assumption; try discriminate; try lra;
    try (rewrite I1, I2; unfold serveDirection, Rabs;
         destruct (FP.serveTurnRef s); destruct (Rcase_abs _); lra);
    revert Hy; unfold atServeHeight, FP.CANVAS_HEIGHT, FP.WALL_OFFSET,
      FP.PADDLE_HEIGHT, FP.BALL_RADIUS;
    destruct (FP.serveTurnRef s); lra.
Qed.

Lemma startGame_BallInv (d : FP.Draws) (s : FP.Engine) :
  drawsInRange d -> BallInv (FP.startGame d s).
Proof.
  intros (Hr & _). apply (resetBall_BallInv (FP.rLaunch d)); auto.
Qed.

Lemma processInput_BallInv (lm : option (list FP.Point)) (d : FP.Draws)
  (s s1 : FP.Engine) :
  drawsInRange d -> BallInv s ->
  FP.processInput lm d s = Some s1 -> BallInv s1.
Proof.
  intros Hd Hi H1.
  destruct (processInput_cases _ _ _ _ H1)
    as (_ & [(Eb & _ & Et & _ & _ & _ & Eg)
            | [(l & s0 & _ & _ & _ & _ & ->)
              | (l & s0 & _ & _ & Hg & Ht & Hg0 & Ht0 & Hb0 & _ & ->)]]).
  - exact (BallInv_transfer s s1 Eb Et Eg Hi).
  - apply startGame_BallInv. exact Hd.
  - apply triggerServe_BallInv; [exact Hg0|].
    apply (BallInv_transfer s s0); try assumption; congruence.
Qed.

Lemma aiLogic_BallInv (s : FP.Engine) : BallInv s -> BallInv (FP.aiLogic s).
Proof.
  destruct (FPF.aiLogic_facts s) as (_ & _ & _ & _ & Ab & _).
  pose proof (FPF.aiLogic_match s) as Am. unfold FP.matchOf in Am.
  injection Am as Ag _ At _.
  apply BallInv_transfer; try assumption. intros _. exact Ag.
Qed.

Lemma stickBall_BallInv (x y : R) (s : FP.Engine) :
  FP.gameStateRef s = FP.SERVING ->
  atServeHeight (FP.serveTurnRef s) y ->
  BallInv s -> BallInv (FP.stickBall x y s).
Proof.
  intros Hg Hy (I1 & I2 & I3 & I4 & I5 & I6).
  destruct (I5 Hg) as (Hdx & Hdy & _).
  unfold BallInv, FP.stickBall.
  cbn [FP.ball FP.set_ball FP.baseSpeed FP.launchDirY FP.launchDx FP.b_dx
       FP.b_dy FP.b_y FP.gameStateRef FP.serveTurnRef].
  rewrite Hg. repeat split; try assumption; discriminate.
Qed.

Lemma ballPhysics_BallInv (d : FP.Draws) (s : FP.Engine) :
  drawsInRange d -> BallInv s -> BallInv (FP.ballPhysics d s).
Proof.
  intros Hd Hi.
  destruct (FP.gameStateRef s) eqn:Hg;
    try (unfold FP.ballPhysics; rewrite Hg; exact Hi).
  - unfold FP.ballPhysics. rewrite Hg.
    destruct (FP.serveTurnRef s) eqn:Ht.
    + apply stickBall_BallInv; try assumption. rewrite Ht.
      unfold atServeHeight, FP.CANVAS_HEIGHT, FP.WALL_OFFSET,
        FP.PADDLE_HEIGHT, FP.BALL_RADIUS. lra.
    + assert (Hs : BallInv
                     (FP.stickBall (FP.paddleAIX s)
                        (FP.WALL_OFFSET + FP.PADDLE_HEIGHT + FP.BALL_RADIUS
                         + 5) s)).
      { apply stickBall_BallInv; try assumption. rewrite Ht.
        unfold atServeHeight, FP.CANVAS_HEIGHT, FP.WALL_OFFSET,
          FP.PADDLE_HEIGHT, FP.BALL_RADIUS. lra. }
      destruct (Rltb _ _); [|exact Hs].
      apply triggerServe_BallInv; [exact Hg | exact Hs].
  - rewrite (playing_tick d s Hg).
    destruct (before_scoring_view d s) as (M3 & B1 & B2 & B3 & Hb).
    cbv zeta in Hb.
    set (s3 := FP.playerPaddleCollision d _) in *. clearbody s3.
    destruct Hi as (I1 & I2 & I3 & I4 & _ & I6).
    destruct (I6 Hg) as (Hdy & Hy).
    unfold FP.matchOf in M3. injection M3 as G3 _ T3 _.
    assert (H3 : Rabs (FP.b_dx (FP.ball s3)) <= 35 / 3
                 /\ 7 <= Rabs (FP.b_dy (FP.ball s3))).
    { destruct Hb as [(_ & -> & ->) | (_ & _ & _ & -> & Hx)]; split;
        try assumption; lra. }
    destruct H3 as (Hx3 & Hdy3).
    assert (Hpoint : forall w, BallInv (FP.scorePoint w d s3)).
    { intros w.
      destruct (scorePoint_view w d s3)
        as (_ & [(Vg & Vb & Vt) | (Vg & Vb)]).
      - unfold BallInv. rewrite Vb, Vg, Vt, B1, B2, B3, T3.
        repeat split; try assumption; discriminate.
      - apply (resetBall_BallInv (FP.rLaunch d)); try assumption.
        apply Hd. }
    unfold FP.scoring.
    destruct (Rltb _ 0) eqn:E1; [apply Hpoint|].
    destruct (Rgtb _ _) eqn:E2; [apply Hpoint|].
    Rhyps.
    unfold BallInv. rewrite B1, B2, B3, T3, G3, Hg.
    repeat split; try assumption; try discriminate; lra.
Qed.

Lemma update_BallInv (lm : option (list FP.Point)) (d : FP.Draws)
  (s s' : FP.Engine) :
  drawsInRange d -> BallInv s -> FP.update lm d s = Some s' -> BallInv s'.
Proof.
  intros Hd Hi Hu. apply FPF.update_steps in Hu.
  destruct Hu as (s1 & H1 & ->).
  apply ballPhysics_BallInv; [exact Hd|]. apply aiLogic_BallInv.
  exact (processInput_BallInv _ _ _ _ Hd Hi H1).
Qed.

Lemma run_BallInv (frames : list FP.Frame) (s s' : FP.Engine) :
  framesInRange frames -> BallInv s -> FP.run frames s = Some s' ->
  BallInv s'.
Proof.
  intros Hf. revert s. induction Hf as [|[lm d] rest Hd _ IH];
    intros s Hi Hr.
  - injection Hr as <-. exact Hi.
  - cbn [FP.run] in Hr. apply bind_Some in Hr.
    destruct Hr as (s1 & Hu & Hr).
    exact (IH s1 (update_BallInv _ _ _ _ Hd Hi Hu) Hr).
Qed.

Lemma initial_BallInv (r : R) :
  0 <= r < 1 -> BallInv (FP.onloadeddata (FP.initial r)).
Proof.
  intros Hr. unfold BallInv, FP.onloadeddata, FP.initial, FP.resetBall.
  cbn. rewrite Rabs_R0. repeat split; try discriminate; try lra.
  unfold Rabs. destruct (Rcase_abs _); lra.
Qed.

(** A tick that starts with a serve being prepared, in full. *)
Lemma serving_tick (lm : option (list FP.Point)) (d : FP.Draws)
  (s s' : FP.Engine) :
  BallInv s ->
  FP.gameStateRef s = FP.SERVING ->
  FP.update lm d s = Some s' ->
  FP.scoresRef s' = FP.scoresRef s
  /\ FP.serveTurnRef s' = FP.serveTurnRef s
  /\ ((FP.gameStateRef s' = FP.SERVING /\ pinned s'
       /\ ~ serveRequested lm d (FP.serveTurnRef s))
      \/ (FP.gameStateRef s' = FP.PLAYING
          /\ FP.b_dy (FP.ball s') = 7 * serveDirection (FP.serveTurnRef s)
          /\ Rabs (FP.b_dx (FP.ball s')) <= 3
          /\ serveRequested lm d (FP.serveTurnRef s))).
Proof.
  intros Hi Hg Hu.
  apply FPF.update_steps in Hu. destruct Hu as (s1 & H1 & ->).
  pose proof (FPF.processInput_match _ _ _ _ H1) as Hm.
  destruct (FPF.aiLogic_facts s1) as (Ap & _ & _ & _ & Ab & _).
  pose proof (FPF.aiLogic_match s1) as Am. unfold FP.matchOf in Am.
  injection Am as Ag Asc At _.
  destruct Hi as (I1 & I2 & I3 & I4 & I5 & _).
  destruct (I5 Hg) as (Hdx & Hdy & Hy).
  destruct (processInput_cases _ _ _ _ H1)
    as (_ & [(Eb & Esc & Et & _ & _ & Eg & _)
            | [(l & s0 & _ & _ & Hn & _)
              | (l & s0 & -> & Hbent & _ & Ht & Hg0 & Ht0 & Hb0 & Hsc0
                 & ->)]]);
    [|congruence|].
  - specialize (Eg (or_introl Hg)). rewrite Hg in Eg.
    unfold FP.ballPhysics. rewrite Ag, Eg, At, Et.
    destruct (FP.serveTurnRef s) eqn:Ht.
    + split; [cbn; congruence|]. split; [cbn; congruence|].
      left. split; [exact (eq_trans Ag Eg)|]. split.
      * unfold pinned, FP.stickBall.
        cbv [FP.ball FP.set_ball FP.b_dx FP.b_dy FP.b_x FP.b_y
             FP.serveTurnRef FP.paddlePlayerX].
        fold (FP.serveTurnRef (FP.aiLogic s1)).
        fold (FP.ball (FP.aiLogic s1)).
        fold (FP.paddlePlayerX (FP.aiLogic s1)).
        fold (FP.b_dx (FP.ball (FP.aiLogic s1))).
        fold (FP.b_dy (FP.ball (FP.aiLogic s1))).
        rewrite At, Et, Ab, Eb. repeat split; assumption.
      * intros (l & -> & Hb).
        unfold FP.matchOf at 2 in Hm. rewrite Hg, Ht in Hm.
        unfold FP.inputMatch in Hm.
        destruct (FP.handDetectedRef s); cbn in Hm; rewrite Hb in Hm;
          unfold FP.matchOf in Hm; congruence.
    + set (s2 := FP.stickBall _ _ _).
      assert (G2 : FP.gameStateRef s2 = FP.SERVING)
        by exact (eq_trans Ag Eg).
      assert (Sc2 : FP.scoresRef s2 = FP.scoresRef s)
        by (subst s2; cbn; congruence).
      assert (T2 : FP.serveTurnRef s2 = FP.AI)
        by (subst s2; cbn; congruence).
      assert (B2 : FP.b_dx (FP.ball s2) = 0 /\ FP.b_dy (FP.ball s2) = 0
                   /\ FP.baseSpeed (FP.ball s2) = 7
                   /\ FP.launchDirY (FP.ball s2) = 1
                   /\ FP.launchDx (FP.ball s2) = FP.launchDx (FP.ball s)
                   /\ FP.b_x (FP.ball s2) = FP.paddleAIX s2
                   /\ FP.b_y (FP.ball s2)
                      = FP.WALL_OFFSET + FP.PADDLE_HEIGHT + FP.BALL_RADIUS
                        + 5).
      { subst s2. unfold FP.stickBall. cbn. rewrite Ab, Eb.
        repeat split; assumption. }
      clearbody s2. destruct B2 as (D1 & D2 & D3 & D4 & D5 & D6 & D7).
      destruct (Rltb _ _) eqn:E; Rhyps.
      * destruct (triggerServe_view s2 G2) as (Vg & Vsc & Vt & Vb).
        split; [congruence|]. split; [congruence|].
        right. split; [exact Vg|]. rewrite Vb. cbn.
        rewrite D3, D4, D5. repeat split; try assumption; lra.
      * split; [congruence|]. split; [congruence|].
        left. split; [exact G2|]. split.
        -- unfold pinned. rewrite T2. repeat split; assumption.
        -- cbn. lra.
  - destruct (triggerServe_view s0 Hg0) as (Vg & Vsc & Vt & Vb).
    rewrite Vg in Ag. rewrite Vsc, Hsc0 in Asc. rewrite Vt, Ht0 in At.
    rewrite Vb, Hb0 in Ab. rewrite I1, I2, Ht in Ab. cbn in Ab.
    rewrite Ht in Hy. cbn in Hy.
    rewrite (playing_tick d _ Ag).
    destruct (before_scoring_view d (FP.aiLogic (FP.triggerServe s0)))
      as (M3 & _ & _ & _ & Hb).
    cbv zeta in Hb.
    set (s3 := FP.playerPaddleCollision d _) in *. clearbody s3.
    rewrite Ab in Hb. cbn in Hb.
    unfold FP.matchOf in M3. injection M3 as G3 Sc3 T3 _.
    revert Hy Hb.
    unfold FP.CANVAS_HEIGHT, FP.WALL_OFFSET, FP.PADDLE_HEIGHT, FP.BALL_RADIUS.
    intros Hy [(Hy3 & Hdy3 & Hdx3) | (_ & Hc & _)]; [|lra].
    unfold FP.scoring, FP.CANVAS_HEIGHT.
    rewrite (proj2 (Rltb_false_iff _ 0)) by lra.
    rewrite (proj2 (Rgtb_false_iff _ 720)) by lra.
    split; [congruence|]. split; [congruence|].
    right. split; [congruence|]. rewrite Ht. cbn.
    split; [lra|]. split; [rewrite Hdx3; exact I3|].
    exists l. split; [reflexivity | exact Hbent].
Qed.

Lemma reachable_BallInv (s : FP.Engine) : reachable s -> BallInv s.
Proof.
  intros (r & frames & Hr & Hf & Hrun).
  exact (run_BallInv frames _ s Hf (initial_BallInv r Hr) Hrun).
Qed.

Lemma closedHand_isIndexBent : FP.isIndexBent closedHand = Some true.
Proof.
  unfold FP.isIndexBent. cbn -[FP.dist Rltb].
  assert (Hd : FP.dist (FP.mkPoint 0.5 0.5) (FP.mkPoint 0.5 0.5) = 0).
  { unfold FP.dist. cbn.
    replace ((0.5 - 0.5) * ((0.5 - 0.5) * 1) + (0.5 - 0.5) * ((0.5 - 0.5) * 1))
      with 0 by lra.
    apply sqrt_0. }
  rewrite Hd. f_equal. apply Rltb_true_iff. unfold FP.BEND_THRESHOLD. lra.
Qed.

Lemma fpNoDraw_inRange : drawsInRange fpNoDraw.
Proof. unfold drawsInRange, fpNoDraw. cbn. lra. Qed.

(** A first frame with a fist takes the loaded page to the player's first
    serve. *)
Lemma first_fist_serves :
  exists s,
    FP.run [(Some closedHand, fpNoDraw)] (FP.onloadeddata (FP.initial 0.5))
    = Some s
    /\ reachable s
    /\ FP.gameStateRef s = FP.SERVING
    /\ FP.serveTurnRef s = FP.PLAYER
    /\ FP.scoresRef s = FP.mkScores 0 0.
Proof.
  destruct (FPF.update_defined (Some closedHand) fpNoDraw
              (FP.onloadeddata (FP.initial 0.5)) eq_refl) as (s & Hu).
  assert (Hr : FP.run [(Some closedHand, fpNoDraw)]
                 (FP.onloadeddata (FP.initial 0.5)) = Some s)
    by (cbn [FP.run]; rewrite Hu; reflexivity).
  exists s. split; [exact Hr|]. split.
  - exists 0.5, [(Some closedHand, fpNoDraw)].
    split; [lra|]. split; [|exact Hr].
    constructor; [exact fpNoDraw_inRange | constructor].
  - assert (Hm : FP.inputMatch (Some closedHand)
                   (FP.handDetectedRef (FP.onloadeddata (FP.initial 0.5)))
                   (FP.matchOf (FP.onloadeddata (FP.initial 0.5)))
                 = (FP.SERVING, FP.mkScores 0 0, FP.PLAYER, 0%Z)).
    { cbn -[FP.isFist closedHand]. rewrite closedHand_isFist. reflexivity. }
    pose proof (FPF.update_match_idle _ _ _ _ Hu) as H.
    rewrite Hm in H. specialize (H ltac:(discriminate)).
    unfold FP.matchOf in H. cbn in H. injection H as Hg Hsc Ht _.
    auto.
Qed.

(** X5. In every state the loop reaches, with any hand frames and any draws
    from [0, 1): while a serve is prepared the ball is at rest; in active
    play the ball is inside the canvas vertically, its vertical speed is at
    least the launch speed 7, and its horizontal speed is at most 35/3. *)
Theorem ball_speed_and_height_in_play :
  forall r frames s,
    0 <= r < 1 ->
    framesInRange frames ->
    FP.run frames (FP.onloadeddata (FP.initial r)) = Some s ->
    (FP.gameStateRef s = FP.SERVING ->
     FP.b_dx (FP.ball s) = 0 /\ FP.b_dy (FP.ball s) = 0)
    /\ (FP.gameStateRef s = FP.PLAYING ->
        7 <= Rabs (FP.b_dy (FP.ball s))
        /\ Rabs (FP.b_dx (FP.ball s)) <= 35 / 3
        /\ 0 <= FP.b_y (FP.ball s) <= FP.CANVAS_HEIGHT).
Proof.
  intros r frames s Hr Hf Hrun.
  destruct (run_BallInv frames _ s Hf (initial_BallInv r Hr) Hrun)
    as (_ & _ & _ & I4 & I5 & I6).
  split.
  - intros Hg. destruct (I5 Hg) as (Hdx & Hdy & _). split; assumption.
  - intros Hg. destruct (I6 Hg) as (Hdy & Hy). repeat split; tauto.
Qed.

Lemma ball_speed_and_height_in_play_witness :
  exists s,
    FP.run [(Some closedHand, fpNoDraw)] (FP.onloadeddata (FP.initial 0.5))
    = Some s
    /\ FP.b_dx (FP.ball s) = 0 /\ FP.b_dy (FP.ball s) = 0.
Proof.
  destruct first_fist_serves as (s & Hr & _ & Hg & _).
  exists s. split; [exact Hr|].
  assert (H0 : 0 <= 0.5 < 1) by lra.
  assert (Hf : framesInRange [(Some closedHand, fpNoDraw)])
    by (constructor; [exact fpNoDraw_inRange | constructor]).
  exact (proj1 (ball_speed_and_height_in_play 0.5 _ s H0 Hf Hr) Hg).
Defined.

(** X6. A requested serve is launched in the same tick, toward the
    receiver: in a reachable state that prepares a serve, a tick with the
    bent index finger (when the player serves) or with a draw below 0.02
    (when the opponent serves) ends in active play with the ball moving at
    vertical speed 7 away from the server, up for the player and down for
    the opponent, and at no more than 3 sideways; scores and server are
    unchanged. *)
Theorem requested_serve_goes_to_receiver :
  forall lm d s s',
    reachable s ->
    FP.gameStateRef s = FP.SERVING ->
    serveRequested lm d (FP.serveTurnRef s) ->
    FP.update lm d s = Some s' ->
    FP.gameStateRef s' = FP.PLAYING
    /\ FP.b_dy (FP.ball s') = 7 * serveDirection (FP.serveTurnRef s)
    /\ Rabs (FP.b_dx (FP.ball s')) <= 3
    /\ FP.scoresRef s' = FP.scoresRef s
    /\ FP.serveTurnRef s' = FP.serveTurnRef s.
Proof.
  intros lm d s s' Hre Hg Hq Hu.
  destruct (serving_tick lm d s s' (reachable_BallInv s Hre) Hg Hu)
    as (Hsc & Ht & [(_ & _ & Hn) | (Hp & Hdy & Hdx & _)]);
    [contradiction|].
  repeat split; assumption.
Qed.

Lemma requested_serve_goes_to_receiver_witness :
  exists s s',
    FP.run [(Some closedHand, fpNoDraw)] (FP.onloadeddata (FP.initial 0.5))
    = Some s
    /\ FP.update (Some closedHand) fpNoDraw s = Some s'
    /\ FP.gameStateRef s' = FP.PLAYING
    /\ FP.b_dy (FP.ball s') = 7 * -1.
Proof.
  destruct first_fist_serves as (s & Hr & Hre & Hg & Ht & _).
  destruct (FPF.update_defined (Some closedHand) fpNoDraw s eq_refl)
    as (s' & Hu).
  exists s, s'. split; [exact Hr|]. split; [exact Hu|].
  assert (Hq : serveRequested (Some closedHand) fpNoDraw (FP.serveTurnRef s)).
  { rewrite Ht. exists closedHand.
    split; [reflexivity | exact closedHand_isIndexBent]. }
  destruct (requested_serve_goes_to_receiver _ _ _ _ Hre Hg Hq Hu)
    as (Hp & Hdy & _).
  rewrite Ht in Hdy. split; [exact Hp | exact Hdy].
Defined.

(** X7. The player's serve waits for the gesture, however long: from a
    reachable state in which the player prepares a serve, any number of
    ticks none of which shows a bent index finger leaves the game in the
    serving phase with the same server and scores, and after each such tick
    the ball rests on the player's paddle. *)
Theorem player_serve_waits_for_gesture :
  forall frames s s',
    reachable s ->
    FP.gameStateRef s = FP.SERVING ->
    FP.serveTurnRef s = FP.PLAYER ->
    framesInRange frames ->
    Forall noPlayerServe frames ->
    FP.run frames s = Some s' ->
    FP.gameStateRef s' = FP.SERVING
    /\ FP.serveTurnRef s' = FP.PLAYER
    /\ FP.scoresRef s' = FP.scoresRef s
    /\ (frames <> [] -> pinned s').
Proof.
  intros frames s s' Hre. apply reachable_BallInv in Hre.
  revert s s' Hre.
  induction frames as [|[lm d] rest IH]; intros s s' Hi Hg Ht Hf Hn Hr.
  - injection Hr as <-.
    split; [exact Hg|]. split; [exact Ht|]. split; [reflexivity|].
    intros H. congruence.
  - cbn [FP.run] in Hr. apply bind_Some in Hr.
    destruct Hr as (s1 & Hu & Hr).
    inversion Hf as [|? ? Hd Hf']; subst.
    inversion Hn as [|? ? Hn1 Hn']; subst.
    unfold noPlayerServe in Hn1. cbn [fst snd] in Hn1, Hd.
    destruct (serving_tick lm d s s1 Hi Hg Hu)
      as (Hsc & Ht1 & [(Hg1 & Hp1 & _) | (_ & _ & _ & Hq)]);
      [|rewrite Ht in Hq; contradiction].
    rewrite Ht in Ht1.
    pose proof (update_BallInv _ _ _ _ Hd Hi Hu) as Hi1.
    destruct (IH s1 s' Hi1 Hg1 Ht1 Hf' Hn' Hr) as (Hg' & Ht' & Hsc' & Hp').
    split; [exact Hg'|]. split; [exact Ht'|]. split; [congruence|].
    intros _. destruct rest as [|f rest'].
    + injection Hr as <-. exact Hp1.
    + apply Hp'. discriminate.
Qed.

Lemma player_serve_waits_for_gesture_witness :
  exists s s',
    FP.run [(Some closedHand, fpNoDraw)] (FP.onloadeddata (FP.initial 0.5))
    = Some s
    /\ FP.run (repeat (None, fpNoDraw) 100) s = Some s'
    /\ FP.gameStateRef s' = FP.SERVING
    /\ pinned s'.
Proof.
  destruct first_fist_serves as (s & Hr & Hre & Hg & Ht & _).
  assert (Hw : Forall FP.wellFormedFrame (repeat (None, fpNoDraw) 100)).
  { apply Forall_forall. intros f Hf. apply repeat_spec in Hf. subst f.
    exact I. }
  destruct (FPF.run_defined _ s Hw) as (s' & Hr').
  exists s, s'. split; [exact Hr|]. split; [exact Hr'|].
  assert (Hf : framesInRange (repeat (None, fpNoDraw) 100)).
  { apply Forall_forall. intros f Hf. apply repeat_spec in Hf. subst f.
    exact fpNoDraw_inRange. }
  assert (Hn : Forall noPlayerServe (repeat (None, fpNoDraw) 100)).
  { apply Forall_forall. intros f Hf'. apply repeat_spec in Hf'. subst f.
    intros (l & Hl & _). discriminate. }
  destruct (player_serve_waits_for_gesture _ s s' Hre Hg Ht Hf Hn Hr')
    as (Hg' & _ & _ & Hp).
  split; [exact Hg'|]. apply Hp. discriminate.
Defined.

(** X8. Outside active play no point is scored: a tick that starts in a
    reachable state outside active play leaves the scores as they are, or,
    when its hand frame shows a fist at the menu or after a game, resets
    them to 0-0 and prepares the player's serve. *)
Theorem scores_fixed_outside_play :
  forall lm d s s',
    reachable s ->
    FP.gameStateRef s <> FP.PLAYING ->
    FP.update lm d s = Some s' ->
    FP.scoresRef s' = FP.scoresRef s
    \/ (FP.scoresRef s' = FP.mkScores 0 0
        /\ FP.gameStateRef s' = FP.SERVING
        /\ FP.serveTurnRef s' = FP.PLAYER
        /\ FP.gameStateRef s <> FP.SERVING
        /\ exists l, lm = Some l /\ FP.isFist l = Some true).
Proof.
  intros lm d s s' Hre Hn Hu.
  destruct (FP.GameState_eqb (FP.gameStateRef s) FP.SERVING) eqn:Hs.
  - left. apply (serving_tick lm d s s' (reachable_BallInv s Hre));
      [|exact Hu].
    destruct (FP.gameStateRef s); try discriminate. reflexivity.
  - assert (Hns : FP.gameStateRef s <> FP.SERVING)
      by (intros E; rewrite E in Hs; discriminate).
    apply FPF.update_steps in Hu. destruct Hu as (s1 & H1 & ->).
    pose proof (FPF.aiLogic_match s1) as Am. unfold FP.matchOf in Am.
    injection Am as Ag Asc At _.
    assert (Hidle : FP.gameStateRef s1 <> FP.PLAYING ->
                    (FP.gameStateRef s1 = FP.SERVING ->
                     FP.serveTurnRef s1 = FP.PLAYER) ->
                    FP.matchOf (FP.ballPhysics d (FP.aiLogic s1))
                    = FP.matchOf s1).
    { intros Hp Hsv.
      rewrite FPF.ballPhysics_match_idle by (rewrite Ag; exact Hp).
      rewrite Ag, At, FPF.aiLogic_match.
      destruct (FP.gameStateRef s1); try reflexivity.
      rewrite (Hsv eq_refl). reflexivity. }
    destruct (processInput_cases _ _ _ _ H1)
      as (_ & [(Eb & Esc & Et & _ & _ & _ & Eg)
              | [(l & s0 & -> & Hfist & _ & _ & ->)
                | (l & s0 & _ & _ & Hs' & _)]]);
      [left | right | congruence].
    + assert (Hm : FP.matchOf (FP.ballPhysics d (FP.aiLogic s1))
                   = FP.matchOf s1).
      { apply Hidle.
        - intros E. specialize (Eg (or_intror E)). congruence.
        - intros E. specialize (Eg (or_introl E)). congruence. }
      unfold FP.matchOf in Hm. congruence.
    + pose proof (FPF.startGame_match d s0) as Sm.
      assert (Hm : FP.matchOf (FP.ballPhysics d (FP.aiLogic
                                                   (FP.startGame d s0)))
                   = FP.matchOf (FP.startGame d s0)).
      { apply Hidle.
        - intros E. unfold FP.matchOf in Sm. congruence.
        - intros _. unfold FP.matchOf in Sm. congruence. }
      rewrite Sm in Hm. unfold FP.matchOf in Hm.
      split; [congruence|]. split; [congruence|]. split; [congruence|].
      split; [exact Hns|]. exists l. split; [reflexivity | exact Hfist].
Qed.

Lemma scores_fixed_outside_play_witness :
  exists s s',
    FP.run [(Some closedHand, fpNoDraw)] (FP.onloadeddata (FP.initial 0.5))
    = Some s
    /\ FP.update None fpNoDraw s = Some s'
    /\ FP.scoresRef s' = FP.mkScores 0 0.
Proof.
  destruct first_fist_serves as (s & Hr & Hre & Hg & _ & Hsc).
  destruct (FPF.update_defined None fpNoDraw s I) as (s' & Hu).
  exists s, s'. split; [exact Hr|]. split; [exact Hu|].
  assert (Hn : FP.gameStateRef s <> FP.PLAYING)
    by (rewrite Hg; discriminate).
  destruct (scores_fixed_outside_play None fpNoDraw s s' Hre Hn Hu)
    as [H | (H & _)]; [rewrite H; exact Hsc | exact H].
Defined.

(** ** Forest Pong: the vision service and the loop *)

(** X9. [detect] never hands out the same video picture twice: right after
    a call for a picture, a second call at the same [currentTime] returns
    null and leaves the service as it is, whether the detector is loaded or
    not and whatever it would detect. *)
Theorem detect_skips_repeated_picture :
  forall t r1 r2 v,
    Vision.detect (Vision.mkVideo t r2)
      (snd (Vision.detect (Vision.mkVideo t r1) v))
    = (None, snd (Vision.detect (Vision.mkVideo t r1) v)).
Proof.
  intros t r1 r2 v. unfold Vision.detect at 2 3.
  cbn [Vision.currentTime Vision.detection].
  destruct (Vision.handLandmarker v) eqn:Hl; cbn [negb snd].
  - destruct (Req_dec_T t (Vision.lastVideoTime v)) as [E|E]; cbn [snd];
      unfold Vision.detect; cbn [Vision.currentTime Vision.handLandmarker
                                   Vision.lastVideoTime];
      rewrite ?Hl; cbn [negb].
    + destruct (Req_dec_T t (Vision.lastVideoTime v)); [reflexivity|].
      contradiction.
    + destruct (Req_dec_T t t); [reflexivity | congruence].
  - unfold Vision.detect. rewrite Hl. reflexivity.
Qed.

Lemma gameLoop_stalled (vid : Vision.Video) (d : FP.Draws)
  (v : Vision.VisionService) (s : FP.Engine) :
  Vision.lastVideoTime v = Vision.currentTime vid ->
  Vision.gameLoop (Some vid) d (v, s)
  = (s' <- FP.update None d s ;; Some (v, s')).
Proof.
  intros Ht. unfold Vision.gameLoop, Vision.detect.
  destruct (Vision.handLandmarker v); cbn [negb]; [|reflexivity].
  destruct (Req_dec_T _ _) as [E|E]; [reflexivity | congruence].
Qed.

Lemma loops_stalled (vid : Vision.Video) (ds : list FP.Draws)
  (v : Vision.VisionService) (s : FP.Engine) :
  Vision.lastVideoTime v = Vision.currentTime vid ->
  Vision.loops (stalled vid ds) (v, s)
  = (s' <- FP.run (absentFrames ds) s ;; Some (v, s')).
Proof.
  intros Ht. revert s. induction ds as [|d ds IH]; intros s; [reflexivity|].
  cbn [stalled absentFrames map Vision.loops FP.run].
  rewrite (gameLoop_stalled vid d v s Ht).
  destruct (FP.update None d s) as [s1|]; [|reflexivity].
  cbn [bind]. apply IH.
Qed.

(** Ticks without a hand frame count up, and past 30 the hand is lost. *)
Lemma run_absent (ds : list FP.Draws) (s s' : FP.Engine) :
  FP.run (absentFrames ds) s = Some s' ->
  FP.missingHandFramesRef s'
  = (FP.missingHandFramesRef s + Z.of_nat (List.length ds))%Z
  /\ ((0 <= FP.missingHandFramesRef s)%Z ->
      (FP.missingHandFramesRef s + Z.of_nat (List.length ds) > 30)%Z ->
      ds <> [] ->
      FP.handDetectedRef s' = false).
Proof.
  revert s. induction ds as [|d ds IH]; intros s Hr.
  - injection Hr as <-. cbn [List.length Z.of_nat]. split; [lia|].
    intros _ _ H. congruence.
  - cbn [absentFrames map FP.run] in Hr. apply bind_Some in Hr.
    destruct Hr as (s1 & Hu & Hr).
    destruct (FPF.update_hand _ _ _ _ Hu) as (Hm & Hd & _).
    destruct (IH s1 Hr) as (Hm' & Hd').
    change (List.length (d :: ds)) with (S (List.length ds)).
    split; [rewrite Hm', Hm; lia|].
    intros H0 Hgt _. destruct ds as [|d' ds'].
    + injection Hr as <-. rewrite Hd.
      cbn [List.length] in Hgt.
      destruct (FP.missingHandFramesRef s + 1 >? 30)%Z eqn:E;
        [reflexivity | lia].
    + apply Hd'; [lia | rewrite Hm; lia | discriminate].
Qed.

(** X10. A stalled video loses the hand: while the video shows the picture
    the service has already handed out, every run of the loop counts as
    a missing hand, so 31 or more animation frames in a row on one picture
    end with the hand declared lost, whatever the detector would find in
    that picture. *)
Theorem stalled_video_loses_hand :
  forall vid ds v s v' s',
    Vision.lastVideoTime v = Vision.currentTime vid ->
    FP.missingHandFramesRef s = 0%Z ->
    (31 <= List.length ds)%nat ->
    Vision.loops (stalled vid ds) (v, s) = Some (v', s') ->
    FP.handDetectedRef s' = false
    /\ FP.missingHandFramesRef s' = Z.of_nat (List.length ds)
    /\ v' = v.
Proof.
  intros vid ds v s v' s' Ht Hm Hn Hl.
  rewrite (loops_stalled vid ds v s Ht) in Hl.
  apply bind_Some in Hl. destruct Hl as (s1 & Hr & Hl).
  injection Hl as <- <-.
  destruct (run_absent ds s s1 Hr) as (Hc & Hd).
  split; [|split; [rewrite Hc, Hm; lia | reflexivity]].
  apply Hd; [lia | lia |]. intros ->. cbn in Hn. lia.
Qed.

Lemma stalled_video_loses_hand_witness :
  exists v' s',
    Vision.loops
      (stalled (Vision.mkVideo 5 (Vision.mkResult [closedHand]))
         (repeat fpNoDraw 31))
      (Vision.mkVision true 5, fpSample FP.MENU 0 0 FP.PLAYER 0)
    = Some (v', s')
    /\ FP.handDetectedRef (fpSample FP.MENU 0 0 FP.PLAYER 0) = true
    /\ FP.handDetectedRef s' = false.
Proof.
  set (vid := Vision.mkVideo 5 (Vision.mkResult [closedHand])).
  set (v := Vision.mkVision true 5).
  set (s := fpSample FP.MENU 0 0 FP.PLAYER 0).
  assert (Hw : Forall FP.wellFormedFrame (absentFrames (repeat fpNoDraw 31))).
  { apply Forall_forall. intros f Hf. unfold absentFrames in Hf.
    apply in_map_iff in Hf. destruct Hf as (d & <- & _). exact I. }
  destruct (FPF.run_defined _ s Hw) as (s' & Hr).
  assert (Hl : Vision.loops (stalled vid (repeat fpNoDraw 31)) (v, s)
               = Some (v, s')).
  { rewrite (loops_stalled vid _ v s eq_refl), Hr. reflexivity. }
  exists v, s'. split; [exact Hl|]. split; [reflexivity|].
  assert (Hn : (31 <= List.length (repeat fpNoDraw 31))%nat)
    by (rewrite repeat_length; lia).
  exact (proj1 (stalled_video_loses_hand vid _ v s v s' eq_refl eq_refl
                  Hn Hl)).
Defined.

(** ** Pong Motion: the gesture classifier and the hand *)

Lemma dist_plane (p q p' q' : PM.HandLandmark) :
  PM.l_x p = PM.l_x p' /\ PM.l_y p = PM.l_y p' ->
  PM.l_x q = PM.l_x q' /\ PM.l_y q = PM.l_y q' ->
  PM.dist p q = PM.dist p' q'.
Proof.
  intros (Hx & Hy) (Hx' & Hy'). unfold PM.dist.
  rewrite Hx, Hy, Hx', Hy'. reflexivity.
Qed.

(** X11. The gesture is computed from nine landmarks in the image plane
    and from nothing else: two hand frames that agree on the x and y of the
    wrist (0), the knuckles 5, 9, 13, 17 and the fingertips 8, 12, 16, 20
    get the same answer from [detectGesture], or make it raise alike.  The
    thumb, the joints between knuckle and tip, and every depth coordinate
    play no part. *)
Theorem gesture_reads_nine_landmarks :
  forall l l',
    Forall (agreeAt l l') gestureLandmarks ->
    PM.detectGesture l = PM.detectGesture l'.
Proof.
  intros l l' H. unfold gestureLandmarks in H.
  repeat match goal with
         | H : Forall _ (_ :: _) |- _ =>
             let Ha := fresh "A" in
             let Hr := fresh "R" in
             inversion H as [|? ? Ha Hr]; subst; clear H
         end.
  unfold agreeAt in *. unfold PM.detectGesture.
  destruct (nth_error l 0) as [w|], (nth_error l' 0) as [w'|];
    try contradiction; [|reflexivity].
  destruct (nth_error l 5) as [m5|], (nth_error l' 5) as [m5'|];
    try contradiction; [|reflexivity].
  destruct (nth_error l 8) as [t8|], (nth_error l' 8) as [t8'|];
    try contradiction; [|reflexivity].
  destruct (nth_error l 9) as [m9|], (nth_error l' 9) as [m9'|];
    try contradiction;
    [|destruct (nth_error l 12), (nth_error l' 12); reflexivity].
  destruct (nth_error l 12) as [t12|], (nth_error l' 12) as [t12'|];
    try contradiction; [|reflexivity].
  destruct (nth_error l 13) as [m13|], (nth_error l' 13) as [m13'|];
    try contradiction;
    [|destruct (nth_error l 16), (nth_error l' 16); reflexivity].
  destruct (nth_error l 16) as [t16|], (nth_error l' 16) as [t16'|];
    try contradiction; [|reflexivity].
  destruct (nth_error l 17) as [m17|], (nth_error l' 17) as [m17'|];
    try contradiction;
    [|destruct (nth_error l 20), (nth_error l' 20); reflexivity].
  destruct (nth_error l 20) as [t20|], (nth_error l' 20) as [t20'|];
    try contradiction; [|reflexivity].
  cbn [bind].
  rewrite (dist_plane w m5 w' m5'), (dist_plane t8 m5 t8' m5'),
    (dist_plane t12 m9 t12' m9'), (dist_plane t16 m13 t16' m13'),
    (dist_plane t20 m17 t20' m17') by assumption.
  reflexivity.
Qed.

Lemma gesture_reads_nine_landmarks_witness :
  PM.detectGesture pointHand = PM.detectGesture thumbOut.
Proof.
  apply (gesture_reads_nine_landmarks pointHand thumbOut).
  unfold gestureLandmarks.
  repeat (constructor; [unfold agreeAt; cbn; split; reflexivity|]).
  constructor.
Defined.

(** ** Pong Motion: the paddles of the canvas *)

Lemma update_paddleX (i : PM.FrameInput) (c : PM.Canvas) :
  PM.gameState c = PM.PLAYING ->
  PM.paddleX (PM.physics (PM.update i c))
  = PM.paddleX (PM.physics (PM.paddleMoved i c)).
Proof.
  intros Hg. rewrite PMF.update_unfold, Hg.
  destruct (PM.isServing c).
  - unfold PM.serveLogic.
    destruct (PM.server (PM.paddleMoved i c));
      [destruct (PM.HandGesture_eqb _ _) | destruct (Rgtb _ _)];
      reflexivity.
  - destruct (PMF.beforeScoring_rest (PM.paddleMoved i c)) as (Hr & _).
    unfold PM.restOf in Hr. injection Hr as Hp _ _ _ _ _ _ _ _.
    destruct (PMF.scoring_cases i (PM.beforeScoring (PM.paddleMoved i c)))
      as [-> | (w & ->)]; [exact Hp|].
    rewrite (proj1 (PMF.handleScoring_rest _ _ _)). exact Hp.
Qed.

(** X12. In play the paddle follows the mirrored fingertip: when a hand
    frame is analysed and its results are the props of an animation frame,
    that frame moves the left edge of the player's paddle three tenths of
    the way to the clamped target, which is the mirrored fingertip
    coordinate scaled to the field minus half a paddle; the distance to the
    target shrinks by the factor 0.7. *)
Theorem canvas_paddle_follows_fingertip :
  forall l tip x g t r c,
    nth_error l 8 = Some tip ->
    analyzeHand l = Some (x, g) ->
    PM.gameState c = PM.PLAYING ->
    x = 1 - PM.l_x tip
    /\ PM.paddleX (PM.physics (PM.update (PM.mkInput g x t r) c))
       - paddleGoal (1 - PM.l_x tip)
       = 0.7 * (PM.paddleX (PM.physics c) - paddleGoal (1 - PM.l_x tip)).
Proof.
  intros l tip x g t r c Ht Ha Hg.
  unfold analyzeHand in Ha. rewrite Ht in Ha. cbn [bind] in Ha.
  apply bind_Some in Ha. destruct Ha as (g' & _ & Ha).
  injection Ha as <- <-. split; [reflexivity|].
  rewrite (update_paddleX _ c Hg).
  unfold PM.paddleMoved, paddleGoal.
  cbn [PM.paddleX PM.physics PM.set_paddleX PM.set_physics PM.paddleXProp].
  lra.
Qed.

Lemma pointHand_gesture : PM.detectGesture pointHand = Some PM.OPEN_PALM.
Proof.
  unfold PM.detectGesture. cbn -[PM.dist Rltb].
  assert (Hd : PM.dist (PM.mkLandmark 0.5 0.5 0) (PM.mkLandmark 0.5 0.5 0)
               = 0).
  { unfold PM.dist. cbn [PM.l_x PM.l_y].
    replace ((0.5 - 0.5) ^ 2 + (0.5 - 0.5) ^ 2) with 0 by lra.
    apply sqrt_0. }
  rewrite Hd. rewrite (proj2 (Rltb_false_iff 0 (0 * 0.9))) by lra.
  reflexivity.
Qed.

Lemma canvas_paddle_follows_fingertip_witness :
  PM.paddleX
    (PM.physics
       (PM.update (PM.mkInput PM.OPEN_PALM (1 - 0.5) 0 0.5)
          (pmSample PM.PLAYING 0 0 PM.Player 0)))
  - paddleGoal (1 - 0.5)
  = 0.7 * (PM.paddleX (PM.physics (pmSample PM.PLAYING 0 0 PM.Player 0))
           - paddleGoal (1 - 0.5)).
Proof.
  assert (Ha : analyzeHand pointHand = Some (1 - 0.5, PM.OPEN_PALM)).
  { unfold analyzeHand. rewrite pointHand_gesture. reflexivity. }
  exact (proj2 (canvas_paddle_follows_fingertip pointHand
                  (PM.mkLandmark 0.5 0.5 0) (1 - 0.5) PM.OPEN_PALM 0 0.5
                  (pmSample PM.PLAYING 0 0 PM.Player 0)
                  eq_refl Ha eq_refl)).
Defined.

(** ** Pong Motion: the speed of the ball *)

Lemma paddleHit_speed (paddle sgn y' : R) (b : PM.BallState) :
  Rabs sgn = 1 -> 0 <= PM.speed b ->
  0 <= PM.speed (PM.paddleHit paddle sgn y' b) <= 25
  /\ Rabs (PM.b_dy (PM.paddleHit paddle sgn y' b))
     <= PM.speed (PM.paddleHit paddle sgn y' b).
Proof.
  intros Hs Hb. unfold PM.paddleHit. cbn [PM.speed PM.b_dy].
  set (a := (PM.b_x b - (paddle + PM.PADDLE_WIDTH / 2))
            / (PM.PADDLE_WIDTH / 2) * (PI / 4)).
  assert (Hm : 0 <= Rmin (PM.speed b + 1) 25 <= 25).
  { unfold Rmin. destruct (Rle_dec _ _); lra. }
  split; [exact Hm|].
  rewrite !Rabs_mult, Hs, (Rabs_pos_eq (Rmin _ _)) by tauto.
  pose proof (COS_bound a) as Hc.
  assert (Ha : 0 <= Rabs (cos a) <= 1)
    by (split; [apply Rabs_pos | apply Rabs_le; lra]).
  nra.
Qed.

Lemma SpeedInv_ball (c c' : PM.Canvas) :
  PM.speed (PM.ball (PM.physics c')) = PM.speed (PM.ball (PM.physics c)) ->
  PM.b_dy (PM.ball (PM.physics c')) = PM.b_dy (PM.ball (PM.physics c)) ->
  SpeedInv c -> SpeedInv c'.
Proof. unfold SpeedInv. intros -> ->. tauto. Qed.

Lemma launchBall_SpeedInv (r : R) (c : PM.Canvas) :
  SpeedInv (PM.launchBall r c).
Proof.
  unfold SpeedInv, PM.launchBall. cbn.
  split; [lra|]. destruct (PM.server c); unfold Rabs;
    destruct (Rcase_abs _); lra.
Qed.

Lemma serveLogic_SpeedInv (i : PM.FrameInput) (c : PM.Canvas) :
  SpeedInv c -> SpeedInv (PM.serveLogic i c).
Proof.
  intros Hi. unfold PM.serveLogic. destruct (PM.server c).
  - destruct (PM.HandGesture_eqb _ _); [apply launchBall_SpeedInv|].
    revert Hi. apply SpeedInv_ball; reflexivity.
  - destruct (Rgtb _ _); [apply launchBall_SpeedInv|].
    revert Hi. apply SpeedInv_ball; reflexivity.
Qed.

Lemma collision_SpeedInv (c : PM.Canvas) :
  SpeedInv c ->
  SpeedInv (PM.playerPaddleCollision c) /\ SpeedInv (PM.aiPaddleCollision c).
Proof.
  intros Hi. unfold PM.playerPaddleCollision, PM.aiPaddleCollision.
  split; (destruct (_ && _)%bool; [|exact Hi]); unfold SpeedInv;
    cbn [PM.ball PM.physics PM.set_ball PM.set_physics];
    apply paddleHit_speed; try apply Hi;
    unfold Rabs; destruct (Rcase_abs _); lra.
Qed.

Lemma beforeScoring_SpeedInv (c : PM.Canvas) :
  SpeedInv c -> SpeedInv (PM.beforeScoring c).
Proof.
  intros Hi. unfold PM.beforeScoring.
  apply collision_SpeedInv, collision_SpeedInv.
  destruct (PMF.aiMovement_rest (PM.wallCollisions (PM.moveBall c)))
    as (_ & Hb & _).
  assert (Hw : SpeedInv (PM.wallCollisions (PM.moveBall c))).
  { unfold PM.wallCollisions. destruct (_ || _)%bool;
      revert Hi; apply SpeedInv_ball; reflexivity. }
  revert Hw. apply SpeedInv_ball; rewrite Hb; reflexivity.
Qed.

Lemma handleScoring_SpeedInv (w : PM.Side) (t : R) (c : PM.Canvas) :
  SpeedInv c -> SpeedInv (PM.handleScoring w t c).
Proof.
  intros Hi. destruct (PMF.handleScoring_rest w t c) as (_ & _ & Hw & Hn).
  destruct (PM.wins (PM.scored w (PM.scores c))).
  - destruct (Hw eq_refl) as (_ & Hb). revert Hi.
    apply SpeedInv_ball; rewrite Hb; reflexivity.
  - destruct (Hn eq_refl) as (_ & Hb & _). unfold SpeedInv. rewrite Hb.
    cbn [PM.speed PM.b_dy]. rewrite Rabs_R0. lra.
Qed.

Lemma update_SpeedInv (i : PM.FrameInput) (c : PM.Canvas) :
  SpeedInv c -> SpeedInv (PM.update i c).
Proof.
  intros Hi. rewrite PMF.update_unfold.
  destruct (PM.gameState c); try exact Hi.
  assert (Hm : SpeedInv (PM.paddleMoved i c))
    by (revert Hi; apply SpeedInv_ball; reflexivity).
  destruct (PM.isServing c); [apply serveLogic_SpeedInv, Hm|].
  destruct (PMF.scoring_cases i (PM.beforeScoring (PM.paddleMoved i c)))
    as [-> | (w & ->)].
  - apply beforeScoring_SpeedInv, Hm.
  - apply handleScoring_SpeedInv, beforeScoring_SpeedInv, Hm.
Qed.

Lemma step_SpeedInv (e : PM.Event) (c : PM.Canvas) :
  SpeedInv c -> SpeedInv (PM.step e c).
Proof.
  intros Hi. destruct e as [i | | h | | t].
  - apply update_SpeedInv, Hi.
  - destruct (PMF.step_app_cases PM.CameraReady c)
      as [-> | (g & _ & _ & ->)]; try discriminate; exact Hi.
  - destruct (PMF.step_app_cases (PM.Gesture h) c)
      as [-> | (g & _ & _ & ->)]; try discriminate; exact Hi.
  - destruct (PMF.step_app_cases PM.CountdownOver c)
      as [-> | (g & _ & _ & ->)]; try discriminate; exact Hi.
  - unfold SpeedInv. cbn. rewrite Rabs_R0. lra.
Qed.

(** X13. In every state Pong Motion reaches by animation frames and App
    events, the speed of the ball is between 0 and the cap 25, and the
    vertical velocity is no larger than the speed: the ball never crosses
    more than 25 pixels of the field's length in a frame. *)
Theorem canvas_ball_speed_within_cap :
  forall es t0,
    let b := PM.ball (PM.physics (PM.steps es (PM.started t0))) in
    0 <= PM.speed b <= 25 /\ Rabs (PM.b_dy b) <= PM.speed b.
Proof.
  intros es t0.
  assert (H : forall c, SpeedInv c -> SpeedInv (PM.steps es c)).
  { unfold PM.steps. induction es as [|e es IH]; intros c Hi; [exact Hi|].
    cbn [fold_left]. apply IH, step_SpeedInv, Hi. }
  apply H. unfold SpeedInv. cbn. rewrite Rabs_R0. lra.
Qed.

(** Inside the quarter turn around the vertical, the cosine exceeds the
    sine in absolute value. *)
Lemma sin_below_cos (a : R) :
  - (PI / 4) < a < PI / 4 -> Rabs (sin a) < cos a.
Proof.
  intros Ha.
  assert (Hs2 : 0 < sqrt 2) by (apply sqrt_lt_R0; lra).
  assert (H4 : sin (PI / 4) = 1 / sqrt 2) by apply sin_PI4.
  assert (C4 : cos (PI / 4) = 1 / sqrt 2) by apply cos_PI4.
  assert (Hi : 0 < 1 / sqrt 2) by (apply Rdiv_lt_0_compat; lra).
  pose proof PI_RGT_0 as Hpi.
  assert (H1 : 0 < cos (a + PI / 4))
    by (apply cos_gt_0; lra).
  assert (H2 : 0 < cos (a - PI / 4))
    by (apply cos_gt_0; lra).
  rewrite cos_plus, H4, C4 in H1. rewrite cos_minus, H4, C4 in H2.
  unfold Rabs. destruct (Rcase_abs _); nra.
Qed.

(** X14. A paddle returns the ball within 45 degrees of the length of the
    field and away from itself: when the player's paddle hits (in a state
    with a speed that is not negative), the ball leaves upwards, when the
    opponent's paddle hits, downwards; its sideways velocity is smaller
    than its vertical one, and the velocity has exactly the length of the
    new speed. *)
Theorem returned_ball_within_45_degrees :
  forall c,
    0 <= PM.speed (PM.ball (PM.physics c)) ->
    (PM.inPlayerBand (PM.ball (PM.physics c))
     && PM.overPaddle (PM.ball (PM.physics c)) (PM.paddleX (PM.physics c))
     = true ->
     let b' := PM.ball (PM.physics (PM.playerPaddleCollision c)) in
     PM.b_dy b' < 0 /\ Rabs (PM.b_dx b') < - PM.b_dy b'
     /\ PM.b_dx b' ^ 2 + PM.b_dy b' ^ 2 = PM.speed b' ^ 2)
    /\ (PM.inAiBand (PM.ball (PM.physics c))
        && PM.overPaddle (PM.ball (PM.physics c))
             (PM.aiPaddleX (PM.physics c)) = true ->
        let b' := PM.ball (PM.physics (PM.aiPaddleCollision c)) in
        PM.b_dy b' > 0 /\ Rabs (PM.b_dx b') < PM.b_dy b'
        /\ PM.b_dx b' ^ 2 + PM.b_dy b' ^ 2 = PM.speed b' ^ 2).
Proof.
  intros c Hsp.
  assert (Hhit : forall paddle sgn y',
             PM.overPaddle (PM.ball (PM.physics c)) paddle = true ->
             sgn = 1 \/ sgn = -1 ->
             let b' := PM.paddleHit paddle sgn y' (PM.ball (PM.physics c)) in
             0 < sgn * PM.b_dy b'
             /\ Rabs (PM.b_dx b') < sgn * PM.b_dy b'
             /\ PM.b_dx b' ^ 2 + PM.b_dy b' ^ 2 = PM.speed b' ^ 2).
  { intros paddle sgn y' Ho Hsgn. cbv zeta. unfold PM.paddleHit.
    cbn [PM.b_dx PM.b_dy PM.speed].
    unfold PM.overPaddle in Ho. apply andb_prop in Ho.
    destruct Ho as (Ho1 & Ho2).
    apply Rgtb_true_iff in Ho1. apply Rltb_true_iff in Ho2.
    set (a := (PM.b_x (PM.ball (PM.physics c))
               - (paddle + PM.PADDLE_WIDTH / 2))
              / (PM.PADDLE_WIDTH / 2) * (PI / 4)).
    set (v := Rmin (PM.speed (PM.ball (PM.physics c)) + 1) 25).
    assert (Hv : 0 < v)
      by (unfold v, Rmin; destruct (Rle_dec _ _); lra).
    pose proof PI_RGT_0 as Hpi.
    assert (Ha : - (PI / 4) < a < PI / 4).
    { unfold a. revert Ho1 Ho2. unfold PM.PADDLE_WIDTH.
      set (x := PM.b_x (PM.ball (PM.physics c))). intros Ho1 Ho2.
      replace ((x - (paddle + 120 / 2)) / (120 / 2) * (PI / 4))
        with ((x - paddle - 60) / 60 * (PI / 4)) by lra.
      assert (Hx : -1 < (x - paddle - 60) / 60 < 1) by lra.
      split; nra. }
    pose proof (sin_below_cos a Ha) as Hsc.
    assert (Hc : 0 < cos a) by (pose proof (Rabs_pos (sin a)); lra).
    pose proof (sin2_cos2 a) as Hp. unfold Rsqr in Hp.
    assert (Hss : sgn * sgn = 1) by (destruct Hsgn; subst; lra).
    replace (sgn * (sgn * v * cos a)) with ((sgn * sgn) * (v * cos a))
      by ring.
    rewrite Hss, Rmult_1_l.
    split; [nra|]. split.
    - rewrite Rabs_mult, (Rabs_pos_eq v) by lra. nra.
    - replace ((v * sin a) ^ 2 + (sgn * v * cos a) ^ 2)
        with (v ^ 2 * (sin a * sin a + (sgn * sgn) * (cos a * cos a)))
        by ring.
      rewrite Hss, Rmult_1_l, Hp. ring. }
  split; intros Hh; cbv zeta.
  - apply andb_prop in Hh. destruct Hh as (Hb & Ho).
    unfold PM.playerPaddleCollision. rewrite Hb, Ho. cbn [andb].
    cbn [PM.ball PM.physics PM.set_ball PM.set_physics].
    destruct (Hhit (PM.paddleX (PM.physics c)) (-1)
                (PM.GAME_HEIGHT - PM.PADDLE_HEIGHT - PM.BALL_RADIUS - 10)
                Ho (or_intror eq_refl)) as (H1 & H2 & H3).
    repeat split; try exact H3; lra.
  - apply andb_prop in Hh. destruct Hh as (Hb & Ho).
    unfold PM.aiPaddleCollision. rewrite Hb, Ho. cbn [andb].
    cbn [PM.ball PM.physics PM.set_ball PM.set_physics].
    destruct (Hhit (PM.aiPaddleX (PM.physics c)) 1
                (PM.PADDLE_HEIGHT + PM.BALL_RADIUS + 10)
                Ho (or_introl eq_refl)) as (H1 & H2 & H3).
    repeat split; try exact H3; lra.
Qed.

Lemma returned_ball_within_45_degrees_witness :
  PM.b_dy (PM.ball (PM.physics (PM.playerPaddleCollision hitCanvas))) < 0
  /\ PM.speed (PM.ball (PM.physics (PM.playerPaddleCollision hitCanvas)))
     = 13.
Proof.
  assert (Hs : 0 <= PM.speed (PM.ball (PM.physics hitCanvas)))
    by (cbn; lra).
  assert (Hh : PM.inPlayerBand (PM.ball (PM.physics hitCanvas))
               && PM.overPaddle (PM.ball (PM.physics hitCanvas))
                    (PM.paddleX (PM.physics hitCanvas)) = true).
  { unfold PM.inPlayerBand, PM.overPaddle, hitCanvas, PM.GAME_HEIGHT,
      PM.PADDLE_HEIGHT, PM.BALL_RADIUS, PM.PADDLE_WIDTH.
    cbn [PM.ball PM.physics PM.paddleX PM.b_x PM.b_y].
    Rtests. reflexivity. }
  split.
  - exact (proj1 (proj1 (returned_ball_within_45_degrees hitCanvas Hs) Hh)).
  - unfold PM.playerPaddleCollision. rewrite Hh.
    unfold PM.paddleHit, hitCanvas.
    cbn [PM.ball PM.physics PM.set_ball PM.set_physics PM.speed].
    unfold Rmin. destruct (Rle_dec _ _); lra.
Defined.

(** ** Pong Motion: the opponent's paddle in the canvas *)

Lemma clamp_cases (lo hi v : R) :
  lo <= hi ->
  (v < lo /\ clamp lo hi v = lo)
  \/ (lo <= v <= hi /\ clamp lo hi v = v)
  \/ (hi < v /\ clamp lo hi v = hi).
Proof.
  intros Hle. unfold clamp, Rmax, Rmin.
  destruct (Rle_dec hi v); destruct (Rle_dec lo _); lra.
Qed.

Lemma aiMovement_value (c : PM.Canvas) :
  PM.aiPaddleX (PM.physics (PM.aiMovement c))
  = let a := PM.aiPaddleX (PM.physics c) in
    let target := PM.b_x (PM.ball (PM.physics c)) - PM.PADDLE_WIDTH / 2 in
    clamp 0 (PM.GAME_WIDTH - PM.PADDLE_WIDTH)
      (if Rltb a target
       then if Rgtb (a + 8) target then a + 8 - 8 else a + 8
       else if Rgtb a target then a - 8 else a).
Proof.
  unfold PM.aiMovement. cbv zeta.
  destruct (Rltb _ _);
    cbn [PM.aiPaddleX PM.physics PM.set_aiPaddleX PM.set_physics PM.ball];
    destruct (Rgtb _ _); reflexivity.
Qed.

(** X15. In active play of Pong Motion the opponent's paddle moves by one
    step of 8 pixels or rests, and it has a dead zone: with a ball whose
    centre goes to [x], it rests whenever its left edge is less than 8
    pixels to the left of [x - 60], steps back a full 8 pixels as soon as
    the edge is to the right of [x - 60] (even if that overshoots), and
    steps forward otherwise; the result is clamped to the field. *)
Theorem canvas_opponent_paddle_step :
  forall i c,
    PM.BoundsInv c ->
    PM.gameState c = PM.PLAYING ->
    PM.isServing c = false ->
    let a := PM.aiPaddleX (PM.physics c) in
    let a' := PM.aiPaddleX (PM.physics (PM.update i c)) in
    let target :=
      PM.b_x (PM.ball (PM.physics c)) + PM.b_dx (PM.ball (PM.physics c))
      - PM.PADDLE_WIDTH / 2 in
    Rabs (a' - a) <= 8
    /\ (target - 8 < a <= target -> a' = a)
    /\ (target < a -> a' = Rmax 0 (a - 8))
    /\ (a + 8 <= target -> a' = Rmin (PM.GAME_WIDTH - PM.PADDLE_WIDTH) (a + 8)).
Proof.
  intros i c (_ & Ha & _) Hg Hs. cbv zeta.
  rewrite PMF.update_unfold, Hg, Hs.
  assert (Hsc : PM.aiPaddleX
                  (PM.physics
                     (PM.scoring i (PM.beforeScoring (PM.paddleMoved i c))))
                = PM.aiPaddleX
                    (PM.physics (PM.beforeScoring (PM.paddleMoved i c)))).
  { destruct (PMF.scoring_cases i (PM.beforeScoring (PM.paddleMoved i c)))
      as [-> | (w & ->)]; [reflexivity|].
    apply (PMF.handleScoring_rest w (PM.now i)). }
  rewrite Hsc. unfold PM.beforeScoring.
  rewrite (proj2 (PMF.onlyBall_rest _ _ PMF.aiPaddleCollision_onlyBall)).
  rewrite (proj2 (PMF.onlyBall_rest _ _ PMF.playerPaddleCollision_onlyBall)).
  set (c2 := PM.wallCollisions (PM.moveBall (PM.paddleMoved i c))).
  assert (Hx : PM.b_x (PM.ball (PM.physics c2))
               = PM.b_x (PM.ball (PM.physics c))
                 + PM.b_dx (PM.ball (PM.physics c))).
  { unfold c2, PM.wallCollisions. destruct (_ || _)%bool; reflexivity. }
  assert (Hp : PM.aiPaddleX (PM.physics c2) = PM.aiPaddleX (PM.physics c)).
  { unfold c2, PM.wallCollisions. destruct (_ || _)%bool; reflexivity. }
  clearbody c2. rewrite aiMovement_value. cbv zeta. rewrite Hx, Hp.
  revert Ha. unfold PM.GAME_WIDTH, PM.PADDLE_WIDTH.
  set (a := PM.aiPaddleX (PM.physics c)).
  set (x := PM.b_x (PM.ball (PM.physics c))
            + PM.b_dx (PM.ball (PM.physics c))).
  intros Ha.
  assert (H680 : 0 <= 800 - 120) by lra.
  match goal with
  | |- context [clamp 0 (800 - 120) ?v] =>
      destruct (clamp_cases 0 (800 - 120) v H680)
        as [(Hv & ->) | [(Hv & ->) | (Hv & ->)]]; revert Hv
  end;
    (destruct (Rltb a (x - 120 / 2)) eqn:E1;
     [destruct (Rgtb (a + 8) (x - 120 / 2)) eqn:E2
     |destruct (Rgtb a (x - 120 / 2)) eqn:E2]);
    Rhyps; intros Hv;
    unfold Rmax, Rmin, Rabs;
    repeat match goal with
           | |- context [Rle_dec ?u ?v] => destruct (Rle_dec u v)
           | |- context [Rcase_abs ?u] => destruct (Rcase_abs u)
           end;
    repeat split; intros; lra.
Qed.

Lemma canvas_opponent_paddle_step_witness :
  PM.aiPaddleX
    (PM.physics (PM.update capInput (pmSample PM.PLAYING 0 0 PM.Player 0)))
  = PM.aiPaddleX (PM.physics (pmSample PM.PLAYING 0 0 PM.Player 0)).
Proof.
  assert (Hb : PM.BoundsInv (pmSample PM.PLAYING 0 0 PM.Player 0)).
  { unfold PM.BoundsInv, pmSample, PM.GAME_WIDTH, PM.PADDLE_WIDTH. cbn.
    repeat split; try lra; discriminate. }
  destruct (canvas_opponent_paddle_step capInput
              (pmSample PM.PLAYING 0 0 PM.Player 0) Hb eq_refl eq_refl)
    as (_ & Hrest & _).
  apply Hrest. unfold pmSample, PM.PADDLE_WIDTH. cbn. lra.
Defined.

(** ** Pong Motion: the way into a match *)

Lemma update_idle (i : PM.FrameInput) (c : PM.Canvas) :
  PM.gameState c <> PM.PLAYING -> PM.update i c = c.
Proof.
  intros Hg. rewrite PMF.update_unfold.
  destruct (PM.gameState c); try reflexivity. congruence.
Qed.

Lemma step_without_fist (e : PM.Event) (c : PM.Canvas) :
  e <> PM.Gesture PM.FIST ->
  beforeCountdown (PM.gameState c) = true ->
  beforeCountdown (PM.gameState (PM.step e c)) = true.
Proof.
  intros He Hb. destruct e as [i | | h | | t]; cbn [PM.step].
  - rewrite update_idle; [exact Hb|].
    intros E. rewrite E in Hb. discriminate.
  - destruct (PM.gameState c) eqn:E; cbn; rewrite ?E; auto.
  - destruct (PM.gameState c) eqn:E; destruct h; cbn; rewrite ?E; auto;
      congruence.
  - destruct (PM.gameState c) eqn:E; cbn; rewrite ?E; auto; discriminate.
  - reflexivity.
Qed.

Lemma step_without_countdown (e : PM.Event) (c : PM.Canvas) :
  e <> PM.CountdownOver ->
  PM.preMatch (PM.gameState c) = true ->
  PM.preMatch (PM.gameState (PM.step e c)) = true.
Proof.
  intros He Hb. destruct e as [i | | h | | t]; cbn [PM.step].
  - rewrite update_idle; [exact Hb|].
    intros E. rewrite E in Hb. discriminate.
  - destruct (PM.gameState c) eqn:E; cbn; rewrite ?E; auto.
  - destruct (PM.gameState c) eqn:E; destruct h; cbn; rewrite ?E; auto.
  - congruence.
  - reflexivity.
Qed.

(** X16. No match of Pong Motion without a fist and a countdown: from the
    mounted page, a sequence of animation frames and App events that lacks
    the fist gesture, or lacks the end of the countdown, never reaches
    active play or the end of a game, whatever else it contains. *)
Theorem match_needs_fist_and_countdown :
  forall es t0,
    ~ In (PM.Gesture PM.FIST) es \/ ~ In PM.CountdownOver es ->
    PM.gameState (PM.steps es (PM.started t0)) <> PM.PLAYING
    /\ PM.gameState (PM.steps es (PM.started t0)) <> PM.GAME_OVER.
Proof.
  intros es t0 H.
  assert (Hpre : PM.preMatch (PM.gameState (PM.steps es (PM.started t0)))
                 = true).
  { destruct H as [H | H].
    - assert (Hb : forall c,
                 beforeCountdown (PM.gameState c) = true ->
                 beforeCountdown (PM.gameState (PM.steps es c)) = true).
      { unfold PM.steps. induction es as [|e es IH]; intros c Hc;
          [exact Hc|].
        cbn [fold_left]. apply IH.
        - intros Hin. apply H. right. exact Hin.
        - apply step_without_fist; [|exact Hc].
          intros ->. apply H. left. reflexivity. }
      specialize (Hb (PM.started t0) eq_refl).
      destruct (PM.gameState _); try discriminate; reflexivity.
    - assert (Hb : forall c,
                 PM.preMatch (PM.gameState c) = true ->
                 PM.preMatch (PM.gameState (PM.steps es c)) = true).
      { unfold PM.steps. induction es as [|e es IH]; intros c Hc;
          [exact Hc|].
        cbn [fold_left]. apply IH.
        - intros Hin. apply H. right. exact Hin.
        - apply step_without_countdown; [|exact Hc].
          intros ->. apply H. left. reflexivity. }
      exact (Hb (PM.started t0) eq_refl). }
  destruct (PM.gameState _); split; discriminate.
Qed.

Lemma match_needs_fist_and_countdown_witness :
  PM.gameState
    (PM.steps [PM.CameraReady; PM.Gesture PM.OPEN_PALM; PM.CountdownOver]
       (PM.started 0)) <> PM.PLAYING.
Proof.
  apply (match_needs_fist_and_countdown
           [PM.CameraReady; PM.Gesture PM.OPEN_PALM; PM.CountdownOver] 0).
  left. intros [H | [H | [H | []]]]; discriminate.
Defined.

(** ** Pong Motion: the hand state never goes back *)

Lemma detectGesture_known (l : list PM.HandLandmark) (g : PM.HandGesture) :
  PM.detectGesture l = Some g -> g <> PM.UNKNOWN.
Proof.
  unfold PM.detectGesture. intros H.
  repeat (apply bind_Some in H; destruct H as (? & _ & H)).
  repeat match type of H with
         | (if ?c then _ else _) = _ => destruct c
         end;
    injection H as <-; discriminate.
Qed.

Lemma processVideo_cases (pic : PongVision.Picture)
  (st st' : PongVision.VisionService * PongVision.HandState) :
  PongVision.processVideo pic st = Some st' ->
  snd st' = snd st
  \/ exists hand rest x g,
       PongVision.landmarks pic = hand :: rest
       /\ analyzeHand hand = Some (x, g)
       /\ snd st' = PongVision.mkHand x g.
Proof.
  destruct st as (v, a). unfold PongVision.processVideo.
  destruct (_ || _)%bool; [intros H; injection H as <-; left; reflexivity|].
  destruct (Req_dec_T _ _); [intros H; injection H as <-; left; reflexivity|].
  destruct (PongVision.landmarks pic) as [|hand rest];
    [intros H; injection H as <-; left; reflexivity|].
  intros H. apply bind_Some in H. destruct H as ((x, g) & Ha & H).
  injection H as <-. right. exists hand, rest, x, g. repeat split.
  exact Ha.
Qed.

(** X17. Pong Motion never withdraws what it last saw of the hand: pictures
    that show no hand leave the reported paddle position and gesture as
    they are, however many of them follow, and once a gesture other than
    UNKNOWN has been reported, no sequence of pictures brings UNKNOWN
    back. *)
Theorem reported_hand_is_never_withdrawn :
  forall pics st st',
    PongVision.runs pics st = Some st' ->
    (Forall handless pics -> snd st' = snd st)
    /\ (PongVision.handGesture (snd st) <> PM.UNKNOWN ->
        PongVision.handGesture (snd st') <> PM.UNKNOWN).
Proof.
  induction pics as [|pic rest IH]; intros st st' Hr.
  - injection Hr as <-. split; [reflexivity | tauto].
  - cbn [PongVision.runs] in Hr. apply bind_Some in Hr.
    destruct Hr as (st1 & Hp & Hr).
    destruct (IH st1 st' Hr) as (Hsame & Hknown).
    destruct (processVideo_cases pic st st1 Hp)
      as [E | (hand & tl & x & g & Hl & Ha & E)].
    + split.
      * intros Hf. inversion Hf; subst. rewrite Hsame by assumption.
        exact E.
      * intros Hk. apply Hknown. rewrite E. exact Hk.
    + split.
      * intros Hf. inversion Hf as [|? ? Hh _]; subst.
        unfold handless in Hh. congruence.
      * intros _. apply Hknown. rewrite E. cbn.
        unfold analyzeHand in Ha. apply bind_Some in Ha.
        destruct Ha as (tip & _ & Ha). apply bind_Some in Ha.
        destruct Ha as (g' & Hg & Ha). injection Ha as _ <-.
        exact (detectGesture_known hand g' Hg).
Qed.

Lemma reported_hand_is_never_withdrawn_witness :
  exists st',
    PongVision.runs
      [PongVision.mkPicture 1 [pointHand]; PongVision.mkPicture 2 []]
      (PongVision.mkVision true true (-1), PongVision.noHand) = Some st'
    /\ PongVision.handGesture (snd st') = PM.OPEN_PALM.
Proof.
  assert (Ha : analyzeHand pointHand = Some (1 - 0.5, PM.OPEN_PALM)).
  { unfold analyzeHand. rewrite pointHand_gesture. reflexivity. }
  assert (H1 : PongVision.processVideo (PongVision.mkPicture 1 [pointHand])
                 (PongVision.mkVision true true (-1), PongVision.noHand)
               = Some (PongVision.mkVision true true 1,
                       PongVision.mkHand (1 - 0.5) PM.OPEN_PALM)).
  { unfold PongVision.processVideo.
    cbn [PongVision.video PongVision.handLandmarker negb orb
         PongVision.currentTime PongVision.lastVideoTime
         PongVision.landmarks].
    destruct (Req_dec_T 1 (-1)); [lra|]. rewrite Ha. reflexivity. }
  assert (H2 : PongVision.runs [PongVision.mkPicture 2 []]
                 (PongVision.mkVision true true 1,
                  PongVision.mkHand (1 - 0.5) PM.OPEN_PALM)
               = Some (PongVision.mkVision true true 2,
                       PongVision.mkHand (1 - 0.5) PM.OPEN_PALM)).
  { cbn [PongVision.runs]. unfold PongVision.processVideo.
    cbn [PongVision.video PongVision.handLandmarker negb orb
         PongVision.currentTime PongVision.lastVideoTime
         PongVision.landmarks].
    destruct (Req_dec_T 2 1); [lra|]. reflexivity. }
  eexists. split.
  - cbn [PongVision.runs]. rewrite H1. cbn [bind]. exact H2.
  - assert (Hf : Forall handless [PongVision.mkPicture 2 []])
      by (repeat constructor).
    rewrite (proj1 (reported_hand_is_never_withdrawn _ _ _ H2) Hf).
    reflexivity.
Defined.
